(** * The label-routed disapproval report (kw-ad-disapproval-checker.js)

    A shallow embedding of the script: the per-account worker [getStats], the
    policy extractor [extractPolicyInfo_] with [normalizeReasons_], the
    aggregator [generateOutput] with its HTML helpers, and the dispatcher
    [processGroup] / [main].

    Conventions of the embedding.
    - A JavaScript string is the list of its UTF-16 code units ([jsstring]).
    - A primitive JavaScript value is a [value]; numbers are integers (the
      script only counts list lengths and adds such counts).
    - A method of a platform object is a [call]: it is missing, it throws, or
      it returns.
    - Exceptions are explicit: fallible code returns a [result]; the
      aggregator and the dispatcher run in the state-and-error monad [M] over
      a [World] holding the effects performed so far and the number of
      clock readings.
    - [Logger.log] and the start of a fan-out always return;
      [MailApp.sendEmail] returns or throws, as the host decides. *)

From Stdlib Require Import ZArith NArith List Ascii String DecimalString Bool Lia.
From stdpp Require Import base decidable countable gmap.
Import ListNotations.
Open Scope Z_scope.

(** ** JavaScript strings and primitive values *)

Abbreviation jsstring := (list N).

(** An ASCII literal as a JavaScript string. *)
Definition js (s : string) : jsstring :=
  List.map N_of_ascii (list_ascii_of_string s).
Arguments js s%_string.

(** A literal that contains double quotes, written here with a backquote
    (code unit 96, which no literal of the script contains) in the place of
    each double quote (code unit 34). *)
Definition jsq (s : string) : jsstring :=
  List.map (fun c => if N.eqb c 96 then 34%N else c) (js s).
Arguments jsq s%_string.

(** The three non-ASCII characters of the script's literals. *)
Definition warning_sign : jsstring := [9888%N].   (* U+26A0 *)
Definition em_dash : jsstring := [8212%N].        (* U+2014 *)
Definition en_dash : jsstring := [8211%N].        (* U+2013 *)

Inductive value :=
| VUndefined
| VNull
| VBool (b : bool)
| VNum (n : Z)
| VStr (s : jsstring).

(** ToBoolean. *)
Definition truthy (v : value) : bool :=
  match v with
  | VUndefined | VNull => false
  | VBool b => b
  | VNum n => negb (n =? 0)
  | VStr s => match s with [] => false | _ => true end
  end.

(** [a || b] and [a && b]. *)
Definition js_or (a b : value) : value := if truthy a then a else b.
Definition js_and (a b : value) : value := if truthy a then b else a.

Definition num_to_string (n : Z) : jsstring :=
  js (NilZero.string_of_int (Z.to_int n)).

(** [String(v)]. *)
Definition js_String (v : value) : jsstring :=
  match v with
  | VUndefined => js "undefined"
  | VNull => js "null"
  | VBool true => js "true"
  | VBool false => js "false"
  | VNum n => num_to_string n
  | VStr s => s
  end.

(** White space and line terminators of ECMAScript: what [trim] strips and
    what the regular expression class [\s] matches. *)
Definition is_space (c : N) : bool :=
  (existsb (N.eqb c)
     [9; 10; 11; 12; 13; 32; 160; 5760; 8232; 8233; 8239; 8287; 12288; 65279]
   || ((8192 <=? c) && (c <=? 8202)))%N.

Fixpoint trimStart (s : jsstring) : jsstring :=
  match s with
  | [] => []
  | c :: r => if is_space c then trimStart r else s
  end.

Definition trimEnd (s : jsstring) : jsstring := rev (trimStart (rev s)).

(** [s.trim()]. *)
Definition trim (s : jsstring) : jsstring := trimEnd (trimStart s).

(** [s.replace(/c/g, rep)] for a one-character pattern. *)
Definition replace_all (c : N) (rep : jsstring) (s : jsstring) : jsstring :=
  flat_map (fun x => if N.eqb x c then rep else [x]) s.

(** [xs.join(sep)] on an array of strings. *)
Fixpoint join (sep : jsstring) (xs : list jsstring) : jsstring :=
  match xs with
  | [] => []
  | [x] => x
  | x :: rest => x ++ sep ++ join sep rest
  end.

(** ** Outcomes of calls *)

Inductive exn :=
| Error (msg : jsstring)   (* throw new Error(msg) *)
| TypeError                (* calling a missing method, reading a property of null *)
| HostError.               (* an exception raised inside a platform call *)

Inductive result (A : Type) :=
| Ok (a : A)
| Thrown (e : exn).
Arguments Ok {A} a.
Arguments Thrown {A} e.

(** A method slot of a platform object. *)
Inductive call (A : Type) :=
| Missing            (* the property is not a function *)
| Raises             (* the call throws *)
| Gives (a : A).     (* the call returns [a] *)
Arguments Missing {A}.
Arguments Raises {A}.
Arguments Gives {A} a.

(** [obj.m()] *)
Definition invoke {A} (m : call A) : result A :=
  match m with
  | Missing => Thrown TypeError
  | Raises => Thrown HostError
  | Gives a => Ok a
  end.

(** [function safeCall_(fn, ctx)] *)
Definition safeCall_ (fn : call value) : value :=
  match fn with
  | Gives v => v
  | Missing | Raises => VNull
  end.

(** ** CONFIG *)

(** An entry of [LABEL_RECIPIENTS]; [None] is an omitted field. *)
Module LabelGroup.
Record t := { label : option jsstring; to : option jsstring; cc : option jsstring }.
End LabelGroup.

Definition opt_value (o : option jsstring) : value :=
  match o with
  | Some s => VStr s
  | None => VUndefined
  end.

Record Config := {
  DEFAULT_TO : jsstring;
  FROM_NAME : jsstring;
  SUBJECT_PREFIX : jsstring;
  LABEL_RECIPIENTS : list LabelGroup.t;
  MAX_ROWS_PER_SECTION : Z;
  INCLUDE_ZERO_ROW_SECTIONS : bool;
  LOG_SUMMARY : bool
}.

(** The configuration as the script ships it. *)
Definition CONFIG : Config := {|
  DEFAULT_TO := js "reports@example.com";
  FROM_NAME := js "Disapproval Monitor";
  SUBJECT_PREFIX := warning_sign ++ js " Disapprovals";
  LABEL_RECIPIENTS :=
    [ {| LabelGroup.label := Some (js "Managed by Sam");
         LabelGroup.to := Some (js "sam@example.com");
         LabelGroup.cc := Some [] |} ];
  MAX_ROWS_PER_SECTION := 5000;
  INCLUDE_ZERO_ROW_SECTIONS := true;
  LOG_SUMMARY := true
|}.

(** ** HTML helpers *)

(** [function escHtml_(v)] *)
Definition escHtml_ (v : value) : jsstring :=
  match v with
  | VNull | VUndefined => []
  | _ =>
      replace_all 62 (js "&gt;")
        (replace_all 60 (js "&lt;")
           (replace_all 38 (js "&amp;") (js_String v)))
  end.

(** [function td_(v)] *)
Definition td_ (v : value) : jsstring :=
  jsq "<td style=`vertical-align:top;border-top:1px solid #eee;`>"
  ++ escHtml_ v ++ js "</td>".

(** [function sectionHeader_(title, count)] *)
Definition sectionHeader_ (title : jsstring) (count : Z) : jsstring :=
  jsq "<h4 style=`margin:12px 0 6px 0;`>" ++ escHtml_ (VStr title)
  ++ jsq " <span style=`font-weight:normal;color:#555`>(" ++ num_to_string count
  ++ js ")</span></h4>".

(** [function emptyNote_()] *)
Definition emptyNote_ : jsstring :=
  jsq "<div style=`padding:8px 10px;border:1px dashed #ddd;background:#fafafa;color:#777;`>None</div>".

(** The first replacement of [stripHtml_]: [.replace(/<[^>]+>/g, ' ')].
    A match starts at a '<' that is followed by at least one character other
    than '>' and then, somewhere later, by a '>'; it ends at the first such
    '>'.  [inside] tells that the scan is within a match. *)
Fixpoint strip_tags (inside : bool) (s : jsstring) : jsstring :=
  match s with
  | [] => []
  | c :: r =>
      if inside then
        if N.eqb c 62 then strip_tags false r else strip_tags true r
      else if N.eqb c 60 then
        match r with
        | d :: r' =>
            if negb (N.eqb d 62) && existsb (N.eqb 62) r'
            then 32%N :: strip_tags true r'
            else c :: strip_tags false r
        | [] => [c]
        end
      else c :: strip_tags false r
  end.

(** The second replacement: [.replace(/\s+/g, ' ')].  [in_run] tells that
    the previous character was white space. *)
Fixpoint squeeze_spaces (in_run : bool) (s : jsstring) : jsstring :=
  match s with
  | [] => []
  | c :: r =>
      if is_space c
      then if in_run then squeeze_spaces true r else 32%N :: squeeze_spaces true r
      else c :: squeeze_spaces false r
  end.

(** [function stripHtml_(html)] *)
Definition stripHtml_ (html : jsstring) : jsstring :=
  trim (squeeze_spaces false (strip_tags false html)).

(** ** The platform's entities *)

(** A campaign or ad group handle. *)
Module Named.
Record t := { getName : call value }.
End Named.

(** An element of a topic's evidence list. *)
Module Evidence.
Record t := {
  text : value;             (* the field [text]; [VUndefined] when absent *)
  getText : call value
}.
End Evidence.

Module PolicyTopic.
Record t := {
  getTopic : call value;
  getId : call value;
  topic : value;            (* the raw field [topic]; [VUndefined] when absent *)
  id : value;               (* the raw field [id]; [VUndefined] when absent *)
  getEvidences : call (option (list (option Evidence.t)));   (* [None]: null *)
  evidences : option (list (option Evidence.t))              (* [None]: absent *)
}.
End PolicyTopic.

(** What [entity.getPolicyTopics] is: a method slot returning null ([None])
    or an array whose elements are topics or null. *)
Abbreviation topics_slot := (call (option (list (option PolicyTopic.t)))).

(** An entity handle that [extractPolicyInfo_] accepts. *)
Class PolicyEntity (E : Type) := getPolicyTopics : E -> topics_slot.

Module Ad.
Record t := {
  getPolicyApprovalStatus : call value;
  policyTopics : topics_slot;
  getType : call value;
  getCampaign : call (option Named.t);
  getAdGroup : call (option Named.t)
}.
End Ad.

Module Keyword.
Record t := {
  getApprovalStatus : call value;
  policyTopics : topics_slot;
  getText : call value;
  getMatchType : call value;
  getCampaign : call (option Named.t);
  getAdGroup : call (option Named.t)
}.
End Keyword.

Module Asset.
Record t := {
  getPolicyApprovalStatus : call value;
  policyTopics : topics_slot;
  getType : call value;
  getName : call value
}.
End Asset.

#[global] Instance Ad_entity : PolicyEntity Ad.t := Ad.policyTopics.
#[global] Instance Keyword_entity : PolicyEntity Keyword.t := Keyword.policyTopics.
#[global] Instance Asset_entity : PolicyEntity Asset.t := Asset.policyTopics.

(** An iterator: [hasNext()] answers false ([Exhausted]), [hasNext()] or
    [next()] throws ([Broken]), or [next()] hands out an entity. *)
Inductive feed (A : Type) :=
| Exhausted
| Broken
| Yield (a : A) (rest : feed A).
Arguments Exhausted {A}.
Arguments Broken {A}.
Arguments Yield {A} a rest.

(** The entities an iterator hands out before it ends or breaks. *)
Fixpoint yielded {A} (f : feed A) : list A :=
  match f with
  | Exhausted | Broken => []
  | Yield a rest => a :: yielded rest
  end.

(** The iterator ends without throwing. *)
Fixpoint intact {A} (f : feed A) : bool :=
  match f with
  | Exhausted => true
  | Broken => false
  | Yield _ rest => intact rest
  end.

(** The account a worker runs in.  A selector ([AdsApp.ads()] and the like)
    takes the row limit and either fails or returns an iterator. *)
Module Account.
Record t := {
  getName : call value;
  getCustomerId : call value;
  ads : Z -> call (feed Ad.t);
  keywords : Z -> call (feed Keyword.t);
  assets : Z -> call (feed Asset.t)
}.
End Account.

(** ** PolicyInfoExtractor *)

(** Members of [Object.prototype]: every object literal inherits them, so
    [seen[v]] is truthy for these names although [seen] has no such own
    property. *)
Definition Object_prototype_keys : list jsstring :=
  [ js "constructor"; js "hasOwnProperty"; js "isPrototypeOf";
    js "propertyIsEnumerable"; js "toLocaleString"; js "toString";
    js "valueOf"; js "__proto__"; js "__defineGetter__";
    js "__defineSetter__"; js "__lookupGetter__"; js "__lookupSetter__" ].

(** The truthiness of [seen[v]], for the object [seen] whose own properties
    are the map [own]. *)
Definition seen_has (own : gmap jsstring bool) (v : jsstring) : bool :=
  match own !! v with
  | Some b => b
  | None => bool_decide (v ∈ Object_prototype_keys)
  end.

(** The loop of [normalizeReasons_], from index [i] on. *)
Fixpoint normalize_loop (arr : list value) (seen : gmap jsstring bool)
    (out : list jsstring) : list jsstring :=
  match arr with
  | [] => out
  | x :: rest =>
      let v := trim (js_String (js_or x (VStr []))) in
      if truthy (VStr v) && negb (seen_has seen v)
      then normalize_loop rest (<[v := true]> seen) (out ++ [v])
      else normalize_loop rest seen out
  end.

(** [function normalizeReasons_(arr)] *)
Definition normalizeReasons_ (arr : list value) : list jsstring :=
  normalize_loop arr ∅ [].

Module PolicyInfo.
Record t := { topics : list jsstring; reasons : list jsstring }.
End PolicyInfo.

(** The display name of a topic: [getTopic()], else [getId()], else the raw
    fields, else the sentinel. *)
Definition topic_name (t : PolicyTopic.t) : value :=
  let name := VNull in
  let name := match PolicyTopic.getTopic t with
              | Gives v => v
              | Missing | Raises => name
              end in
  let name := if negb (truthy name)
              then match PolicyTopic.getId t with
                   | Gives v => v
                   | Missing | Raises => name
                   end
              else name in
  let name := match negb (truthy name), PolicyTopic.topic t with
              | true, VUndefined | false, _ => name
              | true, v => v
              end in
  let name := match negb (truthy name), PolicyTopic.id t with
              | true, VUndefined | false, _ => name
              | true, v => v
              end in
  js_or name (VStr (js "Unspecified Policy Topic")).

(** What one evidence adds to [reasonsOut]. *)
Definition evidence_reason (ev : option Evidence.t) : list value :=
  match ev with
  | None => []
  | Some e =>
      if truthy (Evidence.text e) then [Evidence.text e]
      else match Evidence.getText e with
           | Gives v => [v]
           | Missing | Raises => []
           end
  end.

(** What one topic adds to [reasonsOut]; a throwing [getEvidences()] is
    caught and adds nothing. *)
Definition topic_reasons (t : PolicyTopic.t) : list value :=
  let fallback := match PolicyTopic.evidences t with
                  | Some evs => evs
                  | None => []
                  end in
  match PolicyTopic.getEvidences t with
  | Raises => []
  | Missing | Gives None => flat_map evidence_reason fallback
  | Gives (Some evs) => flat_map evidence_reason evs
  end.

(** The loop over [topics]: a null element makes [t.topic] throw outside the
    inner handlers, which ends the loop with what was collected so far. *)
Fixpoint topics_loop (topics : list (option PolicyTopic.t))
    (topicsOut reasonsOut : list value) : list value * list value :=
  match topics with
  | [] => (topicsOut, reasonsOut)
  | None :: _ => (topicsOut, reasonsOut)
  | Some t :: rest =>
      topics_loop rest (topicsOut ++ [topic_name t]) (reasonsOut ++ topic_reasons t)
  end.

(** [function extractPolicyInfo_(entity)] *)
Definition extractPolicyInfo_ {E} `{PolicyEntity E} (entity : E) : PolicyInfo.t :=
  let '(topicsOut, reasonsOut) :=
    match getPolicyTopics entity with
    | Missing | Raises | Gives None => ([], [])
    | Gives (Some topics) => topics_loop topics [] []
    end in
  {| PolicyInfo.topics := normalizeReasons_ topicsOut;
     PolicyInfo.reasons := normalizeReasons_ reasonsOut |}.

(** ** The records that cross the worker boundary *)

Module AdRecord.
Record t := {
  type : value; campaign : value; adGroup : value; status : value;
  topics : list jsstring; reasons : list jsstring
}.
End AdRecord.

Module KeywordRecord.
Record t := {
  text : value; matchType : value; campaign : value; adGroup : value;
  status : value; topics : list jsstring; reasons : list jsstring
}.
End KeywordRecord.

Module AssetRecord.
Record t := {
  assetType : value; name : value; status : value;
  topics : list jsstring; reasons : list jsstring
}.
End AssetRecord.

Module Totals.
Record t := { ads : Z; keywords : Z; assets : Z }.
End Totals.

(** The object [out] of [getStats]: the AccountScanResult. *)
Module ScanResult.
Record t := {
  account : jsstring;
  ads : list AdRecord.t;
  keywords : list KeywordRecord.t;
  assets : list AssetRecord.t;
  totals : Totals.t
}.
End ScanResult.

(** What the aggregator reads from a parsed worker result.  Every field may
    be absent ([None], or [VUndefined] for a primitive), which is what the
    aggregator's [||] and [&&] guards provide for. *)
Module AdRow.
Record t := {
  type : value; campaign : value; adGroup : value; status : value;
  topics : option (list jsstring); reasons : option (list jsstring)
}.
End AdRow.

Module KeywordRow.
Record t := {
  text : value; matchType : value; campaign : value; adGroup : value;
  status : value; topics : option (list jsstring); reasons : option (list jsstring)
}.
End KeywordRow.

Module AssetRow.
Record t := {
  assetType : value; name : value; status : value;
  topics : option (list jsstring); reasons : option (list jsstring)
}.
End AssetRow.

Module PayloadTotals.
Record t := { ads : option Z; keywords : option Z; assets : option Z }.
End PayloadTotals.

Module Payload.
Record t := {
  account : value;
  ads : option (list AdRow.t);
  keywords : option (list KeywordRow.t);
  assets : option (list AssetRow.t);
  totals : option PayloadTotals.t
}.
End Payload.

(** One element of [merged.rows]. *)
Module Row.
Record t := {
  account : value;
  ads : list AdRow.t;
  keywords : list KeywordRow.t;
  assets : list AssetRow.t
}.
End Row.

Module MergedTotals.
Record t := { ads : Z; keywords : Z; assets : Z; accounts : Z }.
End MergedTotals.

(** The object [merged] of [generateOutput]: the MergedReport. *)
Module Merged.
Record t := { label : jsstring; rows : list Row.t; totals : MergedTotals.t }.
End Merged.

(** The routing context [{label, to, cc}] that travels as a string. *)
Module Context.
Record t := { label : option jsstring; to : option jsstring; cc : option jsstring }.
End Context.

(** A worker outcome as the fan-out hands it to the aggregator; the return
    value is a string or null ([None]). *)
Module ExecutionResult.
Record t := { getReturnValue : call (option jsstring) }.
End ExecutionResult.

(** ** Effects *)

Module MailOptions.
Record t := { name : option jsstring; htmlBody : jsstring; cc : option jsstring }.
End MailOptions.

Inductive logarg :=
| LogValue (v : value)
| LogExn (e : exn).

Inductive effect :=
| Log (fmt : jsstring) (args : list logarg)                   (* Logger.log *)
| SendEmail (recipient subject body : jsstring) (options : MailOptions.t)   (* MailApp.sendEmail *)
| ExecuteInParallel (condition ctx : jsstring).           (* the fan-out is started *)

(** What the run has done so far: the effects in the order performed, and
    how many times the clock has been read. *)
Record World := { effects : list effect; clock_reads : nat }.

Definition M (A : Type) : Type := World -> World * result A.

#[global] Instance result_ret : MRet result := fun A a => Ok a.
#[global] Instance result_bind : MBind result := fun A B k m =>
  match m with
  | Ok a => k a
  | Thrown e => Thrown e
  end.

#[global] Instance M_ret : MRet M := fun A a w => (w, Ok a).
#[global] Instance M_bind : MBind M := fun A B k m w =>
  match m w with
  | (w', Ok a) => k a w'
  | (w', Thrown e) => (w', Thrown e)
  end.

Definition throw {A} (e : exn) : M A := fun w => (w, Thrown e).

Definition lift {A} (r : result A) : M A := fun w => (w, r).

(** An effect that always returns: a log entry, the start of a fan-out, an
    email the host has accepted. *)
Definition perform (e : effect) : M unit := fun w =>
  ({| effects := effects w ++ [e]; clock_reads := clock_reads w |}, Ok tt).

Definition when (b : bool) (m : M unit) : M unit := if b then m else mret tt.

(** The host the script runs on: what it provides besides the entities. *)
Record Platform := {
  PREVIEW : bool;                                     (* getExecutionInfo().isPreview() *)
  toLocaleString : nat -> jsstring;                   (* new Date().toLocaleString(), by reading *)
  stringify_result : ScanResult.t -> jsstring;        (* JSON.stringify(out) *)
  parse_result : jsstring -> result (option Payload.t);
    (* JSON.parse of a worker's string: a SyntaxError, a falsy value
       ([None]), or a truthy one *)
  stringify_context : Context.t -> jsstring;          (* JSON.stringify({label, to, cc}) *)
  parse_context : jsstring -> result (option Context.t);
  accounts : jsstring -> list Account.t;              (* MccApp.accounts().withCondition(c) *)
  sendEmail : World -> jsstring -> jsstring -> jsstring -> MailOptions.t -> result unit
    (* whether MailApp.sendEmail(recipient, subject, body, options), called
       after what the run has done so far, returns or throws *)
}.

(** [new Date().toLocaleString()] *)
Definition now (P : Platform) : M jsstring := fun w =>
  ({| effects := effects w; clock_reads := S (clock_reads w) |},
   Ok (toLocaleString P (clock_reads w))).

(** [MailApp.sendEmail(recipient, subject, body, options)]: the email goes
    out, or the host throws and no email goes out. *)
Definition send (P : Platform) (recipient subject body : jsstring)
    (options : MailOptions.t) : M unit := fun w =>
  match sendEmail P w recipient subject body options with
  | Ok _ => perform (SendEmail recipient subject body options) w
  | Thrown e => (w, Thrown e)
  end.

(** ** AccountScanner: the per-account worker *)

(** [x.m && x.m()] *)
Definition guarded (m : call value) : result value :=
  match m with
  | Missing => Ok VUndefined
  | Raises => Thrown HostError
  | Gives v => Ok v
  end.

(** [x.getCampaign() && x.getCampaign().getName()] *)
Definition campaign_name (m : call (option Named.t)) : result value :=
  c ← invoke m;
  match c with
  | None => Ok VNull
  | Some c => invoke (Named.getName c)
  end.

(** [x.getAdGroup && x.getAdGroup().getName ? x.getAdGroup().getName() : null] *)
Definition adGroup_name (m : call (option Named.t)) : result value :=
  match m with
  | Missing => Ok VNull
  | Raises => Thrown HostError
  | Gives None => Thrown TypeError
  | Gives (Some g) =>
      match Named.getName g with
      | Missing => Ok VNull
      | Raises => Thrown HostError
      | Gives v => Ok v
      end
  end.

(** The record pushed for an ad that passed the filter (source lines 119-127). *)
Definition ad_record (ad : Ad.t) : result AdRecord.t :=
  let polStatus := safeCall_ (Ad.getPolicyApprovalStatus ad) in
  let pol := extractPolicyInfo_ ad in
  ty ← guarded (Ad.getType ad);
  ca ← campaign_name (Ad.getCampaign ad);
  ag ← adGroup_name (Ad.getAdGroup ad);
  Ok {| AdRecord.type := ty; AdRecord.campaign := ca; AdRecord.adGroup := ag;
        AdRecord.status := polStatus;
        AdRecord.topics := PolicyInfo.topics pol;
        AdRecord.reasons := PolicyInfo.reasons pol |}.

(** The body of the ads loop: [None] is [continue]. *)
Definition ad_step (ad : Ad.t) : result (option AdRecord.t) :=
  let polStatus := safeCall_ (Ad.getPolicyApprovalStatus ad) in
  if bool_decide (js_String polStatus = js "APPROVED") then Ok None
  else r ← ad_record ad; Ok (Some r).

(** The record pushed for a keyword (source lines 146-155). *)
Definition keyword_record (kw : Keyword.t) : result KeywordRecord.t :=
  let kwStatus := safeCall_ (Keyword.getApprovalStatus kw) in
  let pol2 := extractPolicyInfo_ kw in
  tx ← invoke (Keyword.getText kw);
  mt ← guarded (Keyword.getMatchType kw);
  ca ← campaign_name (Keyword.getCampaign kw);
  ag ← adGroup_name (Keyword.getAdGroup kw);
  Ok {| KeywordRecord.text := tx; KeywordRecord.matchType := mt;
        KeywordRecord.campaign := ca; KeywordRecord.adGroup := ag;
        KeywordRecord.status := kwStatus;
        KeywordRecord.topics := PolicyInfo.topics pol2;
        KeywordRecord.reasons := PolicyInfo.reasons pol2 |}.

(** The body of the keywords loop. *)
Definition keyword_step (kw : Keyword.t) : result (option KeywordRecord.t) :=
  let kwStatus := safeCall_ (Keyword.getApprovalStatus kw) in
  if bool_decide (js_String kwStatus = js "APPROVED") then Ok None
  else r ← keyword_record kw; Ok (Some r).

(** The record pushed for an asset (source lines 173-180); nothing here can
    throw. *)
Definition asset_record (asset : Asset.t) : AssetRecord.t :=
  let aStatus := safeCall_ (Asset.getPolicyApprovalStatus asset) in
  let pol3 := extractPolicyInfo_ asset in
  {| AssetRecord.assetType := safeCall_ (Asset.getType asset);
     AssetRecord.name := safeCall_ (Asset.getName asset);
     AssetRecord.status := aStatus;
     AssetRecord.topics := PolicyInfo.topics pol3;
     AssetRecord.reasons := PolicyInfo.reasons pol3 |}.

(** The body of the assets loop. *)
Definition asset_step (asset : Asset.t) : result (option AssetRecord.t) :=
  let aStatus := safeCall_ (Asset.getPolicyApprovalStatus asset) in
  if negb (truthy aStatus) || bool_decide (js_String aStatus = js "APPROVED")
  then Ok None
  else Ok (Some (asset_record asset)).

(** How a [try] block ended. *)
Inductive scan_end :=
| Completed
| Aborted (e : exn).

(** A [while (iter.hasNext())] loop pushing onto the list [acc]; on a throw
    the rows pushed so far stay in the list. *)
Fixpoint drain {A R} (step : A -> result (option R)) (f : feed A) (acc : list R)
    : list R * scan_end :=
  match f with
  | Exhausted => (acc, Completed)
  | Broken => (acc, Aborted HostError)
  | Yield a rest =>
      match step a with
      | Thrown e => (acc, Aborted e)
      | Ok None => drain step rest acc
      | Ok (Some r) => drain step rest (acc ++ [r])
      end
  end.

(** The entities whose loop body ran to its end: those handed out before
    the iterator broke and before the first loop body that threw. *)
Fixpoint processed {A R} (step : A -> result (option R)) (f : feed A) : list A :=
  match f with
  | Exhausted | Broken => []
  | Yield a rest =>
      match step a with
      | Thrown _ => []
      | Ok _ => a :: processed step rest
      end
  end.

(** One category's [try] block up to, and without, the assignment of the
    total: fetch with the row limit, then loop. *)
Definition scan {A R} (selector : call (feed A)) (step : A -> result (option R))
    : list R * scan_end :=
  match selector with
  | Missing => ([], Aborted TypeError)
  | Raises => ([], Aborted HostError)
  | Gives f => drain step f []
  end.

(** The entities of a category that were scanned. *)
Definition scanned {A R} (selector : call (feed A)) (step : A -> result (option R))
    : list A :=
  match selector with
  | Missing | Raises => []
  | Gives f => processed step f
  end.

(** The value of [out.totals.<category>] after the [try] block: the
    assignment [out.totals.x = out.x.length] is its last statement, and the
    field starts at 0. *)
Definition total_after {R} (s : list R * scan_end) : Z :=
  match snd s with
  | Completed => Z.of_nat (length (fst s))
  | Aborted _ => 0
  end.

(** What the [catch] clause logs. *)
Definition scan_log {R} (fmt : jsstring) (s : list R * scan_end) : list effect :=
  match snd s with
  | Completed => []
  | Aborted e => [Log fmt [LogExn e]]
  end.

Section Worker.

Variable cfg : Config.
Variable P : Platform.

(** The object [out] at the [return] of [getStats], with what the worker
    logged.  The account name is read outside every [try]. *)
Definition getStats_out (acct : Account.t) : result (ScanResult.t * list effect) :=
  nm ← invoke (Account.getName acct);
  cid ← invoke (Account.getCustomerId acct);
  let ads := scan (Account.ads acct (MAX_ROWS_PER_SECTION cfg)) ad_step in
  let kws := scan (Account.keywords acct (MAX_ROWS_PER_SECTION cfg)) keyword_step in
  let ass := scan (Account.assets acct (MAX_ROWS_PER_SECTION cfg)) asset_step in
  Ok ({| ScanResult.account := js_String nm ++ js " (" ++ js_String cid ++ js ")";
         ScanResult.ads := fst ads;
         ScanResult.keywords := fst kws;
         ScanResult.assets := fst ass;
         ScanResult.totals :=
           {| Totals.ads := total_after ads;
              Totals.keywords := total_after kws;
              Totals.assets := total_after ass |} |},
      scan_log (js "Ad scan error: %s") ads
      ++ scan_log (js "Keyword scan error: %s") kws).

(** [function getStats()] in the account [acct]. *)
Definition getStats (acct : Account.t) : result jsstring :=
  o ← getStats_out acct;
  Ok (stringify_result P (fst o)).

End Worker.

(** ** ReportAggregator *)

Definition table_open : jsstring :=
  jsq "<table width=`100%` cellpadding=`6` cellspacing=`0` style=`border-collapse:collapse;border:1px solid #ddd;`>".

Definition tr_open : jsstring := jsq "<tr style=`border-top:1px solid #eee;`>".

Definition ads_thead : jsstring :=
  jsq "<thead><tr style=`background:#f7f7f7`><th align=`left`>Type</th><th align=`left`>Campaign</th><th align=`left`>Ad group</th><th align=`left`>Status</th><th align=`left`>Policy topics</th><th align=`left`>Reasons</th></tr></thead>".

Definition keywords_thead : jsstring :=
  jsq "<thead><tr style=`background:#f7f7f7`><th align=`left`>Text</th><th align=`left`>Match</th><th align=`left`>Campaign</th><th align=`left`>Ad group</th><th align=`left`>Status</th><th align=`left`>Policy topics</th><th align=`left`>Reasons</th></tr></thead>".

Definition assets_thead : jsstring :=
  jsq "<thead><tr style=`background:#f7f7f7`><th align=`left`>Type</th><th align=`left`>Name</th><th align=`left`>Status</th><th align=`left`>Policy topics</th><th align=`left`>Reasons</th></tr></thead>".

(** [xs && xs.join(sep)] *)
Definition joined (sep : jsstring) (xs : option (list jsstring)) : value :=
  match xs with
  | None => VUndefined
  | Some l => VStr (join sep l)
  end.

(** The fields of a row in the order of its cells. *)
Definition ad_cells (ad : AdRow.t) : list value :=
  [ AdRow.type ad; AdRow.campaign ad; AdRow.adGroup ad; AdRow.status ad;
    joined (js ", ") (AdRow.topics ad); joined (js "; ") (AdRow.reasons ad) ].

Definition keyword_cells (kw : KeywordRow.t) : list value :=
  [ KeywordRow.text kw; KeywordRow.matchType kw; KeywordRow.campaign kw;
    KeywordRow.adGroup kw; KeywordRow.status kw;
    joined (js ", ") (KeywordRow.topics kw); joined (js "; ") (KeywordRow.reasons kw) ].

Definition asset_cells (a : AssetRow.t) : list value :=
  [ AssetRow.assetType a; AssetRow.name a; AssetRow.status a;
    joined (js ", ") (AssetRow.topics a); joined (js "; ") (AssetRow.reasons a) ].

(** One [<tr>] of a table: ['<tr ...>' + td_(..) + ... + '</tr>']. *)
Definition tr_ (cells : list value) : jsstring :=
  tr_open ++ concat (List.map td_ cells) ++ js "</tr>".

(** [(payload.totals && payload.totals.x) || 0] *)
Definition payload_count (field : PayloadTotals.t -> option Z) (payload : Payload.t) : Z :=
  match Payload.totals payload with
  | None => 0
  | Some t => match field t with
              | None => 0
              | Some n => n
              end
  end.

(** [xs || []] *)
Definition or_empty {A} (xs : option (list A)) : list A :=
  match xs with
  | Some l => l
  | None => []
  end.

Section Pipeline.

Variable cfg : Config.
Variable P : Platform.

(** [function parseSafe_(s)] applied to a return value; a null return value
    parses to null.  [None] is a falsy payload. *)
Definition parseSafe_ (s : option jsstring) : option Payload.t :=
  match s with
  | None => None
  | Some s => match parse_result P s with
              | Ok payload => payload
              | Thrown _ => None
              end
  end.

(** [function buildSubject_(labelName, total, totals)] *)
Definition buildSubject_ (labelName : jsstring) (total : Z) (totals : MergedTotals.t)
    : jsstring :=
  let statusFlag := if 0 <? total then js "FOUND" else js "NONE" in
  js_String (js_or (VStr (SUBJECT_PREFIX cfg)) (VStr (js "Disapprovals")))
  ++ js " " ++ em_dash ++ js " "
  ++ labelName ++ js " " ++ em_dash ++ js " " ++ statusFlag
  ++ js " (Ads:" ++ num_to_string (MergedTotals.ads totals)
  ++ js ", KW:" ++ num_to_string (MergedTotals.keywords totals)
  ++ js ", Assets:" ++ num_to_string (MergedTotals.assets totals) ++ js ")".

(** One round of the merge loop (source lines 210-225). *)
Definition merge_step (merged : Merged.t) (res : ExecutionResult.t) : result Merged.t :=
  match ExecutionResult.getReturnValue res with
  | Missing => Ok merged
  | Raises => Thrown HostError
  | Gives returned =>
      match parseSafe_ returned with
      | None => Ok merged
      | Some payload =>
          let t := Merged.totals merged in
          Ok {| Merged.label := Merged.label merged;
                Merged.rows := Merged.rows merged ++
                  [ {| Row.account := Payload.account payload;
                       Row.ads := or_empty (Payload.ads payload);
                       Row.keywords := or_empty (Payload.keywords payload);
                       Row.assets := or_empty (Payload.assets payload) |} ];
                Merged.totals :=
                  {| MergedTotals.ads :=
                       MergedTotals.ads t + payload_count PayloadTotals.ads payload;
                     MergedTotals.keywords :=
                       MergedTotals.keywords t + payload_count PayloadTotals.keywords payload;
                     MergedTotals.assets :=
                       MergedTotals.assets t + payload_count PayloadTotals.assets payload;
                     MergedTotals.accounts := MergedTotals.accounts t + 1 |} |}
      end
  end.

(** The merge loop over [results]. *)
Fixpoint merge_loop (results : list ExecutionResult.t) (merged : Merged.t)
    : result Merged.t :=
  match results with
  | [] => Ok merged
  | res :: rest => m ← merge_step merged res; merge_loop rest m
  end.

(** The object [merged] before the loop. *)
Definition merged_init (labelName : jsstring) : Merged.t :=
  {| Merged.label := labelName;
     Merged.rows := [];
     Merged.totals := {| MergedTotals.ads := 0; MergedTotals.keywords := 0;
                         MergedTotals.assets := 0; MergedTotals.accounts := 0 |} |}.

(** A category's sub-section: what is pushed onto [html] for it. *)
Definition section_ {A} (title thead : jsstring) (cells : A -> list value)
    (rows : list A) : list jsstring :=
  if negb (length rows =? 0)%nat || INCLUDE_ZERO_ROW_SECTIONS cfg then
    sectionHeader_ title (Z.of_nat (length rows))
    :: (if negb (length rows =? 0)%nat
        then [table_open; thead; js "<tbody>"]
             ++ List.map (fun r => tr_ (cells r)) rows
             ++ [js "</tbody></table>"]
        else [emptyNote_])
  else [].

(** What is pushed for one account (source lines 244-305). *)
Definition account_section (row : Row.t) : list jsstring :=
  (jsq "<h3 style=`margin:16px 0 6px 0;`>" ++ escHtml_ (Row.account row) ++ js "</h3>")
  :: section_ (js "Ads") ads_thead ad_cells (Row.ads row)
  ++ section_ (js "Keywords") keywords_thead keyword_cells (Row.keywords row)
  ++ section_ (js "Assets / Extensions (best-effort)") assets_thead asset_cells
       (Row.assets row).

(** The pushes up to the timestamp line (source lines 231-307). *)
Definition html_report (merged : Merged.t) (labelName : jsstring) : list jsstring :=
  let t := Merged.totals merged in
  [ jsq "<div style=`font-family:Arial,Helvetica,sans-serif;font-size:13px;color:#222;`>";
    jsq "<h2 style=`margin:0 0 8px 0;`>" ++ escHtml_ (VStr (SUBJECT_PREFIX cfg))
    ++ js " " ++ em_dash ++ js " " ++ escHtml_ (VStr labelName) ++ js "</h2>";
    jsq "<p style=`margin:4px 0 12px 0;`>"
    ++ js "Accounts scanned: <b>" ++ num_to_string (MergedTotals.accounts t) ++ js "</b> | "
    ++ js "Ads: <b>" ++ num_to_string (MergedTotals.ads t) ++ js "</b> | "
    ++ js "Keywords: <b>" ++ num_to_string (MergedTotals.keywords t) ++ js "</b> | "
    ++ js "Assets: <b>" ++ num_to_string (MergedTotals.assets t) ++ js "</b>"
    ++ js "</p>" ]
  ++ match Merged.rows merged with
     | [] => [ jsq "<p>No accounts matched the label `<b>" ++ escHtml_ (VStr labelName)
               ++ jsq "</b>`.</p>" ]
     | rows => flat_map account_section rows
     end.

(** The timestamp line and the closing tag (source lines 309-313). *)
Definition html_footer (stamp : jsstring) : list jsstring :=
  [ jsq "<p style=`margin-top:18px;color:#666;font-size:12px;`>Sent " ++ stamp
    ++ (if PREVIEW P then js " (PREVIEW MODE " ++ en_dash ++ js " no changes applied)" else [])
    ++ js "</p>";
    js "</div>" ].

(** [html.join('')] at the end of [generateOutput], for the clock reading
    [stamp]. *)
Definition html_body (merged : Merged.t) (labelName stamp : jsstring) : jsstring :=
  concat (html_report merged labelName ++ html_footer stamp).

(** [(x && x.f) ? String(x.f).trim() : otherwise] *)
Definition trimmed_or (field : option jsstring) (otherwise : jsstring) : jsstring :=
  if truthy (opt_value field) then trim (js_String (opt_value field)) else otherwise.

(** The context after [try { ctx = JSON.parse(contextStr || '{}'); } catch (e) {}];
    a null or field-less parse result reads like the initial [{}]. *)
Definition read_context (contextStr : jsstring) : Context.t :=
  match parse_context P (js_String (js_or (VStr contextStr) (VStr (js "{}")))) with
  | Ok (Some ctx) => ctx
  | Ok None | Thrown _ => {| Context.label := None; Context.to := None; Context.cc := None |}
  end.

(** [function generateOutput(results, contextStr)] *)
Definition generateOutput (results : list ExecutionResult.t) (contextStr : jsstring)
    : M unit :=
  let ctx := read_context contextStr in
  let recipient := trimmed_or (Context.to ctx) (DEFAULT_TO cfg) in
  if negb (truthy (VStr recipient))
  then throw (Error (js "Failed to send email: no recipient"))
  else
    let cc := trimmed_or (Context.cc ctx) [] in
    let labelName := js_String (js_or (opt_value (Context.label ctx))
                                      (VStr (js "(Unlabeled Group)"))) in
    merged ← lift (merge_loop results (merged_init labelName));
    let t := Merged.totals merged in
    let totalIssues := MergedTotals.ads t + MergedTotals.keywords t + MergedTotals.assets t in
    stamp ← now P;
    let html := html_body merged labelName stamp in
    let subject := buildSubject_ labelName totalIssues t in
    let mailOptions :=
      {| MailOptions.name := if truthy (VStr (FROM_NAME cfg)) then Some (FROM_NAME cfg) else None;
         MailOptions.htmlBody := html;
         MailOptions.cc := if truthy (VStr cc) then Some cc else None |} in
    _ ← when (LOG_SUMMARY cfg)
          (perform (Log (jsq "[%s] Emailing `%s` to: %s%s")
             [ LogValue (VStr labelName); LogValue (VStr subject); LogValue (VStr recipient);
               LogValue (VStr (if truthy (VStr cc) then js " (cc " ++ cc ++ js ")" else [])) ]));
    if negb (PREVIEW P)
    then send P recipient subject (stripHtml_ html) mailOptions
    else perform (Log (js "[PREVIEW] Skipped sending email.") []).

(** ** GroupDispatcher and entry point *)

(** What the fan-out reports for one account: the worker's string, or null
    when the worker threw. *)
Definition worker_outcome (acct : Account.t) : ExecutionResult.t :=
  {| ExecutionResult.getReturnValue :=
       Gives (match getStats cfg P acct with
              | Ok s => Some s
              | Thrown _ => None
              end) |}.

(** [selector.executeInParallel('getStats', 'generateOutput', ctx)] for the
    selector with the condition [condition]: the worker runs in every
    selected account, then the aggregator runs on the outcomes. *)
Definition executeInParallel (condition ctx : jsstring) : M unit :=
  _ ← perform (ExecuteInParallel condition ctx);
  generateOutput (List.map worker_outcome (accounts P condition)) ctx.

(** [function processGroup(group)] *)
Definition processGroup (group : LabelGroup.t) : M unit :=
  let recipient := trimmed_or (LabelGroup.to group) (DEFAULT_TO cfg) in
  if negb (truthy (VStr recipient))
  then perform (Log (jsq "Skipping label `%s` because no recipient is configured.")
                  [LogValue (opt_value (LabelGroup.label group))])
  else
    let label := js_String (js_or (opt_value (LabelGroup.label group))
                                  (VStr (js "(Unnamed Label)"))) in
    _ ← when (LOG_SUMMARY cfg)
          (perform (Log (js "[%s] Executing scan for accounts labeled: %s")
             [LogValue (VStr label); LogValue (VStr label)]));
    let labelEscaped := replace_all 39 (js "\'") label in
    let condition := js "LabelNames CONTAINS_ANY ['" ++ labelEscaped ++ js "']" in
    let ctx := stringify_context P
                 {| Context.label := Some label;
                    Context.to := Some recipient;
                    Context.cc := Some (trimmed_or (LabelGroup.cc group) []) |} in
    executeInParallel condition ctx.

(** The [for] loop of [main]. *)
Fixpoint main_loop (groups : list LabelGroup.t) : M unit :=
  match groups with
  | [] => mret tt
  | group :: rest => _ ← processGroup group; main_loop rest
  end.

(** [function main()] *)
Definition main : M unit :=
  match LABEL_RECIPIENTS cfg with
  | [] => throw (Error (js "CONFIG.LABEL_RECIPIENTS is empty " ++ em_dash
                        ++ js " add at least one {label, to}."))
  | groups => main_loop groups
  end.

End Pipeline.

(** ** Vocabulary of the statements *)

(** The rows a loop body pushes for the entities [l]. *)
Definition pushed {A R} (step : A -> result (option R)) (l : list A) : list R :=
  flat_map (fun a => match step a with Ok (Some r) => [r] | _ => [] end) l.

(** The filter of the ads and keywords loops, and that of the assets loop. *)
Definition not_approved (status : value) : bool :=
  negb (bool_decide (js_String status = js "APPROVED")).

Definition ad_passes (ad : Ad.t) : bool :=
  not_approved (safeCall_ (Ad.getPolicyApprovalStatus ad)).

Definition keyword_passes (kw : Keyword.t) : bool :=
  not_approved (safeCall_ (Keyword.getApprovalStatus kw)).

Definition asset_passes (a : Asset.t) : bool :=
  truthy (safeCall_ (Asset.getPolicyApprovalStatus a))
  && not_approved (safeCall_ (Asset.getPolicyApprovalStatus a)).

(** What [normalizeReasons_] makes of one element before it looks at [seen]. *)
Definition normalized (x : value) : jsstring := trim (js_String (js_or x (VStr []))).

(** Order-preserving deduplication that drops empty strings and starts from
    the strings [seen]. *)
Fixpoint first_seen (l : list jsstring) (seen : list jsstring) : list jsstring :=
  match l with
  | [] => []
  | v :: rest =>
      if bool_decide (v = []) || bool_decide (v ∈ seen)
      then first_seen rest seen
      else v :: first_seen rest (v :: seen)
  end.

(** The payloads the merge loop accepts, in the order of [results]. *)
Definition accepted (P : Platform) (results : list ExecutionResult.t) : list Payload.t :=
  flat_map (fun res =>
    match ExecutionResult.getReturnValue res with
    | Gives returned => match parseSafe_ P returned with
                        | Some payload => [payload]
                        | None => []
                        end
    | Missing | Raises => []
    end) results.

(** The per-account results that were returned and parsed: the truthy
    values that [JSON.parse] gives for the strings the workers returned, in
    the order of [results]. *)
Definition returned_and_parsed (P : Platform) (results : list ExecutionResult.t)
    : list Payload.t :=
  flat_map (fun res =>
    match ExecutionResult.getReturnValue res with
    | Gives (Some s) => match parse_result P s with
                        | Ok (Some payload) => [payload]
                        | Ok None | Thrown _ => []
                        end
    | Gives None | Missing | Raises => []
    end) results.

(** The count a per-account result reports for a category:
    [totals.<category>], or 0 when the result has no totals or no such
    count. *)
Definition reported (field : PayloadTotals.t -> option Z) (payload : Payload.t) : Z :=
  default 0 (Payload.totals payload ≫= field).

(** A worker outcome without a return value, or with one that does not
    parse, or parses to a falsy value. *)
Definition without_payload (P : Platform) (res : ExecutionResult.t) : Prop :=
  ExecutionResult.getReturnValue res = Missing
  \/ ExecutionResult.getReturnValue res = Gives None
  \/ exists s, ExecutionResult.getReturnValue res = Gives (Some s)
       /\ (parse_result P s = Ok None \/ exists e, parse_result P s = Thrown e).

(** The row the merge loop pushes for a payload. *)
Definition row_of (payload : Payload.t) : Row.t :=
  {| Row.account := Payload.account payload;
     Row.ads := or_empty (Payload.ads payload);
     Row.keywords := or_empty (Payload.keywords payload);
     Row.assets := or_empty (Payload.assets payload) |}.

Definition Zsum (l : list Z) : Z := fold_right Z.add 0 l.

(** The subject line in the words of the specification:
    [<prefix> — <label> — <FOUND|NONE> (Ads:n, KW:n, Assets:n)]. *)
Definition spec_subject (prefix label : jsstring) (a k s : Z) : jsstring :=
  prefix ++ js " " ++ em_dash ++ js " " ++ label ++ js " " ++ em_dash ++ js " "
  ++ (if decide (a + k + s > 0) then js "FOUND" else js "NONE")
  ++ js " (Ads:" ++ num_to_string a ++ js ", KW:" ++ num_to_string k
  ++ js ", Assets:" ++ num_to_string s ++ js ")".

(** The configured subject prefix, or the fallback when it is empty. *)
Definition subject_prefix (cfg : Config) : jsstring :=
  match SUBJECT_PREFIX cfg with
  | [] => js "Disapprovals"
  | prefix => prefix
  end.

(** The label of the report: the context's, or the placeholder. *)
Definition report_label (P : Platform) (contextStr : jsstring) : jsstring :=
  match Context.label (read_context P contextStr) with
  | Some (c :: l) => c :: l
  | _ => js "(Unlabeled Group)"
  end.

(** The subjects and the HTML bodies of the emails among some effects. *)
Definition subjects (es : list effect) : list jsstring :=
  flat_map (fun e => match e with SendEmail _ subject _ _ => [subject] | _ => [] end) es.

Definition html_bodies (es : list effect) : list jsstring :=
  flat_map (fun e => match e with
                     | SendEmail _ _ _ options => [MailOptions.htmlBody options]
                     | _ => []
                     end) es.

(** The world before anything happened. *)
Definition fresh : World := {| effects := []; clock_reads := 0 |}.

(** ** Sample inputs *)

Definition campaign_A : Named.t := {| Named.getName := Gives (VStr (js "Campaign A")) |}.
Definition group_A : Named.t := {| Named.getName := Gives (VStr (js "Group A")) |}.

(** A text ad of campaign A whose status accessor is [status]. *)
Definition sample_ad (status : call value) : Ad.t :=
  {| Ad.getPolicyApprovalStatus := status;
     Ad.policyTopics := Missing;
     Ad.getType := Gives (VStr (js "TEXT_AD"));
     Ad.getCampaign := Gives (Some campaign_A);
     Ad.getAdGroup := Gives (Some group_A) |}.

(** A keyword of campaign A whose status and text accessors are as given. *)
Definition sample_keyword (status text : call value) : Keyword.t :=
  {| Keyword.getApprovalStatus := status;
     Keyword.policyTopics := Missing;
     Keyword.getText := text;
     Keyword.getMatchType := Gives (VStr (js "EXACT"));
     Keyword.getCampaign := Gives (Some campaign_A);
     Keyword.getAdGroup := Gives (Some group_A) |}.

Definition sample_asset (status : call value) : Asset.t :=
  {| Asset.getPolicyApprovalStatus := status;
     Asset.policyTopics := Missing;
     Asset.getType := Gives (VStr (js "SITELINK"));
     Asset.getName := Gives (VStr (js "Contact us")) |}.

Definition sample_account (ads : feed Ad.t) (keywords : feed Keyword.t)
    (assets : feed Asset.t) : Account.t :=
  {| Account.getName := Gives (VStr (js "Client"));
     Account.getCustomerId := Gives (VStr (js "123-456-7890"));
     Account.ads := fun _ => Gives ads;
     Account.keywords := fun _ => Gives keywords;
     Account.assets := fun _ => Gives assets |}.

Definition sample_ad_record (status : value) : AdRecord.t :=
  {| AdRecord.type := VStr (js "TEXT_AD");
     AdRecord.campaign := VStr (js "Campaign A");
     AdRecord.adGroup := VStr (js "Group A");
     AdRecord.status := status;
     AdRecord.topics := []; AdRecord.reasons := [] |}.

Definition sample_keyword_record (status text : value) : KeywordRecord.t :=
  {| KeywordRecord.text := text;
     KeywordRecord.matchType := VStr (js "EXACT");
     KeywordRecord.campaign := VStr (js "Campaign A");
     KeywordRecord.adGroup := VStr (js "Group A");
     KeywordRecord.status := status;
     KeywordRecord.topics := []; KeywordRecord.reasons := [] |}.

(** An account with an ad whose status call throws, a keyword whose status
    is the lower-case string, and an asset without a status accessor. *)
Definition account_odd_statuses : Account.t :=
  sample_account
    (Yield (sample_ad Raises) Exhausted)
    (Yield (sample_keyword (Gives (VStr (js "approved"))) (Gives (VStr (js "shoes")))) Exhausted)
    (Yield (sample_asset Missing) Exhausted).

Definition out_odd_statuses : ScanResult.t :=
  {| ScanResult.account := js "Client (123-456-7890)";
     ScanResult.ads := [sample_ad_record VNull];
     ScanResult.keywords :=
       [sample_keyword_record (VStr (js "approved")) (VStr (js "shoes"))];
     ScanResult.assets := [];
     ScanResult.totals := {| Totals.ads := 1; Totals.keywords := 1; Totals.assets := 0 |} |}.

(** An account with a disapproved keyword whose [getText()] throws and an
    ad whose status is the platform's upper-case APPROVED. *)
Definition account_throwing_keyword : Account.t :=
  sample_account
    (Yield (sample_ad (Gives (VStr (js "APPROVED")))) Exhausted)
    (Yield (sample_keyword (Gives (VStr (js "DISAPPROVED"))) Raises) Exhausted)
    Exhausted.

(** An account whose ads iterator hands out one disapproved ad and then
    throws. *)
Definition account_broken_iterator : Account.t :=
  sample_account
    (Yield (sample_ad (Gives (VStr (js "DISAPPROVED")))) Broken)
    Exhausted
    Exhausted.

(** An account with an approved ad followed by an ad whose status call
    throws, a disapproved keyword, and an asset without status followed by
    a disapproved asset. *)
Definition account_mixed : Account.t :=
  sample_account
    (Yield (sample_ad (Gives (VStr (js "APPROVED")))) (Yield (sample_ad Raises) Exhausted))
    (Yield (sample_keyword (Gives (VStr (js "DISAPPROVED"))) (Gives (VStr (js "shoes"))))
       Exhausted)
    (Yield (sample_asset Missing)
       (Yield (sample_asset (Gives (VStr (js "DISAPPROVED")))) Exhausted)).

Definition out_mixed : ScanResult.t :=
  {| ScanResult.account := js "Client (123-456-7890)";
     ScanResult.ads := [sample_ad_record VNull];
     ScanResult.keywords :=
       [sample_keyword_record (VStr (js "DISAPPROVED")) (VStr (js "shoes"))];
     ScanResult.assets :=
       [ {| AssetRecord.assetType := VStr (js "SITELINK");
            AssetRecord.name := VStr (js "Contact us");
            AssetRecord.status := VStr (js "DISAPPROVED");
            AssetRecord.topics := []; AssetRecord.reasons := [] |} ];
     ScanResult.totals := {| Totals.ads := 1; Totals.keywords := 1; Totals.assets := 1 |} |}.


(** The account of the specification's end-to-end example: two disapproved
    ads (and an approved one), one disapproved keyword, no assets. *)
Definition account_example : Account.t :=
  sample_account
    (Yield (sample_ad (Gives (VStr (js "DISAPPROVED"))))
       (Yield (sample_ad (Gives (VStr (js "APPROVED"))))
          (Yield (sample_ad (Gives (VStr (js "DISAPPROVED")))) Exhausted)))
    (Yield (sample_keyword (Gives (VStr (js "DISAPPROVED"))) (Gives (VStr (js "shoes"))))
       Exhausted)
    Exhausted.

Definition out_example : ScanResult.t :=
  {| ScanResult.account := js "Client (123-456-7890)";
     ScanResult.ads := [ sample_ad_record (VStr (js "DISAPPROVED"));
                         sample_ad_record (VStr (js "DISAPPROVED")) ];
     ScanResult.keywords :=
       [sample_keyword_record (VStr (js "DISAPPROVED")) (VStr (js "shoes"))];
     ScanResult.assets := [];
     ScanResult.totals := {| Totals.ads := 2; Totals.keywords := 1; Totals.assets := 0 |} |}.

(** [JSON.stringify(out_example)]. *)
Definition text_example : jsstring :=
  jsq "{`account`:`Client (123-456-7890)`,`ads`:[{`type`:`TEXT_AD`,`campaign`:`Campaign A`,`adGroup`:`Group A`,`status`:`DISAPPROVED`,`topics`:[],`reasons`:[]},{`type`:`TEXT_AD`,`campaign`:`Campaign A`,`adGroup`:`Group A`,`status`:`DISAPPROVED`,`topics`:[],`reasons`:[]}],`keywords`:[{`text`:`shoes`,`matchType`:`EXACT`,`campaign`:`Campaign A`,`adGroup`:`Group A`,`status`:`DISAPPROVED`,`topics`:[],`reasons`:[]}],`assets`:[],`totals`:{`ads`:2,`keywords`:1,`assets`:0}}".

Definition ad_row_example : AdRow.t :=
  {| AdRow.type := VStr (js "TEXT_AD");
     AdRow.campaign := VStr (js "Campaign A");
     AdRow.adGroup := VStr (js "Group A");
     AdRow.status := VStr (js "DISAPPROVED");
     AdRow.topics := Some []; AdRow.reasons := Some [] |}.

(** [JSON.parse(text_example)]. *)
Definition payload_example : Payload.t :=
  {| Payload.account := VStr (js "Client (123-456-7890)");
     Payload.ads := Some [ad_row_example; ad_row_example];
     Payload.keywords :=
       Some [ {| KeywordRow.text := VStr (js "shoes");
                 KeywordRow.matchType := VStr (js "EXACT");
                 KeywordRow.campaign := VStr (js "Campaign A");
                 KeywordRow.adGroup := VStr (js "Group A");
                 KeywordRow.status := VStr (js "DISAPPROVED");
                 KeywordRow.topics := Some []; KeywordRow.reasons := Some [] |} ];
     Payload.assets := Some [];
     Payload.totals :=
       Some {| PayloadTotals.ads := Some 2; PayloadTotals.keywords := Some 1;
               PayloadTotals.assets := Some 0 |} |}.

(** The routing context of the shipped configuration's one group, and its
    JSON text. *)
Definition context_example : Context.t :=
  {| Context.label := Some (js "Managed by Sam");
     Context.to := Some (js "sam@example.com");
     Context.cc := Some [] |}.

Definition context_text_example : jsstring :=
  jsq "{`label`:`Managed by Sam`,`to`:`sam@example.com`,`cc`:``}".

(** A host for the examples.  Its JSON functions are defined on the texts
    of the examples: the two serializers are only ever applied to
    [out_example] and [context_example], and the parsers reject any other
    text.  The clock advances by a second at every reading, the one
    account labelled "Managed by Sam" is [account_example], and every
    email is accepted. *)
Definition host_example : Platform :=
  {| PREVIEW := false;
     toLocaleString := fun n => js "11/3/2026, 9:00:0" ++ num_to_string (Z.of_nat n) ++ js " AM";
     stringify_result := fun _ => text_example;
     parse_result := fun s =>
       if bool_decide (s = text_example) then Ok (Some payload_example)
       else if bool_decide (s = js "null") then Ok None
       else Thrown (Error (js "SyntaxError"));
     stringify_context := fun _ => context_text_example;
     parse_context := fun s =>
       if bool_decide (s = context_text_example) then Ok (Some context_example)
       else if bool_decide (s = js "{}")
       then Ok (Some {| Context.label := None; Context.to := None; Context.cc := None |})
       else Thrown (Error (js "SyntaxError"));
     accounts := fun condition =>
       if bool_decide (condition = js "LabelNames CONTAINS_ANY ['Managed by Sam']")
       then [account_example] else [];
     sendEmail := fun _ _ _ _ _ => Ok tt |}.

(** Three worker outcomes: a returned result, a failed worker (null), and
    an outcome without the accessor. *)
Definition results_example : list ExecutionResult.t :=
  [ {| ExecutionResult.getReturnValue := Gives (Some text_example) |};
    {| ExecutionResult.getReturnValue := Gives None |};
    {| ExecutionResult.getReturnValue := Missing |} ].

Definition merged_example : Merged.t :=
  {| Merged.label := js "Managed by Sam";
     Merged.rows := [row_of payload_example];
     Merged.totals := {| MergedTotals.ads := 2; MergedTotals.keywords := 1;
                         MergedTotals.assets := 0; MergedTotals.accounts := 1 |} |}.

(** The shipped configuration without a default recipient, and a group
    without [to]. *)
Definition config_no_default : Config :=
  {| DEFAULT_TO := [];
     FROM_NAME := FROM_NAME CONFIG;
     SUBJECT_PREFIX := SUBJECT_PREFIX CONFIG;
     LABEL_RECIPIENTS :=
       [ {| LabelGroup.label := Some (js "Unrouted"); LabelGroup.to := None;
            LabelGroup.cc := None |};
         {| LabelGroup.label := Some (js "Managed by Sam");
            LabelGroup.to := Some (js "sam@example.com");
            LabelGroup.cc := Some [] |} ];
     MAX_ROWS_PER_SECTION := MAX_ROWS_PER_SECTION CONFIG;
     INCLUDE_ZERO_ROW_SECTIONS := INCLUDE_ZERO_ROW_SECTIONS CONFIG;
     LOG_SUMMARY := LOG_SUMMARY CONFIG |}.

(** ** Vocabulary of the further properties *)

(** The candidates for a topic's display name, in the order tried. *)
Definition name_candidates (t : PolicyTopic.t) : list value :=
  [ safeCall_ (PolicyTopic.getTopic t); safeCall_ (PolicyTopic.getId t);
    PolicyTopic.topic t; PolicyTopic.id t ].

(** The display name of a topic: the first truthy candidate, or the
    sentinel. *)
Definition display_name (t : PolicyTopic.t) : value :=
  match List.find truthy (name_candidates t) with
  | Some v => v
  | None => VStr (js "Unspecified Policy Topic")
  end.

(** The evidence array read for a topic: what [getEvidences()] returns when
    the accessor is there and returns an array; the field [evidences] when
    the accessor is missing or returns null.  Nothing is read when
    [getEvidences()] throws. *)
Inductive evidences_read (t : PolicyTopic.t) : list (option Evidence.t) -> Prop :=
| evidences_from_accessor (evs : list (option Evidence.t)) :
    PolicyTopic.getEvidences t = Gives (Some evs) -> evidences_read t evs
| evidences_from_field (evs : list (option Evidence.t)) :
    PolicyTopic.getEvidences t = Missing \/ PolicyTopic.getEvidences t = Gives None ->
    PolicyTopic.evidences t = Some evs -> evidences_read t evs.

(** The text of an evidence: its field [text] when that is truthy, else what
    [getText()] returns when the accessor is there and does not throw. *)
Inductive evidence_text (ev : Evidence.t) : value -> Prop :=
| text_from_field :
    truthy (Evidence.text ev) = true -> evidence_text ev (Evidence.text ev)
| text_from_accessor (v : value) :
    truthy (Evidence.text ev) = false -> Evidence.getText ev = Gives v ->
    evidence_text ev v.

(** The elements of an array before its first null. *)
Fixpoint leading {A} (xs : list (option A)) : list A :=
  match xs with
  | Some x :: rest => x :: leading rest
  | _ => []
  end.

(** The topics [extractPolicyInfo_] reads from an entity. *)
Definition topics_read {E} `{PolicyEntity E} (entity : E) : list PolicyTopic.t :=
  match getPolicyTopics entity with
  | Gives (Some topics) => leading topics
  | Missing | Raises | Gives None => []
  end.

(** The fan-outs started and the emails sent (recipient and cc) among some
    effects. *)
Definition fanouts (es : list effect) : list (jsstring * jsstring) :=
  flat_map (fun e => match e with
                     | ExecuteInParallel condition ctx => [(condition, ctx)]
                     | _ => []
                     end) es.

Definition deliveries (es : list effect) : list (jsstring * option jsstring) :=
  flat_map (fun e => match e with
                     | SendEmail recipient _ _ options => [(recipient, MailOptions.cc options)]
                     | _ => []
                     end) es.

(** A group's recipient as [processGroup] resolves it, its label, the
    selection condition and the routing context built from them. *)
Definition group_recipient (cfg : Config) (group : LabelGroup.t) : jsstring :=
  match LabelGroup.to group with
  | Some (c :: s) => trim (c :: s)
  | _ => DEFAULT_TO cfg
  end.

Definition group_label (group : LabelGroup.t) : jsstring :=
  match LabelGroup.label group with
  | Some (c :: l) => c :: l
  | _ => js "(Unnamed Label)"
  end.

Definition group_cc (group : LabelGroup.t) : jsstring :=
  match LabelGroup.cc group with
  | Some (c :: s) => trim (c :: s)
  | _ => []
  end.

Definition group_condition (group : LabelGroup.t) : jsstring :=
  js "LabelNames CONTAINS_ANY ['" ++ replace_all 39 (js "\'") (group_label group) ++ js "']".

Definition group_context (cfg : Config) (group : LabelGroup.t) : Context.t :=
  {| Context.label := Some (group_label group);
     Context.to := Some (group_recipient cfg group);
     Context.cc := Some (group_cc group) |}.

(** Whether [processGroup] skips a group: its [to] is white space only, or
    it has none while no default recipient is configured. *)
Definition group_skipped (cfg : Config) (group : LabelGroup.t) : bool :=
  match LabelGroup.to group with
  | Some (c :: s) => forallb is_space (c :: s)
  | _ => bool_decide (DEFAULT_TO cfg = [])
  end.

(** A world with more effects. *)
Definition after (w : World) (es : list effect) : World :=
  {| effects := effects w ++ es; clock_reads := clock_reads w |}.

(** The host's JSON functions take the routing context [c] to a non-empty
    text and back. *)
Definition context_round_trip (P : Platform) (c : Context.t) : Prop :=
  stringify_context P c <> []
  /\ parse_context P (stringify_context P c) = Ok (Some c).

(** A table row whose cells hold the fields [fields], each passed through
    [escHtml_]. *)
Definition escaped_row (fields : list value) : jsstring :=
  jsq "<tr style=`border-top:1px solid #eee;`>"
  ++ concat (List.map (fun v =>
       jsq "<td style=`vertical-align:top;border-top:1px solid #eee;`>"
       ++ escHtml_ v ++ js "</td>") fields)
  ++ js "</tr>".

(** The number of '<' (and of '>') in the markup of a category's sub-section
    with [rows] rows of [cells] cells, under a head with [thead] of them. *)
Definition section_tags (include_empty : bool) (thead cells rows : nat) : nat :=
  match rows with
  | O => if include_empty then 6 else 0
  | _ => 8 + thead + rows * (2 + 2 * cells)
  end%nat.

Definition account_tags (include_empty : bool) (row : Row.t) : nat :=
  (2 + section_tags include_empty 16 6 (length (Row.ads row))
   + section_tags include_empty 18 7 (length (Row.keywords row))
   + section_tags include_empty 14 5 (length (Row.assets row)))%nat.

Definition report_tags (include_empty : bool) (rows : list Row.t) : nat :=
  (13 + match rows with
        | [] => 4
        | _ => list_sum (List.map (account_tags include_empty) rows)
        end)%nat.

(** A tag: '<', then one or more characters other than '>', then '>'. *)
Definition is_tag (t : jsstring) : Prop :=
  exists d inside, t = 60%N :: d :: inside ++ [62%N] /\ ~ In 62%N (d :: inside).

(** No white space but single spaces, none after [after_space]. *)
Fixpoint single_spaced (after_space : bool) (s : jsstring) : bool :=
  match s with
  | [] => true
  | c :: r =>
      if is_space c
      then negb after_space && N.eqb c 32 && single_spaced true r
      else single_spaced false r
  end.

(** A category's scan runs to its end: the selector returns an iterator
    that ends without throwing, and no loop body throws. *)
Definition runs_through {A R} (selector : call (feed A)) (step : A -> result (option R))
    : Prop :=
  exists f, selector = Gives f /\ intact f = true
            /\ forall a, In a (yielded f) -> exists o, step a = Ok o.

(** The entities a selector's iterator hands out. *)
Definition handed_out {A} (selector : call (feed A)) : list A :=
  match selector with
  | Gives f => yielded f
  | Missing | Raises => []
  end.

(** What the aggregator reads back from a worker's serialized result. *)
Definition ad_row_of (r : AdRecord.t) : AdRow.t :=
  {| AdRow.type := AdRecord.type r; AdRow.campaign := AdRecord.campaign r;
     AdRow.adGroup := AdRecord.adGroup r; AdRow.status := AdRecord.status r;
     AdRow.topics := Some (AdRecord.topics r); AdRow.reasons := Some (AdRecord.reasons r) |}.

Definition keyword_row_of (r : KeywordRecord.t) : KeywordRow.t :=
  {| KeywordRow.text := KeywordRecord.text r; KeywordRow.matchType := KeywordRecord.matchType r;
     KeywordRow.campaign := KeywordRecord.campaign r;
     KeywordRow.adGroup := KeywordRecord.adGroup r; KeywordRow.status := KeywordRecord.status r;
     KeywordRow.topics := Some (KeywordRecord.topics r);
     KeywordRow.reasons := Some (KeywordRecord.reasons r) |}.

Definition asset_row_of (r : AssetRecord.t) : AssetRow.t :=
  {| AssetRow.assetType := AssetRecord.assetType r; AssetRow.name := AssetRecord.name r;
     AssetRow.status := AssetRecord.status r;
     AssetRow.topics := Some (AssetRecord.topics r);
     AssetRow.reasons := Some (AssetRecord.reasons r) |}.

Definition payload_of (out : ScanResult.t) : Payload.t :=
  {| Payload.account := VStr (ScanResult.account out);
     Payload.ads := Some (List.map ad_row_of (ScanResult.ads out));
     Payload.keywords := Some (List.map keyword_row_of (ScanResult.keywords out));
     Payload.assets := Some (List.map asset_row_of (ScanResult.assets out));
     Payload.totals :=
       Some {| PayloadTotals.ads := Some (Totals.ads (ScanResult.totals out));
               PayloadTotals.keywords := Some (Totals.keywords (ScanResult.totals out));
               PayloadTotals.assets := Some (Totals.assets (ScanResult.totals out)) |} |}.

(** The results of the workers that returned, in the order of the accounts. *)
Definition returned (cfg : Config) (accts : list Account.t) : list ScanResult.t :=
  flat_map (fun acct => match getStats_out cfg acct with
                        | Ok (out, _) => [out]
                        | Thrown _ => []
                        end) accts.

(** Every apostrophe follows a backslash. *)
Fixpoint quotes_escaped (after_backslash : bool) (s : jsstring) : bool :=
  match s with
  | [] => true
  | c :: r => (negb (N.eqb c 39) || after_backslash) && quotes_escaped (N.eqb c 92) r
  end.

(** What [escHtml_] writes for one character. *)
Definition esc_char (c : N) : jsstring :=
  if N.eqb c 38 then js "&amp;"
  else if N.eqb c 60 then js "&lt;"
  else if N.eqb c 62 then js "&gt;"
  else [c].

(** Whether [s] starts with [p], and what follows [p] then. *)
Fixpoint after_prefix (p s : jsstring) : option jsstring :=
  match p, s with
  | [], _ => Some s
  | a :: p', b :: s' => if N.eqb a b then after_prefix p' s' else None
  | _ :: _, [] => None
  end.

(** Reading [&amp;], [&lt;] and [&gt;] back, from the right. *)
Definition unescape_step (c : N) (decoded : jsstring) : jsstring :=
  if N.eqb c 38 then
    match after_prefix (js "amp;") decoded, after_prefix (js "lt;") decoded,
          after_prefix (js "gt;") decoded with
    | Some r, _, _ => 38%N :: r
    | None, Some r, _ => 60%N :: r
    | None, None, Some r => 62%N :: r
    | None, None, None => c :: decoded
    end
  else c :: decoded.

Definition unescape (s : jsstring) : jsstring := fold_right unescape_step [] s.

(** ** Further sample inputs *)

(** The one group of the shipped configuration, and a group without [to]. *)
Definition group_sam : LabelGroup.t :=
  {| LabelGroup.label := Some (js "Managed by Sam");
     LabelGroup.to := Some (js "sam@example.com");
     LabelGroup.cc := Some [] |}.

Definition group_unrouted : LabelGroup.t :=
  {| LabelGroup.label := Some (js "Unrouted"); LabelGroup.to := None;
     LabelGroup.cc := None |}.

(** Two policy topics.  The first is named by [getTopic()] and has four
    evidences: one with the field [text], a null entry, one read through
    [getText()] that repeats the first, and one whose [getText()] throws.
    The second is named by its raw field [id], since [getTopic()] throws
    and [getId()] returns the empty string, and keeps its one evidence in the
    field [evidences]. *)
Definition topic_trademarks : PolicyTopic.t :=
  {| PolicyTopic.getTopic := Gives (VStr (js " Trademarks "));
     PolicyTopic.getId := Missing;
     PolicyTopic.topic := VUndefined;
     PolicyTopic.id := VUndefined;
     PolicyTopic.getEvidences :=
       Gives (Some [ Some {| Evidence.text := VStr (js "brand term");
                             Evidence.getText := Missing |};
                     None;
                     Some {| Evidence.text := VUndefined;
                             Evidence.getText := Gives (VStr (js "brand term ")) |};
                     Some {| Evidence.text := VUndefined; Evidence.getText := Raises |} ]);
     PolicyTopic.evidences := None |}.

Definition topic_misleading : PolicyTopic.t :=
  {| PolicyTopic.getTopic := Raises;
     PolicyTopic.getId := Gives (VStr []);
     PolicyTopic.topic := VUndefined;
     PolicyTopic.id := VStr (js "MISLEADING");
     PolicyTopic.getEvidences := Missing;
     PolicyTopic.evidences :=
       Some [ Some {| Evidence.text := VStr (js "unproven claim");
                      Evidence.getText := Missing |} ] |}.

(** A disapproved ad with the two topics, a null entry and a topic after
    it. *)
Definition ad_with_topics : Ad.t :=
  {| Ad.getPolicyApprovalStatus := Gives (VStr (js "DISAPPROVED"));
     Ad.policyTopics :=
       Gives (Some [Some topic_trademarks; Some topic_misleading; None;
                    Some topic_trademarks]);
     Ad.getType := Gives (VStr (js "TEXT_AD"));
     Ad.getCampaign := Gives (Some campaign_A);
     Ad.getAdGroup := Gives (Some group_A) |}.

(** A group whose label holds an apostrophe. *)
Definition group_quoted : LabelGroup.t :=
  {| LabelGroup.label := Some (js "Sam's accounts");
     LabelGroup.to := Some (js "sam@example.com");
     LabelGroup.cc := None |}.

(** The example host with a mail service that rejects every email. *)
Definition host_mail_down : Platform :=
  {| PREVIEW := false;
     toLocaleString := toLocaleString host_example;
     stringify_result := stringify_result host_example;
     parse_result := parse_result host_example;
     stringify_context := stringify_context host_example;
     parse_context := parse_context host_example;
     accounts := accounts host_example;
     sendEmail := fun _ _ _ _ _ => Thrown HostError |}.

(** The example host in preview mode. *)
Definition host_preview : Platform :=
  {| PREVIEW := true;
     toLocaleString := toLocaleString host_example;
     stringify_result := stringify_result host_example;
     parse_result := parse_result host_example;
     stringify_context := stringify_context host_example;
     parse_context := parse_context host_example;
     accounts := accounts host_example;
     sendEmail := sendEmail host_example |}.

(** The shipped configuration with a default recipient of two spaces, and
    the group without [to] first. *)
Definition config_blank_default : Config :=
  {| DEFAULT_TO := js "  ";
     FROM_NAME := FROM_NAME CONFIG;
     SUBJECT_PREFIX := SUBJECT_PREFIX CONFIG;
     LABEL_RECIPIENTS := [group_unrouted; group_sam];
     MAX_ROWS_PER_SECTION := MAX_ROWS_PER_SECTION CONFIG;
     INCLUDE_ZERO_ROW_SECTIONS := INCLUDE_ZERO_ROW_SECTIONS CONFIG;
     LOG_SUMMARY := LOG_SUMMARY CONFIG |}.

(** The example host with JSON functions for the context of
    [group_unrouted] under [config_blank_default]. *)
Definition host_blank : Platform :=
  {| PREVIEW := false;
     toLocaleString := toLocaleString host_example;
     stringify_result := stringify_result host_example;
     parse_result := parse_result host_example;
     stringify_context := fun _ => jsq "{`label`:`Unrouted`,`to`:`  `,`cc`:``}";
     parse_context := fun s =>
       if bool_decide (s = jsq "{`label`:`Unrouted`,`to`:`  `,`cc`:``}")
       then Ok (Some {| Context.label := Some (js "Unrouted");
                        Context.to := Some (js "  ");
                        Context.cc := Some [] |})
       else Thrown (Error (js "SyntaxError"));
     accounts := fun _ => [];
     sendEmail := fun _ _ _ _ _ => Ok tt |}.

(** * Properties *)

(** ** PolicyInfoExtractor *)

(** [seen[v] = true] adds [v] to the strings that read as seen. *)
Lemma seen_has_insert (seen : gmap jsstring bool) (l : list jsstring) (v : jsstring) :
  (forall u, seen_has seen u = bool_decide (u ∈ l)) ->
  forall u, seen_has (<[v := true]> seen) u = bool_decide (u ∈ v :: l).
Proof.
  intros H u. unfold seen_has. destruct (decide (v = u)) as [->|Hne].
  - rewrite lookup_insert_eq. symmetry. apply bool_decide_eq_true_2. left.
  - rewrite lookup_insert_ne by assumption. fold (seen_has seen u). rewrite H.
    apply bool_decide_ext. rewrite elem_of_cons. intuition congruence.
Qed.

(** The loop, started on an object that reads as the strings [l]. *)
Lemma normalize_loop_first_seen (arr : list value) :
  forall (seen : gmap jsstring bool) (out l : list jsstring),
    (forall u, seen_has seen u = bool_decide (u ∈ l)) ->
    normalize_loop arr seen out = out ++ first_seen (List.map normalized arr) l.
Proof.
  induction arr as [|x arr IH]; intros seen out l H; simpl.
  - now rewrite app_nil_r.
  - fold (normalized x). rewrite H.
    destruct (normalized x) as [|c v] eqn:Hv; simpl.
    + now apply IH.
    + destruct (bool_decide (c :: v ∈ l)); simpl.
      * now apply IH.
      * rewrite (IH _ _ ((c :: v) :: l)) by now apply seen_has_insert.
        now rewrite <- app_assoc.
Qed.

(** [normalizeReasons_] is order-preserving deduplication of the trimmed,
    non-empty strings, except that it starts with the names of
    [Object.prototype] counted as already seen. *)
Lemma normalizeReasons_first_seen (arr : list value) :
  normalizeReasons_ arr = first_seen (List.map normalized arr) Object_prototype_keys.
Proof.
  unfold normalizeReasons_. rewrite (normalize_loop_first_seen arr ∅ [] Object_prototype_keys).
  - reflexivity.
  - intros u. unfold seen_has. now rewrite lookup_empty.
Qed.

(** C5, at the failing input: a reason that is the name of a member of
    [Object.prototype] is dropped, although it is neither empty nor a
    duplicate; the strings around it are kept. *)
Theorem normalizeReasons_drops_prototype_names :
  normalizeReasons_ [VStr (js "constructor")] = []
  /\ normalizeReasons_ [VStr (js "A"); VStr (js "toString"); VStr (js "B")]
     = [js "A"; js "B"].
Proof. split; vm_compute; reflexivity. Qed.

(** The example of the specification: duplicates go, the first occurrence
    stays, in order. *)
Example normalizeReasons_A_A_B :
  normalizeReasons_ [VStr (js "A"); VStr (js "A"); VStr (js "B")] = [js "A"; js "B"].
Proof. vm_compute. reflexivity. Qed.

Example normalizeReasons_trims_and_drops_empty :
  normalizeReasons_ [VStr (js "  Trademarks "); VNull; VStr (js "   "); VStr (js "Trademarks")]
  = [js "Trademarks"].
Proof. vm_compute. reflexivity. Qed.

(** ** AccountScanner *)

(** The list after a loop: the rows of the entities whose body ran to its
    end, appended to what was there. *)
Lemma drain_rows {A R} (step : A -> result (option R)) (f : feed A) (acc : list R) :
  fst (drain step f acc) = acc ++ pushed step (processed step f).
Proof.
  revert acc. induction f as [| | a rest IH]; intros acc; simpl.
  - now rewrite app_nil_r.
  - now rewrite app_nil_r.
  - destruct (step a) as [[r|]|e] eqn:Hs; simpl.
    + rewrite IH, Hs. simpl. now rewrite <- app_assoc.
    + rewrite IH, Hs. reflexivity.
    + now rewrite app_nil_r.
Qed.

Lemma scan_rows {A R} (sel : call (feed A)) (step : A -> result (option R)) :
  fst (scan sel step) = pushed step (scanned sel step).
Proof.
  destruct sel as [| |f]; simpl; try reflexivity. apply (drain_rows step f []).
Qed.

(** No loop body threw on a scanned entity. *)
Lemma processed_ok {A R} (step : A -> result (option R)) (f : feed A) (a : A) :
  In a (processed step f) -> exists o, step a = Ok o.
Proof.
  induction f as [| | b rest IH]; simpl; try tauto.
  destruct (step b) as [o|e] eqn:Hs; simpl; [|tauto].
  intros [<-|Hin]; eauto.
Qed.

Lemma scanned_ok {A R} (sel : call (feed A)) (step : A -> result (option R)) (a : A) :
  In a (scanned sel step) -> exists o, step a = Ok o.
Proof. destruct sel; simpl; try tauto. apply processed_ok. Qed.

(** A loop completes exactly when its iterator ends without throwing and no
    loop body throws. *)
Lemma drain_completed {A R} (step : A -> result (option R)) (f : feed A) (acc : list R) :
  snd (drain step f acc) = Completed <->
  intact f = true /\ forall a, In a (yielded f) -> exists o, step a = Ok o.
Proof.
  revert acc. induction f as [| | b rest IH]; intros acc; simpl.
  - split; [intros _; split; [reflexivity | tauto] | reflexivity].
  - split; [discriminate | intros [[=] _]].
  - destruct (step b) as [[r|]|e] eqn:Hs; simpl.
    + rewrite IH. split; intros [Hi Hy]; (split; [assumption|]).
      * intros a [<-|Ha]; eauto.
      * intros a Ha. apply Hy. now right.
    + rewrite IH. split; intros [Hi Hy]; (split; [assumption|]).
      * intros a [<-|Ha]; eauto.
      * intros a Ha. apply Hy. now right.
    + split; [discriminate|]. intros [_ Hy].
      destruct (Hy b (or_introl eq_refl)) as [o Ho]. congruence.
Qed.

(** When no loop body throws, every entity the iterator hands out is
    scanned. *)
Lemma processed_all {A R} (step : A -> result (option R)) (f : feed A) :
  (forall a, In a (yielded f) -> exists o, step a = Ok o) ->
  processed step f = yielded f.
Proof.
  induction f as [| | b rest IH]; simpl; intros H; try reflexivity.
  destruct (H b (or_introl eq_refl)) as [o ->]. f_equal. apply IH. intros a Ha. apply H. now right.
Qed.

(** A row is pushed for the entities [l] exactly when the loop body of one
    of them pushes it. *)
Lemma in_pushed {A R} (step : A -> result (option R)) (l : list A) (r : R) :
  In r (pushed step l) <-> exists a, In a l /\ step a = Ok (Some r).
Proof.
  unfold pushed. rewrite in_flat_map. split.
  - intros (a & Ha & Hr). exists a. split; [assumption|].
    destruct (step a) as [[r'|]|e]; simpl in Hr; try tauto. destruct Hr as [->|[]]. reflexivity.
  - intros (a & Ha & Hs). exists a. split; [assumption|]. rewrite Hs. now left.
Qed.

(** When the body of each loop pushes a record. *)
Lemma ad_step_Some (ad : Ad.t) (r : AdRecord.t) :
  ad_step ad = Ok (Some r) <->
  js_String (safeCall_ (Ad.getPolicyApprovalStatus ad)) <> js "APPROVED" /\ ad_record ad = Ok r.
Proof.
  unfold ad_step. case_bool_decide as Hst.
  - split; [discriminate | tauto].
  - destruct (ad_record ad) as [r'|e]; simpl; split.
    + intros [= ->]. tauto.
    + intros [_ [= ->]]. reflexivity.
    + discriminate.
    + intros [_ [=]].
Qed.

Lemma keyword_step_Some (kw : Keyword.t) (r : KeywordRecord.t) :
  keyword_step kw = Ok (Some r) <->
  js_String (safeCall_ (Keyword.getApprovalStatus kw)) <> js "APPROVED" /\ keyword_record kw = Ok r.
Proof.
  unfold keyword_step. case_bool_decide as Hst.
  - split; [discriminate | tauto].
  - destruct (keyword_record kw) as [r'|e]; simpl; split.
    + intros [= ->]. tauto.
    + intros [_ [= ->]]. reflexivity.
    + discriminate.
    + intros [_ [=]].
Qed.

Lemma asset_step_Some (a : Asset.t) (r : AssetRecord.t) :
  asset_step a = Ok (Some r) <->
  truthy (safeCall_ (Asset.getPolicyApprovalStatus a)) = true /\
  js_String (safeCall_ (Asset.getPolicyApprovalStatus a)) <> js "APPROVED" /\
  asset_record a = r.
Proof.
  unfold asset_step.
  destruct (truthy (safeCall_ (Asset.getPolicyApprovalStatus a))); simpl.
  - case_bool_decide as Hst; split.
    + discriminate.
    + tauto.
    + intros [= <-]. tauto.
    + intros (_ & _ & <-). reflexivity.
  - split; [discriminate | intros ([=] & _)].
Qed.

(** The rows pushed for entities on which no loop body throws: the records
    of those that pass the filter, in order. *)
Lemma pushed_ads (l : list Ad.t) :
  (forall ad, In ad l -> exists o, ad_step ad = Ok o) ->
  List.map Ok (pushed ad_step l) = List.map ad_record (List.filter ad_passes l).
Proof.
  induction l as [|ad l IH]; intros H; [reflexivity|].
  simpl. rewrite List.map_app, IH by (intros; apply H; now right).
  destruct (H ad (or_introl eq_refl)) as [o Ho]. rewrite Ho.
  unfold ad_step, ad_passes, not_approved in *. case_bool_decide; simpl.
  - injection Ho as <-. reflexivity.
  - destruct (ad_record ad) as [r|e]; simpl in Ho; [|discriminate].
    injection Ho as <-. reflexivity.
Qed.

Lemma pushed_keywords (l : list Keyword.t) :
  (forall kw, In kw l -> exists o, keyword_step kw = Ok o) ->
  List.map Ok (pushed keyword_step l) = List.map keyword_record (List.filter keyword_passes l).
Proof.
  induction l as [|kw l IH]; intros H; [reflexivity|].
  simpl. rewrite List.map_app, IH by (intros; apply H; now right).
  destruct (H kw (or_introl eq_refl)) as [o Ho]. rewrite Ho.
  unfold keyword_step, keyword_passes, not_approved in *. case_bool_decide; simpl.
  - injection Ho as <-. reflexivity.
  - destruct (keyword_record kw) as [r|e]; simpl in Ho; [|discriminate].
    injection Ho as <-. reflexivity.
Qed.

Lemma pushed_assets (l : list Asset.t) :
  pushed asset_step l = List.map asset_record (List.filter asset_passes l).
Proof.
  induction l as [|a l IH]; [reflexivity|].
  simpl. rewrite IH. unfold asset_step, asset_passes, not_approved.
  destruct (truthy _); simpl; [|reflexivity].
  case_bool_decide; reflexivity.
Qed.

(** The three lists of a returned result. *)
Lemma getStats_out_lists (cfg : Config) (acct : Account.t) (out : ScanResult.t)
    (logs : list effect) :
  getStats_out cfg acct = Ok (out, logs) ->
  ScanResult.ads out
    = pushed ad_step (scanned (Account.ads acct (MAX_ROWS_PER_SECTION cfg)) ad_step)
  /\ ScanResult.keywords out
    = pushed keyword_step (scanned (Account.keywords acct (MAX_ROWS_PER_SECTION cfg)) keyword_step)
  /\ ScanResult.assets out
    = pushed asset_step (scanned (Account.assets acct (MAX_ROWS_PER_SECTION cfg)) asset_step).
Proof.
  unfold getStats_out. intros H.
  destruct (invoke (Account.getName acct)) as [nm|e]; [|discriminate].
  destruct (invoke (Account.getCustomerId acct)) as [cid|e]; [|discriminate].
  simpl in H. injection H as <- _. simpl. now rewrite !scan_rows.
Qed.

(** C1, as the code has it: in every result the worker returns, each list
    holds exactly the records of the scanned entities that pass the filter.
    An ad or a keyword passes when [String(status)] is not the upper-case
    string APPROVED, where a failed or missing status call reads as null (so
    such an ad or keyword is listed); an asset passes when its status is
    truthy and [String(status)] is not APPROVED (so an asset without status
    is skipped).  The scanned entities are those whose loop body ran to its
    end. *)
Theorem getStats_lists_exactly_the_non_approved (cfg : Config) (acct : Account.t)
    (out : ScanResult.t) (logs : list effect) :
  getStats_out cfg acct = Ok (out, logs) ->
  (forall r, In r (ScanResult.ads out) <->
     exists ad, In ad (scanned (Account.ads acct (MAX_ROWS_PER_SECTION cfg)) ad_step)
       /\ js_String (safeCall_ (Ad.getPolicyApprovalStatus ad)) <> js "APPROVED"
       /\ ad_record ad = Ok r)
  /\ (forall r, In r (ScanResult.keywords out) <->
     exists kw, In kw (scanned (Account.keywords acct (MAX_ROWS_PER_SECTION cfg)) keyword_step)
       /\ js_String (safeCall_ (Keyword.getApprovalStatus kw)) <> js "APPROVED"
       /\ keyword_record kw = Ok r)
  /\ (forall r, In r (ScanResult.assets out) <->
     exists a, In a (scanned (Account.assets acct (MAX_ROWS_PER_SECTION cfg)) asset_step)
       /\ truthy (safeCall_ (Asset.getPolicyApprovalStatus a)) = true
       /\ js_String (safeCall_ (Asset.getPolicyApprovalStatus a)) <> js "APPROVED"
       /\ asset_record a = r).
Proof.
  unfold getStats_out. intros H.
  destruct (invoke (Account.getName acct)) as [nm|e]; [|discriminate].
  destruct (invoke (Account.getCustomerId acct)) as [cid|e]; [|discriminate].
  simpl in H. injection H as <- _. simpl.
  rewrite !scan_rows. repeat split.
  - intros Hr. apply in_pushed in Hr as (ad & Hin & Hs). apply ad_step_Some in Hs. eauto.
  - intros (ad & Hin & Hs). apply in_pushed. exists ad. split; [assumption|]. now apply ad_step_Some.
  - intros Hr. apply in_pushed in Hr as (ad & Hin & Hs). apply keyword_step_Some in Hs. eauto.
  - intros (ad & Hin & Hs). apply in_pushed. exists ad. split; [assumption|]. now apply keyword_step_Some.
  - intros Hr. apply in_pushed in Hr as (ad & Hin & Hs). apply asset_step_Some in Hs. eauto.
  - intros (ad & Hin & Hs). apply in_pushed. exists ad. split; [assumption|]. now apply asset_step_Some.
Qed.

(** Witness of C1: the theorem at [account_odd_statuses]. *)
Lemma getStats_lists_exactly_the_non_approved_witness :
  getStats_out CONFIG account_odd_statuses = Ok (out_odd_statuses, [])
  /\ ((forall r, In r (ScanResult.ads out_odd_statuses) <->
        exists ad, In ad (scanned (Account.ads account_odd_statuses
                                     (MAX_ROWS_PER_SECTION CONFIG)) ad_step)
          /\ js_String (safeCall_ (Ad.getPolicyApprovalStatus ad)) <> js "APPROVED"
          /\ ad_record ad = Ok r)
      /\ (forall r, In r (ScanResult.keywords out_odd_statuses) <->
        exists kw, In kw (scanned (Account.keywords account_odd_statuses
                                     (MAX_ROWS_PER_SECTION CONFIG)) keyword_step)
          /\ js_String (safeCall_ (Keyword.getApprovalStatus kw)) <> js "APPROVED"
          /\ keyword_record kw = Ok r)
      /\ (forall r, In r (ScanResult.assets out_odd_statuses) <->
        exists a, In a (scanned (Account.assets account_odd_statuses
                                   (MAX_ROWS_PER_SECTION CONFIG)) asset_step)
          /\ truthy (safeCall_ (Asset.getPolicyApprovalStatus a)) = true
          /\ js_String (safeCall_ (Asset.getPolicyApprovalStatus a)) <> js "APPROVED"
          /\ asset_record a = r)).
Proof.
  split; [reflexivity|].
  apply (getStats_lists_exactly_the_non_approved CONFIG account_odd_statuses
           out_odd_statuses []).
  reflexivity.
Defined.

(** Counterexample to C1 as stated: the ad whose status call throws is
    listed (with status null), the keyword whose status is the lower-case
    string "approved" is listed, and the asset without status is not. *)
Lemma getStats_lists_failed_status_ad_and_skips_statusless_asset :
  getStats_out CONFIG account_odd_statuses = Ok (out_odd_statuses, [])
  /\ List.map AdRecord.status (ScanResult.ads out_odd_statuses) = [VNull]
  /\ List.map KeywordRecord.status (ScanResult.keywords out_odd_statuses)
     = [VStr (js "approved")]
  /\ ScanResult.assets out_odd_statuses = [].
Proof. repeat split. Qed.

(** C2, as the code has it: a scanned ad or keyword whose
    [String(status)] is not APPROVED (a failed status read gives null, hence
    "null") has a record, and the list is the records of the passing
    entities scanned before it, then that one record, then the records of
    the passing entities scanned after it; a scanned asset with a falsy
    status leaves the assets list as it is without that asset. *)
Theorem getStats_lists_each_passing_entity_once (cfg : Config) (acct : Account.t)
    (out : ScanResult.t) (logs : list effect) :
  getStats_out cfg acct = Ok (out, logs) ->
  (forall before ad after,
     scanned (Account.ads acct (MAX_ROWS_PER_SECTION cfg)) ad_step = before ++ ad :: after ->
     js_String (safeCall_ (Ad.getPolicyApprovalStatus ad)) <> js "APPROVED" ->
     exists r, ad_record ad = Ok r
       /\ List.map Ok (ScanResult.ads out)
          = List.map ad_record (List.filter ad_passes before)
            ++ Ok r :: List.map ad_record (List.filter ad_passes after))
  /\ (forall before kw after,
     scanned (Account.keywords acct (MAX_ROWS_PER_SECTION cfg)) keyword_step
       = before ++ kw :: after ->
     js_String (safeCall_ (Keyword.getApprovalStatus kw)) <> js "APPROVED" ->
     exists r, keyword_record kw = Ok r
       /\ List.map Ok (ScanResult.keywords out)
          = List.map keyword_record (List.filter keyword_passes before)
            ++ Ok r :: List.map keyword_record (List.filter keyword_passes after))
  /\ (forall before a after,
     scanned (Account.assets acct (MAX_ROWS_PER_SECTION cfg)) asset_step
       = before ++ a :: after ->
     truthy (safeCall_ (Asset.getPolicyApprovalStatus a)) = false ->
     ScanResult.assets out
       = List.map asset_record (List.filter asset_passes (before ++ after))).
Proof.
  intros H. apply getStats_out_lists in H as (Ha & Hk & Hs). repeat split.
  - intros before ad after Hsc Hst.
    assert (Hok : forall x, In x (before ++ ad :: after) -> exists o, ad_step x = Ok o)
      by (intros x Hx; rewrite <- Hsc in Hx; eapply scanned_ok; eassumption).
    assert (Hp : ad_passes ad = true)
      by (unfold ad_passes, not_approved; now rewrite bool_decide_eq_false_2).
    destruct (Hok ad) as [o Ho]; [apply in_elt|].
    unfold ad_step in Ho. rewrite bool_decide_eq_false_2 in Ho by assumption.
    destruct (ad_record ad) as [r|e] eqn:Hr; [|discriminate].
    exists r. split; [reflexivity|].
    rewrite Ha, Hsc, pushed_ads by assumption.
    rewrite List.filter_app, List.map_app. simpl. now rewrite Hp, <- Hr.
  - intros before kw after Hsc Hst.
    assert (Hok : forall x, In x (before ++ kw :: after) -> exists o, keyword_step x = Ok o)
      by (intros x Hx; rewrite <- Hsc in Hx; eapply scanned_ok; eassumption).
    assert (Hp : keyword_passes kw = true)
      by (unfold keyword_passes, not_approved; now rewrite bool_decide_eq_false_2).
    destruct (Hok kw) as [o Ho]; [apply in_elt|].
    unfold keyword_step in Ho. rewrite bool_decide_eq_false_2 in Ho by assumption.
    destruct (keyword_record kw) as [r|e] eqn:Hr; [|discriminate].
    exists r. split; [reflexivity|].
    rewrite Hk, Hsc, pushed_keywords by assumption.
    rewrite List.filter_app, List.map_app. simpl. now rewrite Hp, <- Hr.
  - intros before a after Hsc Hst.
    rewrite Hs, Hsc, pushed_assets, !List.filter_app. simpl.
    unfold asset_passes at 2. now rewrite Hst.
Qed.

(** Witness of C2: the theorem at [account_mixed]. *)
Lemma getStats_lists_each_passing_entity_once_witness :
  getStats_out CONFIG account_mixed = Ok (out_mixed, [])
  /\ (exists r, ad_record (sample_ad Raises) = Ok r
        /\ List.map Ok (ScanResult.ads out_mixed)
           = List.map ad_record
               (List.filter ad_passes [sample_ad (Gives (VStr (js "APPROVED")))])
             ++ Ok r :: List.map ad_record (List.filter ad_passes []))
  /\ (exists r,
        keyword_record (sample_keyword (Gives (VStr (js "DISAPPROVED")))
                          (Gives (VStr (js "shoes")))) = Ok r
        /\ List.map Ok (ScanResult.keywords out_mixed)
           = List.map keyword_record (List.filter keyword_passes [])
             ++ Ok r :: List.map keyword_record (List.filter keyword_passes []))
  /\ ScanResult.assets out_mixed
     = List.map asset_record
         (List.filter asset_passes ([] ++ [sample_asset (Gives (VStr (js "DISAPPROVED")))])).
Proof.
  destruct (getStats_lists_each_passing_entity_once CONFIG account_mixed out_mixed []
              eq_refl) as (Hads & Hkws & Hassets).
  split; [reflexivity|]. split; [|split].
  - apply (Hads [sample_ad (Gives (VStr (js "APPROVED")))] (sample_ad Raises) []).
    + reflexivity.
    + discriminate.
  - apply (Hkws [] _ []).
    + reflexivity.
    + discriminate.
  - apply (Hassets [] (sample_asset Missing)
             [sample_asset (Gives (VStr (js "DISAPPROVED")))]).
    + reflexivity.
    + reflexivity.
Defined.

(** Counterexample to C2 as stated: the iterator hands out a keyword whose
    status is DISAPPROVED, yet the keyword is in no list, because its
    [getText()] throws; and the ad whose status is APPROVED, which is not
    the string "approved", is not listed. *)
Lemma getStats_drops_keyword_whose_text_throws :
  exists out logs,
    getStats_out CONFIG account_throwing_keyword = Ok (out, logs)
    /\ Account.keywords account_throwing_keyword (MAX_ROWS_PER_SECTION CONFIG)
       = Gives (Yield (sample_keyword (Gives (VStr (js "DISAPPROVED"))) Raises) Exhausted)
    /\ ScanResult.keywords out = []
    /\ Account.ads account_throwing_keyword (MAX_ROWS_PER_SECTION CONFIG)
       = Gives (Yield (sample_ad (Gives (VStr (js "APPROVED")))) Exhausted)
    /\ js "APPROVED" <> js "approved"
    /\ ScanResult.ads out = [].
Proof. do 2 eexists. repeat split. discriminate. Qed.

(** After a category's [try] block the total is the length of the list when
    the block completed, and is still 0 when it threw. *)
Lemma total_after_scan {A R} (selector : call (feed A)) (step : A -> result (option R)) :
  (snd (scan selector step) = Completed ->
   total_after (scan selector step) = Z.of_nat (length (fst (scan selector step))))
  /\ (snd (scan selector step) <> Completed -> total_after (scan selector step) = 0).
Proof.
  unfold total_after. destruct (snd (scan selector step)); split; congruence.
Qed.

(** The totals of a returned result agree with the lists in every category
    whose scan completed. *)
Lemma getStats_totals_when_scans_complete (cfg : Config) (acct : Account.t)
    (out : ScanResult.t) (logs : list effect) :
  getStats_out cfg acct = Ok (out, logs) ->
  (snd (scan (Account.ads acct (MAX_ROWS_PER_SECTION cfg)) ad_step) = Completed ->
   Totals.ads (ScanResult.totals out) = Z.of_nat (length (ScanResult.ads out)))
  /\ (snd (scan (Account.keywords acct (MAX_ROWS_PER_SECTION cfg)) keyword_step) = Completed ->
      Totals.keywords (ScanResult.totals out) = Z.of_nat (length (ScanResult.keywords out)))
  /\ (snd (scan (Account.assets acct (MAX_ROWS_PER_SECTION cfg)) asset_step) = Completed ->
      Totals.assets (ScanResult.totals out) = Z.of_nat (length (ScanResult.assets out))).
Proof.
  unfold getStats_out. intros H.
  destruct (invoke (Account.getName acct)) as [nm|e]; [|discriminate].
  destruct (invoke (Account.getCustomerId acct)) as [cid|e]; [|discriminate].
  simpl in H. injection H as <- _. simpl.
  repeat split; intros Hc; now apply total_after_scan.
Qed.

(** C3, at the failing input: the ads iterator hands out one disapproved ad
    and then throws.  The ad stays in [out.ads], the assignment of
    [out.totals.ads] is skipped, and the worker returns a result whose
    total is 0 for a list of length 1. *)
Theorem getStats_total_stale_after_throw :
  exists out logs,
    getStats_out CONFIG account_broken_iterator = Ok (out, logs)
    /\ ScanResult.ads out = [sample_ad_record (VStr (js "DISAPPROVED"))]
    /\ Totals.ads (ScanResult.totals out) = 0
    /\ Totals.ads (ScanResult.totals out) <> Z.of_nat (length (ScanResult.ads out)).
Proof. do 2 eexists. repeat split. discriminate. Qed.

(** ** HTML helpers *)

(** A global replacement leaves no occurrence of the replaced character
    when the replacement has none, and brings in no character that neither
    the string nor the replacement holds. *)
Lemma replace_all_fresh (c : N) (rep s : jsstring) :
  ~ In c rep -> ~ In c (replace_all c rep s).
Proof.
  intros Hrep Hin. unfold replace_all in Hin. apply in_flat_map in Hin as (x & _ & Hx).
  destruct (N.eqb_spec x c) as [Heq|Hne]; [tauto|].
  destruct Hx as [Hx|[]]. congruence.
Qed.

Lemma replace_all_absent (c d : N) (rep s : jsstring) :
  ~ In d rep -> ~ In d s -> ~ In d (replace_all c rep s).
Proof.
  intros Hrep Hs Hin. unfold replace_all in Hin. apply in_flat_map in Hin as (x & Hxs & Hx).
  destruct (N.eqb x c); [tauto|].
  destruct Hx as [->|[]]. tauto.
Qed.

Lemma escHtml_no_lt (v : value) : ~ In 60%N (escHtml_ v).
Proof.
  assert (H : forall s, ~ In 60%N (replace_all 62 (js "&gt;")
                 (replace_all 60 (js "&lt;") (replace_all 38 (js "&amp;") s)))).
  { intros s. apply replace_all_absent.
    - vm_compute. intuition discriminate.
    - apply replace_all_fresh. vm_compute. intuition discriminate. }
  destruct v; simpl; auto.
Qed.

Lemma escHtml_no_gt (v : value) : ~ In 62%N (escHtml_ v).
Proof.
  assert (H : forall s, ~ In 62%N (replace_all 62 (js "&gt;")
                 (replace_all 60 (js "&lt;") (replace_all 38 (js "&amp;") s)))).
  { intros s. apply replace_all_fresh. vm_compute. intuition discriminate. }
  destruct v; simpl; auto.
Qed.

(** The occurrences of a character that [escHtml_] never returns, in a cell
    and in a row: those of the tags. *)
Lemma count_td (c : N) (v : value) :
  ~ In c (escHtml_ v) ->
  count_occ N.eq_dec (td_ v) c
  = (count_occ N.eq_dec (jsq "<td style=`vertical-align:top;border-top:1px solid #eee;`>") c
     + count_occ N.eq_dec (js "</td>") c)%nat.
Proof.
  intros H. unfold td_. rewrite !count_occ_app.
  apply (count_occ_not_In N.eq_dec) in H. rewrite H. lia.
Qed.

Lemma count_tr (c : N) (cells : list value) :
  (forall v, ~ In c (escHtml_ v)) ->
  count_occ N.eq_dec (tr_ cells) c
  = (count_occ N.eq_dec tr_open c + count_occ N.eq_dec (js "</tr>") c
     + length cells
       * (count_occ N.eq_dec (jsq "<td style=`vertical-align:top;border-top:1px solid #eee;`>") c
          + count_occ N.eq_dec (js "</td>") c))%nat.
Proof.
  intros H. unfold tr_. rewrite !count_occ_app.
  assert (Hc : count_occ N.eq_dec (concat (List.map td_ cells)) c
               = (length cells
                  * (count_occ N.eq_dec (jsq "<td style=`vertical-align:top;border-top:1px solid #eee;`>") c
                     + count_occ N.eq_dec (js "</td>") c))%nat).
  { induction cells as [|v cells IH]; [reflexivity|].
    cbn [List.map concat]. rewrite count_occ_app, IH, count_td by apply H.
    cbn [length]. lia. }
  rewrite Hc. lia.
Qed.

(** ** ReportAggregator *)

Lemma Zsum_app l1 l2 : Zsum (l1 ++ l2) = Zsum l1 + Zsum l2.
Proof. unfold Zsum. induction l1; simpl; lia. Qed.

Section MergeFacts.
Variable P : Platform.

(** A round of the merge loop on an outcome without payload changes
    nothing. *)
Lemma merge_step_without_payload merged res :
  without_payload P res -> merge_step P merged res = Ok merged.
Proof.
  unfold merge_step, parseSafe_.
  intros [-> | [-> | (s & -> & [-> | [e ->]])]]; reflexivity.
Qed.

(** The loop over a concatenation. *)
Lemma merge_loop_app l1 l2 merged :
  merge_loop P (l1 ++ l2) merged
  = match merge_loop P l1 merged with
    | Ok m => merge_loop P l2 m
    | Thrown e => Thrown e
    end.
Proof.
  revert merged. induction l1 as [|res l1 IH]; intros merged; simpl; [reflexivity|].
  destruct (merge_step P merged res); simpl; [apply IH | reflexivity].
Qed.

(** What a returning loop adds to the report it started from. *)
Lemma merge_loop_ok results : forall merged merged',
  merge_loop P results merged = Ok merged' ->
  Merged.label merged' = Merged.label merged
  /\ Merged.rows merged' = Merged.rows merged ++ List.map row_of (accepted P results)
  /\ MergedTotals.accounts (Merged.totals merged')
     = MergedTotals.accounts (Merged.totals merged) + Z.of_nat (length (accepted P results))
  /\ MergedTotals.ads (Merged.totals merged')
     = MergedTotals.ads (Merged.totals merged)
       + Zsum (List.map (payload_count PayloadTotals.ads) (accepted P results))
  /\ MergedTotals.keywords (Merged.totals merged')
     = MergedTotals.keywords (Merged.totals merged)
       + Zsum (List.map (payload_count PayloadTotals.keywords) (accepted P results))
  /\ MergedTotals.assets (Merged.totals merged')
     = MergedTotals.assets (Merged.totals merged)
       + Zsum (List.map (payload_count PayloadTotals.assets) (accepted P results)).
Proof.
  induction results as [|res rest IH]; intros merged merged'; simpl.
  - intros [= <-]. rewrite app_nil_r. repeat split; unfold Zsum; simpl; lia.
  - unfold accepted. simpl. fold (accepted P rest). unfold merge_step.
    destruct (ExecutionResult.getReturnValue res) as [| |returned]; simpl;
      [apply IH | discriminate |].
    destruct (parseSafe_ P returned) as [payload|]; simpl; [|apply IH].
    intros H. apply IH in H. simpl in H.
    destruct H as (Hl & Hr & Hn & Ha & Hk & Hs).
    rewrite Hl, Hr, Hn, Ha, Hk, Hs, <- app_assoc. fold (row_of payload).
    unfold Zsum. simpl. repeat split; lia.
Qed.

(** The loop throws only when a [getReturnValue()] call throws. *)
Lemma merge_loop_thrown results : forall merged e,
  merge_loop P results merged = Thrown e ->
  exists res, In res results /\ ExecutionResult.getReturnValue res = Raises.
Proof.
  induction results as [|res rest IH]; intros merged e; simpl; [discriminate|].
  unfold merge_step.
  destruct (ExecutionResult.getReturnValue res) as [| |returned] eqn:Hr; simpl.
  - intros H. apply IH in H as (r & Hin & Hr'). eauto.
  - eauto.
  - destruct (parseSafe_ P returned); simpl;
      intros H; apply IH in H as (r & Hin & Hr'); eauto.
Qed.

End MergeFacts.

(** What the loop adds for a payload is the count the payload reports, and
    what it accepts are the results returned and parsed. *)
Lemma payload_count_reported (field : PayloadTotals.t -> option Z) (payload : Payload.t) :
  payload_count field payload = reported field payload.
Proof.
  unfold payload_count, reported.
  destruct (Payload.totals payload) as [t|]; [|reflexivity]. simpl.
  destruct (field t); reflexivity.
Qed.

Lemma accepted_returned_and_parsed (P : Platform) (results : list ExecutionResult.t) :
  accepted P results = returned_and_parsed P results.
Proof.
  unfold accepted, returned_and_parsed. apply flat_map_ext. intros res.
  destruct (ExecutionResult.getReturnValue res) as [| |[s|]]; try reflexivity.
  unfold parseSafe_. destruct (parse_result P s) as [[payload|]|e]; reflexivity.
Qed.

(** C4: when the merge loop returns, each merged total is the sum, over the
    per-account results that were returned and parsed, of the count the
    result reports for that category, a missing count counting as 0 (the
    loop throws only when a [getReturnValue()] call throws); and a worker
    outcome without a return value, or with one that does not parse, changes
    nothing wherever it stands in the list. *)
Theorem merged_totals_sum_accepted_payloads (P : Platform) (results : list ExecutionResult.t)
    (labelName : jsstring) :
  match merge_loop P results (merged_init labelName) with
  | Ok merged =>
      MergedTotals.ads (Merged.totals merged)
        = Zsum (List.map (reported PayloadTotals.ads) (returned_and_parsed P results))
      /\ MergedTotals.keywords (Merged.totals merged)
        = Zsum (List.map (reported PayloadTotals.keywords) (returned_and_parsed P results))
      /\ MergedTotals.assets (Merged.totals merged)
        = Zsum (List.map (reported PayloadTotals.assets) (returned_and_parsed P results))
  | Thrown _ =>
      exists res, In res results /\ ExecutionResult.getReturnValue res = Raises
  end
  /\ forall before res after,
       without_payload P res ->
       merge_loop P (before ++ res :: after) (merged_init labelName)
       = merge_loop P (before ++ after) (merged_init labelName).
Proof.
  split.
  - destruct (merge_loop P results (merged_init labelName)) as [merged|e] eqn:H.
    + apply merge_loop_ok in H as (_ & _ & _ & Ha & Hk & Hs). simpl in *.
      rewrite Ha, Hk, Hs, accepted_returned_and_parsed, !Z.add_0_l.
      repeat split; f_equal; apply map_ext; intros; apply payload_count_reported.
    + eapply merge_loop_thrown; eassumption.
  - intros before res after Hres. rewrite !merge_loop_app.
    destruct (merge_loop P before (merged_init labelName)) as [m|e]; [|reflexivity].
    simpl. now rewrite merge_step_without_payload.
Qed.

(** Two accounts that each report two ads and one keyword, among outcomes
    of a failed worker, of a result without the accessor and of a return
    value that does not parse: the merged totals are 4, 2 and 0. *)
Example merged_totals_of_two_accounts :
  match merge_loop host_example
          [ {| ExecutionResult.getReturnValue := Gives (Some text_example) |};
            {| ExecutionResult.getReturnValue := Gives None |};
            {| ExecutionResult.getReturnValue := Missing |};
            {| ExecutionResult.getReturnValue := Gives (Some (js "oops")) |};
            {| ExecutionResult.getReturnValue := Gives (Some text_example) |} ]
          (merged_init (js "Managed by Sam")) with
  | Ok merged =>
      Merged.totals merged
      = {| MergedTotals.ads := 4; MergedTotals.keywords := 2;
           MergedTotals.assets := 0; MergedTotals.accounts := 2 |}
  | Thrown _ => False
  end.
Proof. vm_compute. reflexivity. Qed.



(** [buildSubject_] on the sum of the three totals. *)
Lemma buildSubject_spec cfg label a k s n :
  buildSubject_ cfg label (a + k + s)
    {| MergedTotals.ads := a; MergedTotals.keywords := k;
       MergedTotals.assets := s; MergedTotals.accounts := n |}
  = spec_subject (subject_prefix cfg) label a k s.
Proof.
  unfold buildSubject_, spec_subject, subject_prefix. simpl.
  replace (js_String (js_or (VStr (SUBJECT_PREFIX cfg)) (VStr (js "Disapprovals"))))
    with (match SUBJECT_PREFIX cfg with [] => js "Disapprovals" | p => p end)
    by (destruct (SUBJECT_PREFIX cfg); reflexivity).
  destruct (Z.ltb_spec 0 (a + k + s)); case_decide; try lia; reflexivity.
Qed.

(** What a run of [generateOutput] does, case by case. *)
Lemma generateOutput_run cfg P results contextStr w :
  let ctx := read_context P contextStr in
  let recipient := trimmed_or (Context.to ctx) (DEFAULT_TO cfg) in
  let cc := trimmed_or (Context.cc ctx) [] in
  let labelName := report_label P contextStr in
  generateOutput cfg P results contextStr w =
  match recipient with
  | [] => (w, Thrown (Error (js "Failed to send email: no recipient")))
  | _ =>
    match merge_loop P results (merged_init labelName) with
    | Thrown e => (w, Thrown e)
    | Ok merged =>
        let t := Merged.totals merged in
        let html := html_body cfg P merged labelName (toLocaleString P (clock_reads w)) in
        let subject :=
          buildSubject_ cfg labelName
            (MergedTotals.ads t + MergedTotals.keywords t + MergedTotals.assets t) t in
        let options :=
          {| MailOptions.name :=
               if truthy (VStr (FROM_NAME cfg)) then Some (FROM_NAME cfg) else None;
             MailOptions.htmlBody := html;
             MailOptions.cc := if truthy (VStr cc) then Some cc else None |} in
        let logged :=
          {| effects := effects w
               ++ (if LOG_SUMMARY cfg
                   then [Log (jsq "[%s] Emailing `%s` to: %s%s")
                           [ LogValue (VStr labelName); LogValue (VStr subject);
                             LogValue (VStr recipient);
                             LogValue (VStr (if truthy (VStr cc)
                                             then js " (cc " ++ cc ++ js ")" else [])) ]]
                   else []);
             clock_reads := S (clock_reads w) |} in
        if PREVIEW P
        then (after logged [Log (js "[PREVIEW] Skipped sending email.") []], Ok tt)
        else match sendEmail P logged recipient subject (stripHtml_ html) options with
             | Ok _ =>
                 (after logged [SendEmail recipient subject (stripHtml_ html) options], Ok tt)
             | Thrown e => (logged, Thrown e)
             end
    end
  end.
Proof.
  intros ctx recipient cc labelName. unfold generateOutput.
  fold ctx. fold recipient. fold cc.
  replace (js_String (js_or (opt_value (Context.label ctx)) (VStr (js "(Unlabeled Group)"))))
    with labelName
    by (unfold labelName, report_label; fold ctx;
        destruct (Context.label ctx) as [[|c l]|]; reflexivity).
  destruct recipient as [|c r] eqn:Hrec; [reflexivity|]. simpl negb. cbv iota.
  unfold mbind, M_bind, lift.
  destruct (merge_loop P results (merged_init labelName)) as [merged|e]; [|reflexivity].
  unfold now. cbv zeta.
  destruct (LOG_SUMMARY cfg), (PREVIEW P); cbn [when negb];
    unfold send, perform, after, mret, M_ret;
    cbn [effects clock_reads]; rewrite ?app_nil_r; try reflexivity.
  all: destruct (sendEmail P _ _ _ _ _); reflexivity.
Qed.

(** The HTML body around the clock reading. *)
Lemma html_body_split cfg P merged labelName stamp :
  html_body cfg P merged labelName stamp
  = (concat (html_report cfg merged labelName)
     ++ jsq "<p style=`margin-top:18px;color:#666;font-size:12px;`>Sent ")
    ++ stamp
    ++ ((if PREVIEW P then js " (PREVIEW MODE " ++ en_dash ++ js " no changes applied)" else [])
        ++ js "</p>" ++ js "</div>").
Proof.
  unfold html_body, html_footer. rewrite concat_app.
  cbn [concat]. rewrite <- !app_assoc. reflexivity.
Qed.

Lemma html_bodies_app es1 es2 : html_bodies (es1 ++ es2) = html_bodies es1 ++ html_bodies es2.
Proof. apply flat_map_app. Qed.

Lemma subjects_app es1 es2 : subjects (es1 ++ es2) = subjects es1 ++ subjects es2.
Proof. apply flat_map_app. Qed.

(** A log entry is no email. *)
Lemma subjects_logged es (b : bool) fmt args :
  subjects (es ++ (if b then [Log fmt args] else [])) = subjects es.
Proof. rewrite subjects_app. destruct b; cbn; apply app_nil_r. Qed.

Lemma html_bodies_logged es (b : bool) fmt args :
  html_bodies (es ++ (if b then [Log fmt args] else [])) = html_bodies es.
Proof. rewrite html_bodies_app. destruct b; cbn; apply app_nil_r. Qed.

(** C6: [buildSubject_], called with the sum of the three totals as the
    aggregator calls it, builds the subject of the specification, with the
    flag FOUND when the sum is greater than zero and NONE otherwise (the
    prefix is the configured one, or "Disapprovals" when that is empty); and
    a run of [generateOutput] that returns sends, outside preview mode,
    exactly one email, whose subject is that line for the merged totals. *)
Theorem generateOutput_subject_line (cfg : Config) (P : Platform)
    (results : list ExecutionResult.t) (contextStr : jsstring) (w : World) :
  (forall label a k s n,
     buildSubject_ cfg label (a + k + s)
       {| MergedTotals.ads := a; MergedTotals.keywords := k;
          MergedTotals.assets := s; MergedTotals.accounts := n |}
     = spec_subject (subject_prefix cfg) label a k s)
  /\ match generateOutput cfg P results contextStr w with
     | (w', Ok _) =>
         exists merged,
           merge_loop P results (merged_init (report_label P contextStr)) = Ok merged
           /\ subjects (effects w')
              = subjects (effects w)
                ++ (if PREVIEW P then []
                    else [spec_subject (subject_prefix cfg) (report_label P contextStr)
                            (MergedTotals.ads (Merged.totals merged))
                            (MergedTotals.keywords (Merged.totals merged))
                            (MergedTotals.assets (Merged.totals merged))])
     | (w', Thrown _) => subjects (effects w') = subjects (effects w)
     end.
Proof.
  split; [intros; apply buildSubject_spec|].
  rewrite generateOutput_run.
  destruct (trimmed_or _ _) as [|c r]; [reflexivity|].
  destruct (merge_loop P results _) as [merged|e]; [|reflexivity].
  cbv zeta. destruct (PREVIEW P).
  - exists merged. split; [reflexivity|]. cbn [after effects].
    rewrite subjects_app, subjects_logged. reflexivity.
  - destruct (sendEmail P _ _ _ _ _) as [[]|e].
    + exists merged. split; [reflexivity|]. cbn [after effects].
      rewrite subjects_app, subjects_logged.
      destruct (Merged.totals merged) as [a k s n].
      cbn [MergedTotals.ads MergedTotals.keywords MergedTotals.assets].
      rewrite buildSubject_spec. reflexivity.
    + cbn [effects]. apply subjects_logged.
Qed.

(** The end-to-end example of the specification: one group, one account
    with two disapproved ads and one disapproved keyword. *)
Example main_example_subject :
  subjects (effects (fst (main CONFIG host_example fresh)))
  = [ warning_sign ++ js " Disapprovals " ++ em_dash ++ js " Managed by Sam "
      ++ em_dash ++ js " FOUND (Ads:2, KW:1, Assets:0)" ]
  /\ snd (main CONFIG host_example fresh) = Ok tt.
Proof. split; vm_compute; reflexivity. Qed.

(** C7, as the code has it: the HTML body ends with a line that carries the
    clock reading of the run.  Outside preview mode, two returning runs of
    [generateOutput] on the same results and context each send one email,
    and the two HTML bodies are one and the same text [before] followed by
    [Sent ], the run's clock reading and the closing tags: they are
    identical except for the timestamp of the trailing line, and so
    byte-identical if and only if the two clock readings render to the same
    string. *)
Theorem generateOutput_html_identical_iff_same_stamp (cfg : Config) (P : Platform)
    (results : list ExecutionResult.t) (contextStr : jsstring) (w1 w2 w1' w2' : World) :
  PREVIEW P = false ->
  generateOutput cfg P results contextStr w1 = (w1', Ok tt) ->
  generateOutput cfg P results contextStr w2 = (w2', Ok tt) ->
  exists before h1 h2,
    html_bodies (effects w1') = html_bodies (effects w1) ++ [h1]
    /\ html_bodies (effects w2') = html_bodies (effects w2) ++ [h2]
    /\ h1 = before ++ js "Sent " ++ toLocaleString P (clock_reads w1) ++ js "</p></div>"
    /\ h2 = before ++ js "Sent " ++ toLocaleString P (clock_reads w2) ++ js "</p></div>"
    /\ (h1 = h2 <-> toLocaleString P (clock_reads w1) = toLocaleString P (clock_reads w2)).
Proof.
  intros Hp. rewrite !generateOutput_run.
  destruct (trimmed_or _ _) as [|c r]; [discriminate|].
  destruct (merge_loop P results _) as [merged|e]; [|discriminate].
  cbv zeta. rewrite Hp.
  destruct (sendEmail P _ _ _ _ _) as [[]|e1]; [|discriminate].
  destruct (sendEmail P _ _ _ _ _) as [[]|e2]; [|discriminate].
  intros [= <-] [= <-]. cbn [after effects].
  exists (concat (html_report cfg merged (report_label P contextStr))
          ++ jsq "<p style=`margin-top:18px;color:#666;font-size:12px;`>").
  do 2 eexists. rewrite !(html_bodies_app (_ ++ _)), !html_bodies_logged.
  split; [reflexivity|]. split; [reflexivity|].
  cbn [MailOptions.htmlBody]. rewrite !html_body_split, Hp.
  split; [now rewrite <- !app_assoc|]. split; [now rewrite <- !app_assoc|].
  split.
  - intros H. apply app_inv_head in H. now apply app_inv_tail in H.
  - now intros ->.
Qed.

(** Witness of C7: two runs on [results_example], the second from the world
    the first one left. *)
Lemma generateOutput_html_identical_iff_same_stamp_witness :
  exists before h1 h2,
    html_bodies (effects (fst (generateOutput CONFIG host_example results_example
                                 context_text_example fresh)))
      = html_bodies (effects fresh) ++ [h1]
    /\ html_bodies (effects (fst (generateOutput CONFIG host_example results_example
                                    context_text_example
                                    (fst (generateOutput CONFIG host_example results_example
                                            context_text_example fresh)))))
      = html_bodies (effects (fst (generateOutput CONFIG host_example results_example
                                     context_text_example fresh))) ++ [h2]
    /\ h1 = before ++ js "Sent " ++ toLocaleString host_example (clock_reads fresh)
             ++ js "</p></div>"
    /\ h2 = before ++ js "Sent "
             ++ toLocaleString host_example
                  (clock_reads (fst (generateOutput CONFIG host_example results_example
                                       context_text_example fresh)))
             ++ js "</p></div>"
    /\ (h1 = h2 <->
        toLocaleString host_example (clock_reads fresh)
        = toLocaleString host_example
            (clock_reads (fst (generateOutput CONFIG host_example results_example
                                 context_text_example fresh)))).
Proof.
  apply (generateOutput_html_identical_iff_same_stamp CONFIG host_example results_example
           context_text_example fresh
           (fst (generateOutput CONFIG host_example results_example
                   context_text_example fresh))).
  - reflexivity.
  - vm_compute. reflexivity.
  - vm_compute. reflexivity.
Defined.

(** Counterexample to C7 as stated: the aggregation step run twice on the
    same worker results and the same context string, the second run a
    second after the first, sends two different HTML bodies. *)
Lemma generateOutput_twice_different_html :
  exists h1 h2,
    html_bodies (effects (fst (generateOutput CONFIG host_example results_example
                                 context_text_example fresh))) = [h1]
    /\ html_bodies (effects (fst (generateOutput CONFIG host_example results_example
                                    context_text_example
                                    (fst (generateOutput CONFIG host_example results_example
                                            context_text_example fresh))))) = [h1; h2]
    /\ h1 <> h2.
Proof.
  do 2 eexists. split; [vm_compute; reflexivity|]. split; [vm_compute; reflexivity|].
  intros H. apply (f_equal (fun l => nth 13 (rev l) 0%N)) in H.
  vm_compute in H. discriminate.
Qed.

(** ** GroupDispatcher *)

(** C8: a group whose resolved recipient (its trimmed [to] when it has a
    non-empty one, else the configured default) is empty makes
    [processGroup] log the skip line and return: the log entry is the only
    effect, so the fan-out is not started and no email is sent, and the clock
    is not read; [main] goes on with the groups that follow. *)
Theorem processGroup_skips_group_without_recipient (cfg : Config) (P : Platform)
    (group : LabelGroup.t) (w : World) :
  match LabelGroup.to group with
  | Some (c :: s) => trim (c :: s)
  | _ => DEFAULT_TO cfg
  end = [] ->
  let skipped :=
    {| effects := effects w
         ++ [Log (jsq "Skipping label `%s` because no recipient is configured.")
               [LogValue (opt_value (LabelGroup.label group))]];
       clock_reads := clock_reads w |} in
  processGroup cfg P group w = (skipped, Ok tt)
  /\ (forall rest, main_loop cfg P (group :: rest) w = main_loop cfg P rest skipped)
  /\ (forall rest, LABEL_RECIPIENTS cfg = group :: rest ->
        main cfg P w = main_loop cfg P rest skipped).
Proof.
  intros Hrec skipped.
  assert (Hp : processGroup cfg P group w = (skipped, Ok tt)).
  { unfold processGroup.
    replace (trimmed_or (LabelGroup.to group) (DEFAULT_TO cfg)) with (@nil N)
      by (rewrite <- Hrec; unfold trimmed_or;
          destruct (LabelGroup.to group) as [[|c s]|]; reflexivity).
    reflexivity. }
  split; [assumption|]. split.
  - intros rest. simpl. unfold mbind, M_bind. now rewrite Hp.
  - intros rest Hl. unfold main. rewrite Hl. simpl. unfold mbind, M_bind. now rewrite Hp.
Qed.

(** Witness of C8: the configuration without a default recipient, whose
    first group has no [to]. *)
Lemma processGroup_skips_group_without_recipient_witness :
  processGroup config_no_default host_example
      {| LabelGroup.label := Some (js "Unrouted"); LabelGroup.to := None;
         LabelGroup.cc := None |} fresh
    = ({| effects := [Log (jsq "Skipping label `%s` because no recipient is configured.")
                        [LogValue (VStr (js "Unrouted"))]];
          clock_reads := 0 |}, Ok tt)
  /\ main config_no_default host_example fresh
     = main_loop config_no_default host_example
         [ {| LabelGroup.label := Some (js "Managed by Sam");
              LabelGroup.to := Some (js "sam@example.com");
              LabelGroup.cc := Some [] |} ]
         {| effects := [Log (jsq "Skipping label `%s` because no recipient is configured.")
                          [LogValue (VStr (js "Unrouted"))]];
            clock_reads := 0 |}.
Proof.
  destruct (processGroup_skips_group_without_recipient config_no_default host_example
              {| LabelGroup.label := Some (js "Unrouted"); LabelGroup.to := None;
                 LabelGroup.cc := None |} fresh eq_refl) as (Hskip & _ & Hmain).
  split.
  - exact Hskip.
  - apply Hmain. reflexivity.
Defined.

(** A group whose [to] is white space only is skipped although a default
    recipient is configured, and the next group is processed. *)
Example main_skips_blank_recipient :
  subjects (effects (fst (main
    {| DEFAULT_TO := DEFAULT_TO CONFIG; FROM_NAME := FROM_NAME CONFIG;
       SUBJECT_PREFIX := SUBJECT_PREFIX CONFIG;
       LABEL_RECIPIENTS :=
         {| LabelGroup.label := Some (js "Blank"); LabelGroup.to := Some (js "  ");
            LabelGroup.cc := None |} :: LABEL_RECIPIENTS CONFIG;
       MAX_ROWS_PER_SECTION := MAX_ROWS_PER_SECTION CONFIG;
       INCLUDE_ZERO_ROW_SECTIONS := INCLUDE_ZERO_ROW_SECTIONS CONFIG;
       LOG_SUMMARY := LOG_SUMMARY CONFIG |} host_example fresh)))
  = [ warning_sign ++ js " Disapprovals " ++ em_dash ++ js " Managed by Sam "
      ++ em_dash ++ js " FOUND (Ads:2, KW:1, Assets:0)" ].
Proof. vm_compute. reflexivity. Qed.

(** * Further properties *)

(** ** White space trimming *)

(** *** Facts on [trim] *)

Lemma trimStart_head (s : jsstring) (c : N) (r : jsstring) :
  trimStart s = c :: r -> is_space c = false.
Proof.
  induction s as [|x s IH]; simpl; [discriminate|].
  destruct (is_space x) eqn:Hx; [assumption|]. now intros [= <- _].
Qed.

Lemma trimStart_fix (s : jsstring) :
  (forall c r, s = c :: r -> is_space c = false) -> trimStart s = s.
Proof.
  destruct s as [|c r]; [reflexivity|]. intros H. simpl. now rewrite (H c r eq_refl).
Qed.

Lemma trimStart_split (s : jsstring) :
  exists p, s = p ++ trimStart s /\ forallb is_space p = true.
Proof.
  induction s as [|x s (p & Hp & Hs)]; [now exists []|]. simpl.
  destruct (is_space x) eqn:Hx.
  - exists (x :: p). simpl. rewrite Hx. split; [now f_equal | assumption].
  - now exists [].
Qed.

Lemma trimStart_nil (s : jsstring) : trimStart s = [] <-> forallb is_space s = true.
Proof.
  induction s as [|x s IH]; simpl; [tauto|].
  destruct (is_space x); simpl; [assumption|]. split; discriminate.
Qed.

Lemma forallb_rev {A} (f : A -> bool) (l : list A) : forallb f (rev l) = forallb f l.
Proof.
  induction l as [|x l IH]; [reflexivity|]. simpl.
  rewrite forallb_app, IH. simpl. rewrite andb_true_r. apply andb_comm.
Qed.

(** [trim] gives the empty string exactly on strings of white space. *)
Lemma trim_nil (s : jsstring) : trim s = [] <-> forallb is_space s = true.
Proof.
  unfold trim, trimEnd. split.
  - intros H. apply (f_equal (@rev N)) in H. rewrite rev_involutive in H. simpl in H.
    apply trimStart_nil in H. rewrite forallb_rev in H.
    destruct (trimStart_split s) as (p & Hp & Hs). rewrite Hp, forallb_app, Hs, H. reflexivity.
  - intros H. apply trimStart_nil in H. rewrite H. reflexivity.
Qed.

(** The end of a trimmed string: [trimStart] changes nothing in its
    reverse. *)
Lemma trim_end_fixed (s : jsstring) : trimStart (rev (trim s)) = rev (trim s).
Proof.
  unfold trim, trimEnd. rewrite rev_involutive.
  destruct (trimStart (rev (trimStart s))) eqn:H; [reflexivity|].
  apply trimStart_fix. intros c r [= <- <-]. eapply trimStart_head; eassumption.
Qed.

Lemma trim_start_fixed (s : jsstring) : trimStart (trim s) = trim s.
Proof.
  apply trimStart_fix. intros c r H. unfold trim, trimEnd in H.
  destruct (trimStart_split (rev (trimStart s))) as (p & Hp & _).
  apply (f_equal (@rev N)) in Hp. rewrite rev_involutive, rev_app_distr, H in Hp.
  simpl in Hp. eapply trimStart_head. eassumption.
Qed.

(** Trimming twice is trimming once. *)
Lemma trim_idempotent (s : jsstring) : trim (trim s) = trim s.
Proof.
  unfold trim at 1. unfold trimEnd. rewrite trim_start_fixed, trim_end_fixed.
  apply rev_involutive.
Qed.

(** ** Reasons and topic names *)

Lemma first_seen_spec (l : list jsstring) : forall seen : list jsstring,
  List.NoDup (first_seen l seen)
  /\ (forall v, In v (first_seen l seen) <-> v <> [] /\ In v l /\ ~ In v seen)
  /\ first_seen l seen `sublist_of` l.
Proof.
  induction l as [|x l IH]; intros seen; simpl.
  - split; [constructor|]. split; [intros v; tauto | constructor].
  - destruct (bool_decide_reflect (x = [])) as [Hx|Hx]; simpl.
    + destruct (IH seen) as (Hn & Hm & Hs). split; [assumption|]. split.
      * intros v. rewrite Hm. intuition congruence.
      * now apply sublist_cons.
    + destruct (bool_decide_reflect (x ∈ seen)) as [Hin|Hin]; rewrite list_elem_of_In in Hin.
      * destruct (IH seen) as (Hn & Hm & Hs). split; [assumption|]. split.
        -- intros v. rewrite Hm. intuition congruence.
        -- now apply sublist_cons.
      * destruct (IH (x :: seen)) as (Hn & Hm & Hs). split; [|split].
        -- constructor; [|assumption]. intros H. apply Hm in H. simpl in H. tauto.
        -- intros v. simpl. rewrite Hm. simpl. split.
           ++ intros [<-|(Hv & Hl & Hs')]; tauto.
           ++ intros (Hv & [<-|Hl] & Hs'); [tauto|].
              destruct (decide (v = x)) as [->|Hne]; [tauto|]. right.
              intuition congruence.
        -- now apply sublist_skip.
Qed.

(** X1: normalizeReasons_ returns a list without repetitions, made of
    exactly the non-empty trimmed strings String(arr[i] || '').trim() of its
    argument that are not names of Object.prototype members, in the order in
    which the argument holds them (the result is a subsequence of the
    trimmed entries). *)
Theorem normalizeReasons_distinct_nonempty_in_order (arr : list value) :
  List.NoDup (normalizeReasons_ arr)
  /\ (forall v, In v (normalizeReasons_ arr) <->
        v <> [] /\ In v (List.map normalized arr) /\ ~ In v Object_prototype_keys)
  /\ normalizeReasons_ arr `sublist_of` List.map normalized arr.
Proof.
  unfold normalizeReasons_.
  rewrite (normalize_loop_first_seen arr ∅ [] Object_prototype_keys)
    by (intros u; unfold seen_has; now rewrite lookup_empty).
  simpl. apply first_seen_spec.
Qed.

(** The cases of the two raw fields, once the calls are settled. *)
Ltac raw_field_cases tp idv :=
  destruct tp as [| |[|]|?n|[|? ?]]; destruct idv as [| |[|]|?m|[|? ?]];
  unfold js_or; cbn [truthy negb List.find];
  repeat match goal with
         | H : truthy _ = _ |- _ => rewrite H
         | H : (_ =? _) = _ |- _ => rewrite H
         | |- context [(?n =? 0)] => destruct (n =? 0) eqn:?
         | _ => progress cbn [truthy negb List.find]
         end;
  reflexivity.

(** The name the loop settles on is the first truthy candidate. *)
Lemma topic_name_display (t : PolicyTopic.t) : topic_name t = display_name t.
Proof.
  unfold display_name, topic_name, name_candidates.
  destruct t as [gt gi tp idv ge ev]. cbn [PolicyTopic.getTopic PolicyTopic.getId
    PolicyTopic.topic PolicyTopic.id].
  assert (H1 : match gt with Gives v => v | Missing | Raises => VNull end = safeCall_ gt)
    by (destruct gt; reflexivity).
  rewrite H1. clear H1. cbv zeta.
  destruct (truthy (safeCall_ gt)) eqn:Hgt.
  - cbn [negb List.find]. unfold js_or. repeat (rewrite Hgt; cbn [negb]). reflexivity.
  - cbn [negb].
    destruct gi as [| |v2]; cbn [safeCall_].
    + raw_field_cases tp idv.
    + raw_field_cases tp idv.
    + destruct (truthy v2) eqn:Hv2.
      * cbn [negb List.find]. unfold js_or. rewrite Hgt.
        repeat (rewrite Hv2; cbn [negb]). reflexivity.
      * raw_field_cases tp idv.
Qed.

(** X2: The display name extractPolicyInfo_ takes for a policy topic is the
    first truthy value among the result of getTopic(), the result of
    getId(), the field topic and the field id (a missing or throwing
    accessor counting as null), and 'Unspecified Policy Topic' when none of
    the four is truthy. *)
Theorem topic_name_first_truthy (t : PolicyTopic.t) :
  topic_name t
  = match List.find truthy (name_candidates t) with
    | Some v => v
    | None => VStr (js "Unspecified Policy Topic")
    end.
Proof. exact (topic_name_display t). Qed.

(** ** Policy information and listed records *)

Lemma topic_name_truthy (t : PolicyTopic.t) : truthy (topic_name t) = true.
Proof.
  unfold topic_name. cbv zeta.
  match goal with |- truthy (js_or ?x _) = true => generalize x end.
  intros x. unfold js_or. destruct (truthy x) eqn:Hx; [assumption | reflexivity].
Qed.

Lemma topics_loop_leading (topics : list (option PolicyTopic.t)) :
  forall topicsOut reasonsOut,
    topics_loop topics topicsOut reasonsOut
    = (topicsOut ++ List.map topic_name (leading topics),
       reasonsOut ++ flat_map topic_reasons (leading topics)).
Proof.
  induction topics as [|[t|] rest IH]; intros a b; simpl.
  - now rewrite !app_nil_r.
  - rewrite IH, <- !app_assoc. reflexivity.
  - now rewrite !app_nil_r.
Qed.

Lemma extractPolicyInfo_lists {E} `{PolicyEntity E} (entity : E) :
  PolicyInfo.topics (extractPolicyInfo_ entity)
    = normalizeReasons_ (List.map topic_name (topics_read entity))
  /\ PolicyInfo.reasons (extractPolicyInfo_ entity)
    = normalizeReasons_ (flat_map topic_reasons (topics_read entity)).
Proof.
  unfold extractPolicyInfo_, topics_read.
  destruct (getPolicyTopics entity) as [| |[topics|]]; try (split; reflexivity).
  rewrite topics_loop_leading. split; reflexivity.
Qed.

Lemma normalizeReasons_spec (arr : list value) :
  List.NoDup (normalizeReasons_ arr)
  /\ (forall v, In v (normalizeReasons_ arr) <->
        v <> [] /\ In v (List.map normalized arr) /\ ~ In v Object_prototype_keys).
Proof.
  unfold normalizeReasons_.
  rewrite (normalize_loop_first_seen arr ∅ [] Object_prototype_keys)
    by (intros u; unfold seen_has; now rewrite lookup_empty).
  simpl. destruct (first_seen_spec (List.map normalized arr) Object_prototype_keys)
    as (Hn & Hm & _). split; assumption.
Qed.

(** The policy information of [ad_with_topics]. *)
Example extractPolicyInfo_ad_with_topics :
  extractPolicyInfo_ ad_with_topics
  = {| PolicyInfo.topics := [js "Trademarks"; js "MISLEADING"];
       PolicyInfo.reasons := [js "brand term"; js "unproven claim"] |}
  /\ topics_read ad_with_topics = [topic_trademarks; topic_misleading].
Proof. split; vm_compute; reflexivity. Qed.

(** What the evidence loop pushes for a topic. *)
Lemma topic_reasons_texts (t : PolicyTopic.t) (x : value) :
  In x (topic_reasons t) <->
  exists evs ev, evidences_read t evs /\ In (Some ev) evs /\ evidence_text ev x.
Proof.
  assert (Hev : forall evs, In x (flat_map evidence_reason evs) <->
                  exists ev, In (Some ev) evs /\ evidence_text ev x).
  { intros evs. rewrite in_flat_map. split.
    - intros ([ev|] & Hin & Hx); [|destruct Hx]. exists ev. split; [assumption|].
      unfold evidence_reason in Hx. destruct (truthy (Evidence.text ev)) eqn:Ht.
      + destruct Hx as [<-|[]]. now constructor.
      + destruct (Evidence.getText ev) as [| |v] eqn:Hg; try destruct Hx.
        * subst. now apply text_from_accessor.
        * destruct H.
    - intros (ev & Hin & Hx). exists (Some ev). split; [assumption|].
      unfold evidence_reason. destruct Hx as [Ht | v Ht Hg]; rewrite Ht.
      + now left.
      + rewrite Hg. now left. }
  unfold topic_reasons. split.
  - destruct (PolicyTopic.getEvidences t) as [| |[evs|]] eqn:Hg.
    + intros Hx. destruct (PolicyTopic.evidences t) as [evs|] eqn:Hf; [|destruct Hx].
      apply Hev in Hx as (ev & Hin & Hx). exists evs, ev.
      split; [|split; assumption]. apply evidences_from_field; auto.
    + intros [].
    + intros Hx. apply Hev in Hx as (ev & Hin & Hx). exists evs, ev.
      split; [|split; assumption]. now apply evidences_from_accessor.
    + intros Hx. destruct (PolicyTopic.evidences t) as [evs|] eqn:Hf; [|destruct Hx].
      apply Hev in Hx as (ev & Hin & Hx). exists evs, ev.
      split; [|split; assumption]. apply evidences_from_field; auto.
  - intros (evs & ev & Hr & Hin & Hx).
    destruct Hr as [evs Hg | evs [Hg|Hg] Hf]; rewrite Hg; try rewrite Hf;
      apply Hev; eauto.
Qed.

(** X3: For every entity, the topics and reasons that extractPolicyInfo_
    returns have no repetitions.  The topics are exactly the non-empty
    trimmed display names of the topics read: the elements of
    getPolicyTopics() before its first null entry, none when the accessor is
    missing, throws or returns null.  The reasons are exactly the non-empty
    trimmed evidence texts of those topics, where a topic's evidences are
    what getEvidences() returns, or the field evidences when the accessor is
    missing or returns null (none when it throws), and an evidence's text is
    its field text when truthy, else what getText() returns.  Names of
    Object.prototype members are left out of both lists. *)
Theorem extractPolicyInfo_lists_what_the_topics_give {E} `{PolicyEntity E} (entity : E) :
  let info := extractPolicyInfo_ entity in
  List.NoDup (PolicyInfo.topics info) /\ List.NoDup (PolicyInfo.reasons info)
  /\ (forall v, In v (PolicyInfo.topics info) <->
        v <> [] /\ ~ In v Object_prototype_keys
        /\ exists t, In t (topics_read entity) /\ v = trim (js_String (display_name t)))
  /\ (forall v, In v (PolicyInfo.reasons info) <->
        v <> [] /\ ~ In v Object_prototype_keys
        /\ exists t evs ev x,
             In t (topics_read entity) /\ evidences_read t evs /\ In (Some ev) evs
             /\ evidence_text ev x /\ v = normalized x).
Proof.
  intros info. subst info.
  destruct (extractPolicyInfo_lists entity) as (-> & ->).
  destruct (normalizeReasons_spec (List.map topic_name (topics_read entity))) as (Hn1 & Hm1).
  destruct (normalizeReasons_spec (flat_map topic_reasons (topics_read entity))) as (Hn2 & Hm2).
  split; [assumption|]. split; [assumption|]. split.
  - intros v. rewrite Hm1, List.map_map, in_map_iff. split.
    + intros (Hv & (t & <- & Ht) & Hp). repeat split; try assumption.
      exists t. split; [assumption|]. rewrite <- topic_name_display.
      unfold normalized, js_or. now rewrite topic_name_truthy.
    + intros (Hv & Hp & t & Ht & ->). repeat split; try assumption.
      exists t. split; [|assumption]. rewrite <- topic_name_display.
      unfold normalized, js_or. now rewrite topic_name_truthy.
  - intros v. rewrite Hm2, in_map_iff. split.
    + intros (Hv & (x & <- & Hx) & Hp). apply in_flat_map in Hx as (t & Ht & Hx).
      apply topic_reasons_texts in Hx as (evs & ev & Hr & Hin & Hx).
      repeat split; try assumption. exists t, evs, ev, x. repeat split; assumption.
    + intros (Hv & Hp & t & evs & ev & x & Ht & Hr & Hin & Hx & ->).
      repeat split; try assumption.
      exists x. split; [reflexivity|]. apply in_flat_map. exists t. split; [assumption|].
      apply topic_reasons_texts. eauto.
Qed.

Lemma ad_record_fields (ad : Ad.t) (r : AdRecord.t) :
  ad_record ad = Ok r ->
  AdRecord.status r = safeCall_ (Ad.getPolicyApprovalStatus ad)
  /\ AdRecord.topics r = PolicyInfo.topics (extractPolicyInfo_ ad)
  /\ AdRecord.reasons r = PolicyInfo.reasons (extractPolicyInfo_ ad).
Proof.
  unfold ad_record.
  destruct (guarded _); [|discriminate]. destruct (campaign_name _); [|discriminate].
  destruct (adGroup_name _); [|discriminate]. simpl. intros [= <-]. repeat split.
Qed.

Lemma keyword_record_fields (kw : Keyword.t) (r : KeywordRecord.t) :
  keyword_record kw = Ok r ->
  KeywordRecord.status r = safeCall_ (Keyword.getApprovalStatus kw)
  /\ KeywordRecord.topics r = PolicyInfo.topics (extractPolicyInfo_ kw)
  /\ KeywordRecord.reasons r = PolicyInfo.reasons (extractPolicyInfo_ kw).
Proof.
  unfold keyword_record.
  destruct (invoke _); [|discriminate]. destruct (guarded _); [|discriminate].
  destruct (campaign_name _); [|discriminate].
  destruct (adGroup_name _); [|discriminate]. simpl. intros [= <-]. repeat split.
Qed.

(** X4: In every result getStats returns, no listed ad, keyword or asset has
    String(status) equal to 'APPROVED', every listed asset has a truthy
    status, and every record's topics and reasons lists are free of
    repetitions and of empty strings. *)
Theorem getStats_never_lists_approved (cfg : Config) (acct : Account.t)
    (out : ScanResult.t) (logs : list effect) :
  getStats_out cfg acct = Ok (out, logs) ->
  (forall r, In r (ScanResult.ads out) ->
     js_String (AdRecord.status r) <> js "APPROVED"
     /\ List.NoDup (AdRecord.topics r) /\ List.NoDup (AdRecord.reasons r)
     /\ ~ In [] (AdRecord.topics r) /\ ~ In [] (AdRecord.reasons r))
  /\ (forall r, In r (ScanResult.keywords out) ->
     js_String (KeywordRecord.status r) <> js "APPROVED"
     /\ List.NoDup (KeywordRecord.topics r) /\ List.NoDup (KeywordRecord.reasons r)
     /\ ~ In [] (KeywordRecord.topics r) /\ ~ In [] (KeywordRecord.reasons r))
  /\ (forall r, In r (ScanResult.assets out) ->
     truthy (AssetRecord.status r) = true
     /\ js_String (AssetRecord.status r) <> js "APPROVED"
     /\ List.NoDup (AssetRecord.topics r) /\ List.NoDup (AssetRecord.reasons r)
     /\ ~ In [] (AssetRecord.topics r) /\ ~ In [] (AssetRecord.reasons r)).
Proof.
  intros H. apply getStats_out_lists in H as (Ha & Hk & Hs).
  assert (Hinfo : forall E (HE : PolicyEntity E) (e : E),
            List.NoDup (PolicyInfo.topics (extractPolicyInfo_ e))
            /\ List.NoDup (PolicyInfo.reasons (extractPolicyInfo_ e))
            /\ ~ In [] (PolicyInfo.topics (extractPolicyInfo_ e))
            /\ ~ In [] (PolicyInfo.reasons (extractPolicyInfo_ e))).
  { intros E HE e. destruct (extractPolicyInfo_lists e) as (-> & ->).
    destruct (normalizeReasons_spec (List.map topic_name (topics_read e))) as (Hn1 & Hm1).
    destruct (normalizeReasons_spec (flat_map topic_reasons (topics_read e))) as (Hn2 & Hm2).
    repeat split; try assumption.
    - intros Hin. apply Hm1 in Hin. tauto.
    - intros Hin. apply Hm2 in Hin. tauto. }
  split; [|split].
  - intros r Hr. rewrite Ha in Hr. apply in_pushed in Hr as (ad & _ & Hstep).
    apply ad_step_Some in Hstep as (Hst & Hrec).
    apply ad_record_fields in Hrec as (-> & -> & ->).
    split; [assumption|]. apply Hinfo.
  - intros r Hr. rewrite Hk in Hr. apply in_pushed in Hr as (kw & _ & Hstep).
    apply keyword_step_Some in Hstep as (Hst & Hrec).
    apply keyword_record_fields in Hrec as (-> & -> & ->).
    split; [assumption|]. apply Hinfo.
  - intros r Hr. rewrite Hs in Hr. apply in_pushed in Hr as (a & _ & Hstep).
    apply asset_step_Some in Hstep as (Ht & Hst & <-). simpl.
    split; [assumption|]. split; [assumption|]. apply (Hinfo _ _ a).
Qed.

(** ** Groups, fan-out and delivery *)

Lemma trimmed_or_group_recipient cfg group :
  trimmed_or (LabelGroup.to group) (DEFAULT_TO cfg) = group_recipient cfg group.
Proof. unfold trimmed_or, group_recipient. now destruct (LabelGroup.to group) as [[|c s]|]. Qed.

(** What a run of [processGroup] does: it logs the skip, or it logs the
    start, starts the fan-out and runs the aggregator on the outcomes. *)
Lemma processGroup_run cfg P group w :
  processGroup cfg P group w =
  match group_recipient cfg group with
  | [] => (after w [Log (jsq "Skipping label `%s` because no recipient is configured.")
                      [LogValue (opt_value (LabelGroup.label group))]], Ok tt)
  | _ =>
    generateOutput cfg P
      (List.map (worker_outcome cfg P) (accounts P (group_condition group)))
      (stringify_context P (group_context cfg group))
      (after w ((if LOG_SUMMARY cfg
                 then [Log (js "[%s] Executing scan for accounts labeled: %s")
                         [LogValue (VStr (group_label group));
                          LogValue (VStr (group_label group))]]
                 else [])
                ++ [ExecuteInParallel (group_condition group)
                      (stringify_context P (group_context cfg group))]))
  end.
Proof.
  unfold processGroup. rewrite trimmed_or_group_recipient.
  destruct (group_recipient cfg group) as [|c r] eqn:Hr; [reflexivity|].
  cbn [negb truthy].
  replace (js_String (js_or (opt_value (LabelGroup.label group)) (VStr (js "(Unnamed Label)"))))
    with (group_label group)
    by (unfold group_label; destruct (LabelGroup.label group) as [[|? ?]|]; reflexivity).
  replace (trimmed_or (LabelGroup.cc group) []) with (group_cc group)
    by (unfold group_cc, trimmed_or; destruct (LabelGroup.cc group) as [[|? ?]|]; reflexivity).
  fold (group_condition group).
  assert (Hctx : group_context cfg group
                 = {| Context.label := Some (group_label group); Context.to := Some (c :: r);
                      Context.cc := Some (group_cc group) |})
    by (unfold group_context; now rewrite Hr).
  rewrite <- Hctx. unfold executeInParallel, mbind, M_bind, when, perform, after.
  destruct (LOG_SUMMARY cfg); cbn [effects clock_reads mret M_ret];
    rewrite <- ?app_assoc; reflexivity.
Qed.

Lemma fanouts_app es1 es2 : fanouts (es1 ++ es2) = fanouts es1 ++ fanouts es2.
Proof. apply flat_map_app. Qed.

Lemma deliveries_app es1 es2 : deliveries (es1 ++ es2) = deliveries es1 ++ deliveries es2.
Proof. apply flat_map_app. Qed.

Lemma fanouts_logged es (b : bool) fmt args :
  fanouts (es ++ (if b then [Log fmt args] else [])) = fanouts es.
Proof. rewrite fanouts_app. destruct b; cbn; apply app_nil_r. Qed.

Lemma deliveries_logged es (b : bool) fmt args :
  deliveries (es ++ (if b then [Log fmt args] else [])) = deliveries es.
Proof. rewrite deliveries_app. destruct b; cbn; apply app_nil_r. Qed.

(** The merge loop throws exactly when some [getReturnValue()] throws, and
    then what it throws is the host's exception. *)
Lemma merge_loop_outcome (P : Platform) (results : list ExecutionResult.t) :
  forall merged,
    match merge_loop P results merged with
    | Ok _ => forall res, In res results -> ExecutionResult.getReturnValue res <> Raises
    | Thrown e =>
        e = HostError
        /\ exists res, In res results /\ ExecutionResult.getReturnValue res = Raises
    end.
Proof.
  induction results as [|res rest IH]; intros merged; simpl; [tauto|].
  unfold merge_step.
  destruct (ExecutionResult.getReturnValue res) as [| |returned] eqn:Hr; simpl.
  - specialize (IH merged). destruct (merge_loop P rest merged).
    + intros r [<-|Hin]; [congruence | now apply IH].
    + destruct IH as (-> & r & Hin & Hr'). eauto.
  - eauto.
  - destruct (parseSafe_ P returned) as [payload|]; simpl.
    + match goal with |- context [merge_loop P rest ?m] => specialize (IH m);
        destruct (merge_loop P rest m) end.
      * intros r [<-|Hin]; [congruence | now apply IH].
      * destruct IH as (-> & r & Hin & Hr'). eauto.
    + specialize (IH merged). destruct (merge_loop P rest merged).
      * intros r [<-|Hin]; [congruence | now apply IH].
      * destruct IH as (-> & r & Hin & Hr'). eauto.
Qed.

(** X11: A run of generateOutput that throws has sent no email, and it
    throws at one of three points: before it logs, reads the clock or sends
    anything, with 'Failed to send email: no recipient' exactly when the
    resolved recipient is empty, and otherwise with the exception of a
    throwing getReturnValue(); or, outside preview mode, when
    MailApp.sendEmail itself throws, after the clock was read once and with
    nothing but log entries added.  A run that returns has read the clock
    once and added only log entries before one final effect: the email to
    the resolved recipient, which the host accepted, or in preview mode the
    '[PREVIEW] Skipped sending email.' log entry. *)
Theorem generateOutput_throws_without_sending (cfg : Config) (P : Platform)
    (results : list ExecutionResult.t) (contextStr : jsstring) (w : World) :
  let recipient := trimmed_or (Context.to (read_context P contextStr)) (DEFAULT_TO cfg) in
  match generateOutput cfg P results contextStr w with
  | (w', Ok _) =>
      recipient <> []
      /\ (forall res, In res results -> ExecutionResult.getReturnValue res <> Raises)
      /\ clock_reads w' = S (clock_reads w)
      /\ exists logged last,
           effects w' = effects w ++ logged ++ [last]
           /\ (forall e, In e logged -> exists fmt args, e = Log fmt args)
           /\ (if PREVIEW P then last = Log (js "[PREVIEW] Skipped sending email.") []
               else exists subject body options,
                      last = SendEmail recipient subject body options
                      /\ sendEmail P {| effects := effects w ++ logged;
                                         clock_reads := S (clock_reads w) |}
                            recipient subject body options = Ok tt)
  | (w', Thrown e) =>
      deliveries (effects w') = deliveries (effects w)
      /\ ((w' = w
           /\ ((e = Error (js "Failed to send email: no recipient") /\ recipient = [])
               \/ (e = HostError /\ recipient <> []
                   /\ exists res, In res results
                        /\ ExecutionResult.getReturnValue res = Raises)))
          \/ (PREVIEW P = false /\ recipient <> []
              /\ (forall res, In res results -> ExecutionResult.getReturnValue res <> Raises)
              /\ clock_reads w' = S (clock_reads w)
              /\ exists logged subject body options,
                   effects w' = effects w ++ logged
                   /\ (forall e', In e' logged -> exists fmt args, e' = Log fmt args)
                   /\ sendEmail P w' recipient subject body options = Thrown e))
  end.
Proof.
  intros recipient. rewrite generateOutput_run. fold recipient.
  destruct recipient as [|c r] eqn:Hrec.
  { split; [reflexivity|]. left. split; [reflexivity|]. left. split; reflexivity. }
  pose proof (merge_loop_outcome P results (merged_init (report_label P contextStr))) as Hm.
  destruct (merge_loop P results _) as [merged|e].
  2:{ destruct Hm as (-> & Hres). split; [reflexivity|]. left. split; [reflexivity|].
      right. split; [reflexivity|]. split; [discriminate | assumption]. }
  cbv zeta.
  match goal with |- context [if LOG_SUMMARY cfg then [Log ?f ?a] else []] =>
    assert (Hlog : forall e, In e (if LOG_SUMMARY cfg then [Log f a] else []) ->
                     exists fmt args, e = Log fmt args)
      by (intros e He; destruct (LOG_SUMMARY cfg); [|destruct He];
          destruct He as [<-|[]]; eauto)
  end.
  destruct (PREVIEW P).
  - split; [discriminate|]. split; [assumption|]. split; [reflexivity|].
    cbn [after effects]. eexists. eexists. rewrite <- app_assoc.
    split; [reflexivity|]. split; [exact Hlog | reflexivity].
  - destruct (sendEmail P _ _ _ _ _) as [[]|e] eqn:Hsend.
    + split; [discriminate|]. split; [assumption|]. split; [reflexivity|].
      cbn [after effects]. eexists. eexists. rewrite <- app_assoc.
      split; [reflexivity|]. split; [exact Hlog|].
      do 3 eexists. split; [reflexivity | exact Hsend].
    + split; [cbn [effects]; apply deliveries_logged|]. right.
      split; [reflexivity|]. split; [discriminate|]. split; [assumption|].
      split; [reflexivity|]. do 4 eexists.
      split; [reflexivity|]. split; [exact Hlog | exact Hsend].
Qed.

(** The shipped configuration on a host whose mail service rejects the
    email: the group's fan-out is started, the clock is read and the summary
    is logged, then [main] throws the host's exception with no email sent. *)
Example main_throws_when_the_send_fails :
  snd (main CONFIG host_mail_down fresh) = Thrown HostError
  /\ deliveries (effects (fst (main CONFIG host_mail_down fresh))) = []
  /\ fanouts (effects (fst (main CONFIG host_mail_down fresh)))
     = [(js "LabelNames CONTAINS_ANY ['Managed by Sam']", context_text_example)]
  /\ clock_reads (fst (main CONFIG host_mail_down fresh)) = 1%nat.
Proof. repeat split; vm_compute; reflexivity. Qed.

(** The aggregator starts no fan-out, and it sends nothing in preview mode
    nor when it throws. *)
Lemma generateOutput_adds cfg P results contextStr w :
  fanouts (effects (fst (generateOutput cfg P results contextStr w))) = fanouts (effects w)
  /\ (PREVIEW P = true ->
      deliveries (effects (fst (generateOutput cfg P results contextStr w)))
      = deliveries (effects w))
  /\ (forall e, snd (generateOutput cfg P results contextStr w) = Thrown e ->
      deliveries (effects (fst (generateOutput cfg P results contextStr w)))
      = deliveries (effects w)).
Proof.
  rewrite generateOutput_run.
  destruct (trimmed_or _ _) as [|c r]; [repeat split; reflexivity|].
  destruct (merge_loop P results _) as [merged|e]; [|repeat split; reflexivity].
  cbv zeta. destruct (PREVIEW P).
  - cbn [fst snd after effects]. rewrite fanouts_app, deliveries_app, fanouts_logged,
      deliveries_logged. cbn. rewrite !app_nil_r. repeat split.
  - destruct (sendEmail P _ _ _ _ _) as [[]|e]; cbn [fst snd after effects].
    + rewrite fanouts_app, fanouts_logged. cbn [fanouts flat_map app]. rewrite app_nil_r.
      repeat split; discriminate.
    + rewrite fanouts_logged, deliveries_logged. repeat split.
Qed.

(** A group is skipped exactly when its [to] is white space only, or is
    missing or empty while no default recipient is configured. *)
Lemma group_recipient_nil (cfg : Config) (group : LabelGroup.t) :
  group_recipient cfg group = [] <-> group_skipped cfg group = true.
Proof.
  unfold group_recipient, group_skipped.
  destruct (LabelGroup.to group) as [[|c s]|]; try apply trim_nil;
    symmetry; apply bool_decide_eq_true.
Qed.

(** X7: processGroup starts no parallel run for a skipped group (one whose
    to is only white space, or which has no to while no default recipient is
    configured) and exactly one otherwise, with the condition LabelNames
    CONTAINS_ANY ['<label with every apostrophe preceded by a backslash>']
    and the JSON text of {label, to, cc}, where label falls back to
    '(Unnamed Label)', to is the trimmed group recipient or the default
    recipient, and cc is the trimmed cc or the empty string. *)
Theorem processGroup_starts_one_fanout_unless_skipped (cfg : Config) (P : Platform)
    (group : LabelGroup.t) (w : World) :
  fanouts (effects (fst (processGroup cfg P group w)))
  = fanouts (effects w)
    ++ (if group_skipped cfg group then []
        else [(js "LabelNames CONTAINS_ANY ['"
               ++ replace_all 39 (js "\'") (group_label group) ++ js "']",
               stringify_context P
                 {| Context.label := Some (group_label group);
                    Context.to := Some (group_recipient cfg group);
                    Context.cc := Some (group_cc group) |})]).
Proof.
  rewrite processGroup_run.
  pose proof (group_recipient_nil cfg group) as Hskip.
  destruct (group_recipient cfg group) as [|c r] eqn:Hr.
  - rewrite (proj1 Hskip eq_refl). cbn [fst after effects]. rewrite fanouts_app. reflexivity.
  - destruct (group_skipped cfg group); [destruct Hskip as [_ H]; discriminate (H eq_refl)|].
    destruct (generateOutput_adds cfg P
      (List.map (worker_outcome cfg P) (accounts P (group_condition group)))
      (stringify_context P (group_context cfg group))
      (after w ((if LOG_SUMMARY cfg
                 then [Log (js "[%s] Executing scan for accounts labeled: %s")
                         [LogValue (VStr (group_label group));
                          LogValue (VStr (group_label group))]]
                 else [])
                ++ [ExecuteInParallel (group_condition group)
                      (stringify_context P (group_context cfg group))]))) as (Hf & _).
    rewrite Hf. cbn [after effects]. rewrite !fanouts_app.
    unfold group_context, group_condition. rewrite Hr.
    destruct (LOG_SUMMARY cfg); reflexivity.
Qed.

(** In preview mode a group sends nothing. *)
Lemma processGroup_preview cfg P group w :
  PREVIEW P = true ->
  deliveries (effects (fst (processGroup cfg P group w))) = deliveries (effects w).
Proof.
  intros Hp. rewrite processGroup_run.
  destruct (group_recipient cfg group) as [|c r].
  - cbn [fst after effects]. rewrite deliveries_app. cbn. now rewrite app_nil_r.
  - match goal with |- context [generateOutput cfg P ?rs ?c ?w'] =>
      destruct (generateOutput_adds cfg P rs c w') as (_ & Hd & _) end.
    rewrite (Hd Hp). cbn [after effects]. rewrite !deliveries_app.
    destruct (LOG_SUMMARY cfg); cbn; now rewrite app_nil_r.
Qed.

(** The loop of [main] over a concatenation. *)
Lemma main_loop_app cfg P (groups later : list LabelGroup.t) (w : World) :
  main_loop cfg P (groups ++ later) w
  = match main_loop cfg P groups w with
    | (w', Ok _) => main_loop cfg P later w'
    | (w', Thrown e) => (w', Thrown e)
    end.
Proof.
  revert w. induction groups as [|g groups IH]; intros w; [reflexivity|].
  cbn [app main_loop]. unfold mbind, M_bind.
  destruct (processGroup cfg P g w) as [w1 [[]|e]]; [apply IH | reflexivity].
Qed.

(** X9: In preview mode a run of main sends no email, whatever the groups,
    the accounts and the worker results are, and whether it returns or
    throws. *)
Theorem main_sends_nothing_in_preview (cfg : Config) (P : Platform)
    (groups : list LabelGroup.t) (w : World) :
  PREVIEW P = true ->
  deliveries (effects (fst (main_loop cfg P groups w))) = deliveries (effects w)
  /\ deliveries (effects (fst (main cfg P w))) = deliveries (effects w).
Proof.
  intros Hp.
  assert (Hloop : forall gs w0,
            deliveries (effects (fst (main_loop cfg P gs w0))) = deliveries (effects w0)).
  { induction gs as [|g gs IH]; intros w0; [reflexivity|].
    cbn [main_loop]. unfold mbind, M_bind.
    pose proof (processGroup_preview cfg P g w0 Hp) as Hg.
    destruct (processGroup cfg P g w0) as [w1 [[]|e]]; cbn [fst] in *.
    - now rewrite IH.
    - assumption. }
  split; [apply Hloop|]. unfold main.
  destruct (LABEL_RECIPIENTS cfg) as [|g gs]; [reflexivity | apply Hloop].
Qed.

(** With a host whose JSON functions round-trip the context, the aggregator
    reads the context the dispatcher wrote. *)
Lemma read_context_round_trip (P : Platform) (c : Context.t) :
  context_round_trip P c -> read_context P (stringify_context P c) = c.
Proof.
  intros (Hne & Hparse). unfold read_context, js_or.
  destruct (stringify_context P c) as [|x s] eqn:Hs; [congruence|].
  cbn [truthy js_String]. now rewrite Hparse.
Qed.

(** The fan-out's outcomes never make the merge loop throw. *)
Lemma merge_loop_worker_outcomes cfg P (accts : list Account.t) (merged : Merged.t) :
  exists merged', merge_loop P (List.map (worker_outcome cfg P) accts) merged = Ok merged'.
Proof.
  pose proof (merge_loop_outcome P (List.map (worker_outcome cfg P) accts) merged) as H.
  destruct (merge_loop P _ merged) as [m|e]; [eauto|].
  destruct H as (_ & res & Hin & Hr). apply in_map_iff in Hin as (a & <- & _). discriminate.
Qed.

Lemma group_cc_trimmed (group : LabelGroup.t) :
  trimmed_or (Some (group_cc group)) [] = group_cc group.
Proof.
  unfold trimmed_or, group_cc.
  destruct (LabelGroup.cc group) as [[|c s]|]; try reflexivity.
  cbn [opt_value]. destruct (trim (c :: s)) as [|x r] eqn:Ht; [reflexivity|].
  cbn [truthy js_String]. rewrite <- Ht. apply trim_idempotent.
Qed.

Lemma group_label_nonempty (group : LabelGroup.t) :
  exists c l, group_label group = c :: l.
Proof.
  unfold group_label. destruct (LabelGroup.label group) as [[|c l]|]; eauto;
    vm_compute; eauto.
Qed.

(** The address the aggregator ends up with is the trimmed [to], or the
    trimmed default. *)
Lemma trim_group_recipient (cfg : Config) (group : LabelGroup.t) :
  trim (group_recipient cfg group)
  = trim (match LabelGroup.to group with
          | Some (c :: s) => c :: s
          | _ => DEFAULT_TO cfg
          end).
Proof.
  unfold group_recipient. destruct (LabelGroup.to group) as [[|c s]|]; try reflexivity.
  apply trim_idempotent.
Qed.

(** X8: On a host whose JSON functions round-trip the group's routing
    context, a group that is not skipped ends in one of three ways.  The
    run returns: one email was sent (none in preview mode) to the trimmed
    recipient, with the trimmed cc when it is non-empty and no cc otherwise,
    under the subject built from the merged totals of the accounts selected
    by the group's label.  Or the recipient (a default recipient of white
    space only) trims to the empty string: the run throws 'Failed to send
    email: no recipient' after the fan-out.  Or MailApp.sendEmail throws for
    that email: the run throws the host's exception.  In both throwing
    cases no email was sent. *)
Theorem processGroup_delivers_to_trimmed_recipient (cfg : Config) (P : Platform)
    (group : LabelGroup.t) (w : World) :
  context_round_trip P (group_context cfg group) ->
  group_skipped cfg group = false ->
  let address := trim (match LabelGroup.to group with
                       | Some (c :: s) => c :: s
                       | _ => DEFAULT_TO cfg
                       end) in
  let cc := match group_cc group with [] => None | cc => Some cc end in
  exists merged,
    merge_loop P (List.map (worker_outcome cfg P) (accounts P (group_condition group)))
      (merged_init (group_label group)) = Ok merged
    /\ let subject := spec_subject (subject_prefix cfg) (group_label group)
                        (MergedTotals.ads (Merged.totals merged))
                        (MergedTotals.keywords (Merged.totals merged))
                        (MergedTotals.assets (Merged.totals merged)) in
       match processGroup cfg P group w with
       | (w', Ok _) =>
           address <> []
           /\ deliveries (effects w')
              = deliveries (effects w) ++ (if PREVIEW P then [] else [(address, cc)])
           /\ subjects (effects w')
              = subjects (effects w) ++ (if PREVIEW P then [] else [subject])
       | (w', Thrown e) =>
           deliveries (effects w') = deliveries (effects w)
           /\ ((address = [] /\ e = Error (js "Failed to send email: no recipient"))
               \/ (address <> [] /\ PREVIEW P = false
                   /\ exists body options,
                        MailOptions.cc options = cc
                        /\ sendEmail P w' address subject body options = Thrown e))
       end.
Proof.
  intros Hround Hskip address cc. subst address. rewrite <- trim_group_recipient.
  set (address := trim (group_recipient cfg group)).
  destruct (merge_loop_worker_outcomes cfg P (accounts P (group_condition group))
              (merged_init (group_label group))) as (merged & Hm).
  exists merged. split; [exact Hm|]. cbv zeta. rewrite processGroup_run.
  destruct (group_recipient cfg group) as [|c r] eqn:Hr.
  { apply group_recipient_nil in Hr. congruence. }
  rewrite generateOutput_run.
  unfold report_label. rewrite (read_context_round_trip P _ Hround).
  cbn [group_context Context.to Context.cc Context.label].
  rewrite group_cc_trimmed. rewrite Hr.
  replace (trimmed_or (Some (c :: r)) (DEFAULT_TO cfg)) with address by reflexivity.
  destruct (group_label_nonempty group) as (lc & ll & Hl). rewrite Hl. cbv iota. rewrite <- Hl.
  assert (Hcc : (if truthy (VStr (group_cc group)) then Some (group_cc group) else None) = cc)
    by (subst cc; destruct (group_cc group); reflexivity).
  rewrite Hcc.
  assert (Hsub : buildSubject_ cfg (group_label group)
                   (MergedTotals.ads (Merged.totals merged)
                    + MergedTotals.keywords (Merged.totals merged)
                    + MergedTotals.assets (Merged.totals merged)) (Merged.totals merged)
                 = spec_subject (subject_prefix cfg) (group_label group)
                     (MergedTotals.ads (Merged.totals merged))
                     (MergedTotals.keywords (Merged.totals merged))
                     (MergedTotals.assets (Merged.totals merged)))
    by (destruct (Merged.totals merged); apply buildSubject_spec).
  assert (Hd : forall (b : bool) fmt args,
            deliveries (effects w ++ (if b then [Log fmt args] else [])
                        ++ [ExecuteInParallel (group_condition group)
                              (stringify_context P (group_context cfg group))])
            = deliveries (effects w))
    by (intros b fmt args; rewrite !deliveries_app; destruct b; cbn; now rewrite app_nil_r).
  assert (Hs : forall (b : bool) fmt args,
            subjects (effects w ++ (if b then [Log fmt args] else [])
                      ++ [ExecuteInParallel (group_condition group)
                            (stringify_context P (group_context cfg group))])
            = subjects (effects w))
    by (intros b fmt args; rewrite !subjects_app; destruct b; cbn; now rewrite app_nil_r).
  destruct address as [|a ad] eqn:Ha.
  - cbn [after effects]. split; [apply Hd|]. left. split; reflexivity.
  - rewrite Hm. cbv zeta. rewrite Hsub.
    destruct (PREVIEW P).
    + split; [discriminate|]. cbv beta iota delta [after effects clock_reads].
      rewrite deliveries_app, subjects_app, deliveries_logged, subjects_logged, Hd, Hs.
      cbn. rewrite !app_nil_r. split; reflexivity.
    + destruct (sendEmail P _ _ _ _ _) as [[]|e] eqn:Hsend.
      * split; [discriminate|]. cbv beta iota delta [after effects clock_reads].
        rewrite deliveries_app, subjects_app, deliveries_logged, subjects_logged, Hd, Hs.
        split; reflexivity.
      * cbv beta iota delta [after effects clock_reads].
        rewrite deliveries_logged, Hd. split; [reflexivity|]. right.
        split; [discriminate|]. split; [reflexivity|].
        do 2 eexists. split; [|exact Hsend]. reflexivity.
Qed.

(** X10: When processGroup throws for a group (its aggregation step failed)
    after the groups before it have been processed, main throws the same
    exception in the state that group left, so no later group is processed;
    the failing group's parallel run had already been started. *)
Theorem main_stops_at_first_failure (cfg : Config) (P : Platform)
    (before later : list LabelGroup.t) (group : LabelGroup.t) (w w1 w2 : World) (e : exn) :
  LABEL_RECIPIENTS cfg = before ++ group :: later ->
  main_loop cfg P before w = (w1, Ok tt) ->
  processGroup cfg P group w1 = (w2, Thrown e) ->
  main cfg P w = (w2, Thrown e)
  /\ fanouts (effects w2)
     = fanouts (effects w1)
       ++ [(group_condition group, stringify_context P (group_context cfg group))].
Proof.
  intros Hl Hb Hg. split.
  - unfold main. rewrite Hl.
    destruct (before ++ group :: later) as [|g gs] eqn:Hbl.
    { now destruct before. }
    rewrite <- Hbl, main_loop_app, Hb. cbn [main_loop]. unfold mbind, M_bind. now rewrite Hg.
  - pose proof (processGroup_run cfg P group w1) as Hrun. rewrite Hg in Hrun.
    destruct (group_recipient cfg group) as [|c r] eqn:Hr; [discriminate|].
    match type of Hrun with _ = generateOutput cfg P ?rs ?c ?w' =>
      destruct (generateOutput_adds cfg P rs c w') as (Hf & _) end.
    rewrite <- Hrun in Hf. cbn [fst] in Hf. rewrite Hf. cbn [after effects].
    rewrite !fanouts_app. destruct (LOG_SUMMARY cfg); reflexivity.
Qed.

(** ** The merged report *)

(** Two returning merge loops over outcomes with the same accepted payloads
    build the same report. *)
Lemma merge_loop_accepted (P : Platform) (results results' : list ExecutionResult.t)
    (merged m1 m2 : Merged.t) :
  accepted P results = accepted P results' ->
  merge_loop P results merged = Ok m1 ->
  merge_loop P results' merged = Ok m2 ->
  m1 = m2.
Proof.
  intros Ha H1 H2.
  apply merge_loop_ok in H1 as (Hl1 & Hr1 & Hn1 & Ha1 & Hk1 & Hs1).
  apply merge_loop_ok in H2 as (Hl2 & Hr2 & Hn2 & Ha2 & Hk2 & Hs2).
  rewrite <- Ha in *.
  destruct m1 as [l1 r1 [a1 k1 s1 n1]], m2 as [l2 r2 [a2 k2 s2 n2]]. simpl in *.
  congruence.
Qed.

(** X12: Two lists of worker outcomes with the same accepted payloads (in
    order), none of whose getReturnValue() throws, give the same run of
    generateOutput: outcomes without getReturnValue, with an empty or
    unparseable return value, or whose value parses to null change neither
    the email nor the log. *)
Theorem generateOutput_ignores_outcomes_without_payload (cfg : Config) (P : Platform)
    (results results' : list ExecutionResult.t) (contextStr : jsstring) (w : World) :
  accepted P results = accepted P results' ->
  (forall res, In res results -> ExecutionResult.getReturnValue res <> Raises) ->
  (forall res, In res results' -> ExecutionResult.getReturnValue res <> Raises) ->
  generateOutput cfg P results contextStr w = generateOutput cfg P results' contextStr w.
Proof.
  intros Ha Hr Hr'. rewrite !generateOutput_run.
  destruct (trimmed_or _ _) as [|c r]; [reflexivity|].
  pose proof (merge_loop_outcome P results (merged_init (report_label P contextStr))) as H1.
  pose proof (merge_loop_outcome P results' (merged_init (report_label P contextStr))) as H2.
  destruct (merge_loop P results _) as [m1|e1] eqn:E1.
  2:{ destruct H1 as (_ & res & Hin & Hx). now apply Hr in Hin. }
  destruct (merge_loop P results' _) as [m2|e2] eqn:E2.
  2:{ destruct H2 as (_ & res & Hin & Hx). now apply Hr' in Hin. }
  now rewrite (merge_loop_accepted P results results' _ m1 m2 Ha E1 E2).
Qed.

(** X13: When no worker outcome carries a payload (and no getReturnValue()
    throws), the recipient is non-empty and the run is not a preview,
    generateOutput still hands one email to MailApp.sendEmail: its subject
    ends in NONE (Ads:0, KW:0, Assets:0) and its HTML body is the heading,
    the summary line with four zeros, the note 'No accounts matched the
    label' with the escaped label, and the Sent line.  The run returns with
    that email sent, or it throws what the send of that email threw, with
    no email sent. *)
Theorem generateOutput_reports_no_accounts (cfg : Config) (P : Platform)
    (results : list ExecutionResult.t) (contextStr : jsstring) (w : World) :
  accepted P results = [] ->
  (forall res, In res results -> ExecutionResult.getReturnValue res <> Raises) ->
  trimmed_or (Context.to (read_context P contextStr)) (DEFAULT_TO cfg) <> [] ->
  PREVIEW P = false ->
  let label := report_label P contextStr in
  let recipient := trimmed_or (Context.to (read_context P contextStr)) (DEFAULT_TO cfg) in
  let subject :=
    subject_prefix cfg ++ js " " ++ em_dash ++ js " " ++ label ++ js " " ++ em_dash
    ++ js " NONE (Ads:0, KW:0, Assets:0)" in
  let html :=
    jsq "<div style=`font-family:Arial,Helvetica,sans-serif;font-size:13px;color:#222;`>"
    ++ jsq "<h2 style=`margin:0 0 8px 0;`>" ++ escHtml_ (VStr (SUBJECT_PREFIX cfg))
    ++ js " " ++ em_dash ++ js " " ++ escHtml_ (VStr label) ++ js "</h2>"
    ++ jsq "<p style=`margin:4px 0 12px 0;`>Accounts scanned: <b>0</b> | Ads: <b>0</b> | Keywords: <b>0</b> | Assets: <b>0</b></p>"
    ++ jsq "<p>No accounts matched the label `<b>" ++ escHtml_ (VStr label)
    ++ jsq "</b>`.</p>"
    ++ jsq "<p style=`margin-top:18px;color:#666;font-size:12px;`>Sent "
    ++ toLocaleString P (clock_reads w) ++ js "</p>" ++ js "</div>" in
  match generateOutput cfg P results contextStr w with
  | (w', Ok _) =>
      subjects (effects w') = subjects (effects w) ++ [subject]
      /\ html_bodies (effects w') = html_bodies (effects w) ++ [html]
  | (w', Thrown e) =>
      subjects (effects w') = subjects (effects w)
      /\ html_bodies (effects w') = html_bodies (effects w)
      /\ exists options,
           MailOptions.htmlBody options = html
           /\ sendEmail P w' recipient subject (stripHtml_ html) options = Thrown e
  end.
Proof.
  intros Ha Hr Hrec Hp label recipient subject html. rewrite generateOutput_run.
  fold label. fold recipient. fold recipient in Hrec.
  destruct recipient as [|c r]; [congruence|].
  pose proof (merge_loop_outcome P results (merged_init label)) as H1.
  destruct (merge_loop P results _) as [m|e] eqn:E.
  2:{ destruct H1 as (_ & res & Hin & Hx). now apply Hr in Hin. }
  rewrite (merge_loop_accepted P results [] (merged_init label) m (merged_init label))
    by (assumption || reflexivity).
  cbv zeta. rewrite Hp.
  assert (Hsub : buildSubject_ cfg label
                   (MergedTotals.ads (Merged.totals (merged_init label))
                    + MergedTotals.keywords (Merged.totals (merged_init label))
                    + MergedTotals.assets (Merged.totals (merged_init label)))
                   (Merged.totals (merged_init label)) = subject).
  { subst subject. unfold buildSubject_, subject_prefix, js_or.
    destruct (SUBJECT_PREFIX cfg); cbn [truthy js_String merged_init Merged.totals
      MergedTotals.ads MergedTotals.keywords MergedTotals.assets];
      rewrite <- ?app_assoc; reflexivity. }
  assert (Hhtml : html_body cfg P (merged_init label) label (toLocaleString P (clock_reads w))
                  = html).
  { subst html. unfold html_body, html_report, html_footer. rewrite Hp.
    cbn [merged_init Merged.rows Merged.totals MergedTotals.ads MergedTotals.keywords
         MergedTotals.assets MergedTotals.accounts concat app].
    rewrite <- ?app_assoc. reflexivity. }
  rewrite Hsub, Hhtml.
  destruct (sendEmail P _ _ _ _ _) as [[]|e] eqn:Hsend;
    cbv beta iota delta [after effects clock_reads].
  - rewrite subjects_app, html_bodies_app, subjects_logged, html_bodies_logged.
    split; reflexivity.
  - rewrite subjects_logged, html_bodies_logged.
    split; [reflexivity|]. split; [reflexivity|].
    eexists. split; [|exact Hsend]. reflexivity.
Qed.

(** X14: When every accepted payload's totals equal the lengths of its ads,
    keywords and assets lists, the merged totals that the summary line and
    the subject show equal the numbers of ad, keyword and asset rows over
    all account rows of the report. *)
Theorem merged_totals_match_rows_for_consistent_payloads (P : Platform)
    (results : list ExecutionResult.t) (labelName : jsstring) (merged : Merged.t) :
  merge_loop P results (merged_init labelName) = Ok merged ->
  (forall payload, In payload (accepted P results) ->
     payload_count PayloadTotals.ads payload
       = Z.of_nat (length (or_empty (Payload.ads payload)))
     /\ payload_count PayloadTotals.keywords payload
       = Z.of_nat (length (or_empty (Payload.keywords payload)))
     /\ payload_count PayloadTotals.assets payload
       = Z.of_nat (length (or_empty (Payload.assets payload)))) ->
  MergedTotals.ads (Merged.totals merged)
    = Zsum (List.map (fun row => Z.of_nat (length (Row.ads row))) (Merged.rows merged))
  /\ MergedTotals.keywords (Merged.totals merged)
    = Zsum (List.map (fun row => Z.of_nat (length (Row.keywords row))) (Merged.rows merged))
  /\ MergedTotals.assets (Merged.totals merged)
    = Zsum (List.map (fun row => Z.of_nat (length (Row.assets row))) (Merged.rows merged)).
Proof.
  intros H Hc. apply merge_loop_ok in H as (_ & Hr & _ & Ha & Hk & Hs). simpl in *.
  rewrite Ha, Hk, Hs, Hr, !List.map_map. cbn [row_of Row.ads Row.keywords Row.assets].
  rewrite !Z.add_0_l.
  repeat split; f_equal; apply map_ext_in; intros p Hp; now apply Hc.
Qed.

(** ** Angle brackets of the HTML body *)

Lemma digits_only (d : Decimal.uint) (c : N) :
  In c (js (NilEmpty.string_of_uint d)) -> (48 <= c <= 57)%N.
Proof.
  induction d; simpl; try tauto; intros [<-|H]; try (now apply IHd); vm_compute;
    split; discriminate.
Qed.

(** A number prints as digits, after a minus sign when negative. *)
Lemma num_to_string_chars (n : Z) (c : N) :
  In c (num_to_string n) -> c = 45%N \/ (48 <= c <= 57)%N.
Proof.
  unfold num_to_string, NilZero.string_of_int, NilZero.string_of_uint.
  destruct (Z.to_int n) as [d|d].
  - destruct d; try (intros [<-|[]]; right; vm_compute; split; discriminate);
      intros H; right; eapply digits_only; eassumption.
  - intros [<-|H]; [now left|]. right.
    destruct d; try (destruct H as [<-|[]]; vm_compute; split; discriminate);
      eapply digits_only; eassumption.
Qed.

Lemma count_num (c : N) (n : Z) :
  c = 60%N \/ c = 62%N -> count_occ N.eq_dec (num_to_string n) c = 0%nat.
Proof.
  intros Hc. apply count_occ_not_In. intros H. apply num_to_string_chars in H.
  destruct Hc as [-> | ->]; destruct H as [H|[H1 H2]]; try discriminate;
    vm_compute in H2; now apply H2.
Qed.

Lemma count_esc (c : N) (v : value) :
  c = 60%N \/ c = 62%N -> count_occ N.eq_dec (escHtml_ v) c = 0%nat.
Proof.
  intros [-> | ->]; apply count_occ_not_In; [apply escHtml_no_lt | apply escHtml_no_gt].
Qed.

Lemma count_concat (c : N) (l : list jsstring) :
  count_occ N.eq_dec (concat l) c = list_sum (List.map (fun s => count_occ N.eq_dec s c) l).
Proof.
  induction l as [|s l IH]; [reflexivity|]. simpl. now rewrite count_occ_app, IH.
Qed.

Lemma list_sum_cons (x : nat) (l : list nat) : list_sum (x :: l) = (x + list_sum l)%nat.
Proof. reflexivity. Qed.

Lemma no_bracket (c : N) : c = 60%N \/ c = 62%N -> forall v, ~ In c (escHtml_ v).
Proof. intros [-> | ->] v; [apply escHtml_no_lt | apply escHtml_no_gt]. Qed.

Lemma count_rows {A} (c : N) (cells : A -> list value) (n : nat) (rows : list A) :
  c = 60%N \/ c = 62%N ->
  (forall r, length (cells r) = n) ->
  list_sum (List.map (fun s => count_occ N.eq_dec s c)
              (List.map (fun r => tr_ (cells r)) rows))
  = (length rows * (2 + 2 * n))%nat.
Proof.
  intros Hc Hn. induction rows as [|r rows IH]; [reflexivity|].
  cbn [List.map length]. rewrite list_sum_cons, IH, count_tr, Hn by now apply no_bracket.
  destruct Hc as [-> | ->]; vm_compute count_occ; lia.
Qed.

Lemma count_section {A} (cfg : Config) (c : N) (title thead : jsstring)
    (cells : A -> list value) (n : nat) (rows : list A) :
  c = 60%N \/ c = 62%N ->
  (forall r, length (cells r) = n) ->
  count_occ N.eq_dec (concat (section_ cfg title thead cells rows)) c
  = section_tags (INCLUDE_ZERO_ROW_SECTIONS cfg) (count_occ N.eq_dec thead c) n (length rows).
Proof.
  intros Hc Hn. unfold section_, section_tags, sectionHeader_.
  destruct rows as [|r rows].
  - cbn [length Nat.eqb negb orb]. destruct (INCLUDE_ZERO_ROW_SECTIONS cfg); [|reflexivity].
    cbn [concat]. rewrite !count_occ_app, count_esc, count_num by assumption.
    destruct Hc as [-> | ->]; vm_compute; reflexivity.
  - cbn [length Nat.eqb negb orb].
    rewrite concat_cons, !concat_app, !count_occ_app.
    rewrite (count_concat c (List.map (fun r0 => tr_ (cells r0)) (r :: rows))).
    rewrite (count_rows c cells n (r :: rows) Hc Hn).
    cbn [concat]. rewrite !count_occ_app, count_esc, count_num by assumption.
    cbn [length]. generalize (count_occ N.eq_dec thead c). intros t.
    destruct Hc as [-> | ->]; vm_compute count_occ; lia.
Qed.

Lemma count_account (cfg : Config) (c : N) (row : Row.t) :
  c = 60%N \/ c = 62%N ->
  count_occ N.eq_dec (concat (account_section cfg row)) c
  = account_tags (INCLUDE_ZERO_ROW_SECTIONS cfg) row.
Proof.
  intros Hc. unfold account_section, account_tags.
  cbn [concat]. rewrite !concat_app, !count_occ_app, count_esc by assumption.
  rewrite (count_section cfg c _ _ ad_cells 6), (count_section cfg c _ _ keyword_cells 7),
    (count_section cfg c _ _ asset_cells 5) by (assumption || reflexivity).
  destruct Hc as [-> | ->]; vm_compute count_occ; lia.
Qed.

Lemma count_html_body (cfg : Config) (P : Platform) (merged : Merged.t)
    (labelName stamp : jsstring) (c : N) :
  c = 60%N \/ c = 62%N ->
  count_occ N.eq_dec (html_body cfg P merged labelName stamp) c
  = (report_tags (INCLUDE_ZERO_ROW_SECTIONS cfg) (Merged.rows merged) + 3
     + count_occ N.eq_dec stamp c)%nat.
Proof.
  intros Hc. rewrite html_body_split, !count_occ_app.
  assert (Hrep : count_occ N.eq_dec (concat (html_report cfg merged labelName)) c
                 = report_tags (INCLUDE_ZERO_ROW_SECTIONS cfg) (Merged.rows merged)).
  { unfold html_report, report_tags. rewrite concat_app, count_occ_app.
    cbn [concat]. rewrite !count_occ_app, !count_esc, !count_num by assumption.
    destruct (Merged.rows merged) as [|row rows].
    - cbn [concat]. rewrite !count_occ_app, count_esc by assumption.
      destruct Hc as [-> | ->]; vm_compute; reflexivity.
    - assert (Hrows : forall l,
                count_occ N.eq_dec (concat (flat_map (account_section cfg) l)) c
                = list_sum (List.map (account_tags (INCLUDE_ZERO_ROW_SECTIONS cfg)) l)).
      { induction l as [|x l IH]; [reflexivity|].
        cbn [flat_map List.map]. rewrite list_sum_cons, concat_app, count_occ_app, IH.
        now rewrite count_account. }
      rewrite Hrows. destruct Hc as [-> | ->]; vm_compute count_occ; lia. }
  rewrite Hrep. destruct (PREVIEW P), Hc as [-> | ->]; vm_compute count_occ; lia.
Qed.

(** X16: The number of '<' characters, and of '>' characters, in the HTML
    body depends only on the numbers of ad, keyword and asset rows per
    account, the INCLUDE_ZERO_ROW_SECTIONS setting and the timestamp string:
    no label, account name, count or field value adds an angle bracket to
    the markup. *)
Theorem html_body_markup_is_fixed (cfg : Config) (P : Platform) (merged : Merged.t)
    (labelName stamp : jsstring) :
  count_occ N.eq_dec (html_body cfg P merged labelName stamp) 60%N
  = (report_tags (INCLUDE_ZERO_ROW_SECTIONS cfg) (Merged.rows merged) + 3
     + count_occ N.eq_dec stamp 60%N)%nat
  /\ count_occ N.eq_dec (html_body cfg P merged labelName stamp) 62%N
     = (report_tags (INCLUDE_ZERO_ROW_SECTIONS cfg) (Merged.rows merged) + 3
        + count_occ N.eq_dec stamp 62%N)%nat.
Proof. split; apply count_html_body; auto. Qed.

(** ** The plain-text body *)

(** Text without '<' passes the tag replacement unchanged. *)
Lemma strip_tags_text (s rest : jsstring) :
  ~ In 60%N s -> strip_tags false (s ++ rest) = s ++ strip_tags false rest.
Proof.
  induction s as [|c s IH]; intros H; [reflexivity|].
  cbn [app]. cbn [strip_tags].
  destruct (N.eqb_spec c 60) as [->|Hc]; [exfalso; apply H; now left|].
  f_equal. apply IH. intros Hin. apply H. now right.
Qed.

(** Inside a tag everything up to the first '>' goes. *)
Lemma strip_tags_inside (inside rest : jsstring) :
  ~ In 62%N inside ->
  strip_tags true (inside ++ 62%N :: rest) = strip_tags false rest.
Proof.
  induction inside as [|c s IH]; intros H; [reflexivity|].
  cbn [app strip_tags].
  destruct (N.eqb_spec c 62) as [->|Hc]; [exfalso; apply H; now left|].
  apply IH. intros Hin. apply H. now right.
Qed.

(** A tag, that is '<', at least one character other than '>', and '>',
    becomes one space. *)
Lemma strip_tags_tag (d : N) (inside rest : jsstring) :
  ~ In 62%N (d :: inside) ->
  strip_tags false (60%N :: d :: inside ++ 62%N :: rest) = 32%N :: strip_tags false rest.
Proof.
  intros H. cbn [strip_tags]. cbn [N.eqb Pos.eqb].
  destruct (N.eqb_spec d 62) as [->|Hd]; [exfalso; apply H; now left|].
  assert (He : existsb (N.eqb 62) (inside ++ 62%N :: rest) = true).
  { apply existsb_exists. exists 62%N. split; [apply in_elt | reflexivity]. }
  rewrite He. cbn [negb andb]. f_equal. apply strip_tags_inside.
  intros Hin. apply H. now right.
Qed.

(** A '<' directly before a '>' or without any '>' after it stays. *)
Lemma strip_tags_no_tag (rest : jsstring) :
  (forall d r, rest = d :: r -> d = 62%N \/ ~ In 62%N r) ->
  strip_tags false (60%N :: rest) = 60%N :: strip_tags false rest.
Proof.
  intros H. cbn [strip_tags]. cbn [N.eqb Pos.eqb].
  destruct rest as [|d r]; [reflexivity|].
  destruct (H d r eq_refl) as [->|Hr]; [reflexivity|].
  assert (He : existsb (N.eqb 62) r = false).
  { destruct (existsb (N.eqb 62) r) eqn:E; [|reflexivity].
    apply existsb_exists in E as (x & Hx & Hx'). apply N.eqb_eq in Hx'. now subst x. }
  rewrite He, andb_false_r. reflexivity.
Qed.


Lemma strip_tags_is_tag (t rest : jsstring) :
  is_tag t -> strip_tags false (t ++ rest) = 32%N :: strip_tags false rest.
Proof.
  intros (d & inside & -> & H). cbn [app]. rewrite <- app_assoc. cbn [app].
  now apply strip_tags_tag.
Qed.

(** The tags of a table row are tags. *)
Ltac tag_constant :=
  match goal with
  | |- is_tag ?t =>
      let t' := eval vm_compute in t in
      match t' with
      | 60%N :: ?d :: ?r => exists d, (removelast r)
      end;
      split; [vm_compute; reflexivity | vm_compute; intuition discriminate]
  end.

Lemma row_tags :
  is_tag tr_open /\ is_tag (js "</tr>") /\ is_tag (js "</td>")
  /\ is_tag (jsq "<td style=`vertical-align:top;border-top:1px solid #eee;`>").
Proof. repeat split; tag_constant. Qed.

Lemma strip_tags_cells (cells : list value) (rest : jsstring) :
  strip_tags false (concat (List.map td_ cells) ++ rest)
  = flat_map (fun v => 32%N :: escHtml_ v ++ [32%N]) cells ++ strip_tags false rest.
Proof.
  destruct row_tags as (_ & _ & Hclose & Hopen).
  induction cells as [|v cells IH]; [reflexivity|].
  cbn [List.map concat flat_map]. unfold td_ at 1. rewrite <- !app_assoc.
  rewrite (strip_tags_is_tag _ _ Hopen). rewrite strip_tags_text by apply escHtml_no_lt.
  rewrite (strip_tags_is_tag _ _ Hclose), IH. cbn [app]. now rewrite <- app_assoc.
Qed.

(** X17: Removing the tags of a table row built from td_ cells leaves
    exactly the escaped cell texts, each between two spaces, inside one more
    pair of spaces: the plain-text body loses no cell content, whatever
    characters the cells hold, and stripHtml_ of the row is that text with
    white space collapsed and trimmed. *)
Theorem stripHtml_keeps_escaped_cells (cells : list value) :
  strip_tags false (tr_ cells)
  = 32%N :: flat_map (fun v => 32%N :: escHtml_ v ++ [32%N]) cells ++ [32%N]
  /\ stripHtml_ (tr_ cells)
     = trim (squeeze_spaces false
               (32%N :: flat_map (fun v => 32%N :: escHtml_ v ++ [32%N]) cells ++ [32%N])).
Proof.
  destruct row_tags as (Htr & Hctr & _ & _).
  assert (H : strip_tags false (tr_ cells)
              = 32%N :: flat_map (fun v => 32%N :: escHtml_ v ++ [32%N]) cells ++ [32%N]).
  { unfold tr_. rewrite (strip_tags_is_tag _ _ Htr), strip_tags_cells.
    rewrite <- (app_nil_r (js "</tr>")), (strip_tags_is_tag _ _ Hctr). reflexivity. }
  split; [assumption|]. unfold stripHtml_. now rewrite H.
Qed.

(** What [\s+ -> ' '] leaves. *)
Lemma squeeze_single_spaced (b : bool) (s : jsstring) :
  single_spaced b (squeeze_spaces b s) = true.
Proof.
  revert b. induction s as [|c s IH]; intros b; [reflexivity|].
  cbn [squeeze_spaces]. destruct (is_space c) eqn:Hc.
  - destruct b; [apply IH|]. cbn [single_spaced].
    change (is_space 32) with true. cbn. apply IH.
  - cbn [single_spaced]. rewrite Hc. apply IH.
Qed.

Lemma single_spaced_props (s : jsstring) : forall b,
  single_spaced b s = true ->
  (forall c, In c s -> is_space c = true -> c = 32%N)
  /\ (forall l1 x y l2, s = l1 ++ x :: y :: l2 -> is_space x = true -> is_space y = false)
  /\ (b = true -> forall c r, s = c :: r -> is_space c = false).
Proof.
  induction s as [|c s IH]; intros b H.
  - split; [intros c []|]. split; [intros [|? ?] ? ? ? [=] | intros _ ? ? [=]].
  - cbn [single_spaced] in H. destruct (is_space c) eqn:Hc.
    + apply andb_prop in H as (H & Hs). apply andb_prop in H as (Hb & H32).
      apply N.eqb_eq in H32. subst c. destruct b; [discriminate|].
      destruct (IH true Hs) as (Hm & Ha & Hh). split; [|split].
      * intros x [<-|Hx] Hsp; [reflexivity | now apply Hm].
      * intros [|z l1] x y l2 Heq Hx.
        -- injection Heq as <- Hs'. apply (Hh eq_refl y l2 Hs').
        -- injection Heq as _ Hs'. eapply Ha; eassumption.
      * discriminate.
    + destruct (IH false H) as (Hm & Ha & _). split; [|split].
      * intros x [<-|Hx] Hsp; [congruence | now apply Hm].
      * intros [|z l1] x y l2 Heq Hx.
        -- injection Heq as <- _. congruence.
        -- injection Heq as _ Hs'. eapply Ha; eassumption.
      * intros _ x r [= <- _]. assumption.
Qed.

(** A trimmed string sits inside the string it was trimmed from. *)
Lemma trim_infix (s : jsstring) : exists p q, s = p ++ trim s ++ q.
Proof.
  destruct (trimStart_split s) as (p & Hp & _).
  destruct (trimStart_split (rev (trimStart s))) as (q & Hq & _).
  exists p, (rev q). unfold trim, trimEnd. rewrite <- rev_app_distr, <- Hq, rev_involutive.
  exact Hp.
Qed.

(** X18: For every input, the result of stripHtml_ neither starts nor ends
    with white space, contains no white-space character other than the
    space, and never has two white-space characters in a row. *)
Theorem stripHtml_is_whitespace_normal (html : jsstring) :
  (forall c r, stripHtml_ html = c :: r -> is_space c = false)
  /\ (forall r c, stripHtml_ html = r ++ [c] -> is_space c = false)
  /\ (forall c, In c (stripHtml_ html) -> is_space c = true -> c = 32%N)
  /\ (forall l1 x y l2, stripHtml_ html = l1 ++ x :: y :: l2 ->
        is_space x = true -> is_space y = false).
Proof.
  unfold stripHtml_. set (u := squeeze_spaces false (strip_tags false html)).
  destruct (single_spaced_props u false (squeeze_single_spaced false _)) as (Hm & Ha & _).
  destruct (trim_infix u) as (p & q & Hu).
  split; [|split; [|split]].
  - intros c r H. eapply trimStart_head. rewrite trim_start_fixed. eassumption.
  - intros r c H. eapply (trimStart_head (rev (trim u))).
    rewrite trim_end_fixed, H, rev_app_distr. reflexivity.
  - intros c Hin. apply Hm. rewrite Hu. apply in_or_app. right. apply in_or_app. now left.
  - intros l1 x y l2 H. apply (Ha (p ++ l1) x y (l2 ++ q)).
    rewrite Hu at 1. rewrite H, <- !app_assoc. reflexivity.
Qed.

(** ** Scans, labels and the fan-out *)

Lemma scan_completed {A R} (selector : call (feed A)) (step : A -> result (option R)) :
  snd (scan selector step) = Completed <-> runs_through selector step.
Proof.
  unfold scan, runs_through. destruct selector as [| |f]; simpl.
  - split; [discriminate | intros (f & [=] & _)].
  - split; [discriminate | intros (f & [=] & _)].
  - rewrite drain_completed. split.
    + intros (Hi & Hy). eauto.
    + intros (f' & [= <-] & Hi & Hy). split; assumption.
Qed.

Lemma scanned_runs_through {A R} (selector : call (feed A)) (step : A -> result (option R)) :
  runs_through selector step -> scanned selector step = handed_out selector.
Proof.
  intros (f & -> & _ & Hy). simpl. now apply processed_all.
Qed.

(** X5: When a category's scan runs to its end (the selector returns an
    iterator that ends without throwing and no loop body throws), the list
    getStats returns for that category holds the records of exactly the
    entities the iterator handed out that pass the filter, in order, and the
    category's total is their number. *)
Theorem getStats_counts_passing_entities_of_complete_scans (cfg : Config)
    (acct : Account.t) (out : ScanResult.t) (logs : list effect) :
  getStats_out cfg acct = Ok (out, logs) ->
  (runs_through (Account.ads acct (MAX_ROWS_PER_SECTION cfg)) ad_step ->
     List.map Ok (ScanResult.ads out)
       = List.map ad_record
           (List.filter ad_passes (handed_out (Account.ads acct (MAX_ROWS_PER_SECTION cfg))))
     /\ Totals.ads (ScanResult.totals out)
        = Z.of_nat (length (List.filter ad_passes
                     (handed_out (Account.ads acct (MAX_ROWS_PER_SECTION cfg))))))
  /\ (runs_through (Account.keywords acct (MAX_ROWS_PER_SECTION cfg)) keyword_step ->
     List.map Ok (ScanResult.keywords out)
       = List.map keyword_record
           (List.filter keyword_passes
              (handed_out (Account.keywords acct (MAX_ROWS_PER_SECTION cfg))))
     /\ Totals.keywords (ScanResult.totals out)
        = Z.of_nat (length (List.filter keyword_passes
                     (handed_out (Account.keywords acct (MAX_ROWS_PER_SECTION cfg))))))
  /\ (runs_through (Account.assets acct (MAX_ROWS_PER_SECTION cfg)) asset_step ->
     ScanResult.assets out
       = List.map asset_record
           (List.filter asset_passes
              (handed_out (Account.assets acct (MAX_ROWS_PER_SECTION cfg))))
     /\ Totals.assets (ScanResult.totals out)
        = Z.of_nat (length (List.filter asset_passes
                     (handed_out (Account.assets acct (MAX_ROWS_PER_SECTION cfg)))))).
Proof.
  intros H.
  destruct (getStats_totals_when_scans_complete cfg acct out logs H) as (Ta & Tk & Ts).
  apply getStats_out_lists in H as (Ha & Hk & Hs).
  split; [|split].
  - intros Hrun. pose proof Hrun as (f & Hf & _ & Hy).
    assert (Hl : List.map Ok (ScanResult.ads out)
                 = List.map ad_record (List.filter ad_passes
                     (handed_out (Account.ads acct (MAX_ROWS_PER_SECTION cfg))))).
    { rewrite Ha, scanned_runs_through by assumption. apply pushed_ads.
      rewrite Hf. exact Hy. }
    split; [assumption|]. rewrite Ta by now apply scan_completed.
    apply (f_equal (@length _)) in Hl. rewrite !length_map in Hl. now rewrite Hl.
  - intros Hrun. pose proof Hrun as (f & Hf & _ & Hy).
    assert (Hl : List.map Ok (ScanResult.keywords out)
                 = List.map keyword_record (List.filter keyword_passes
                     (handed_out (Account.keywords acct (MAX_ROWS_PER_SECTION cfg))))).
    { rewrite Hk, scanned_runs_through by assumption. apply pushed_keywords.
      rewrite Hf. exact Hy. }
    split; [assumption|]. rewrite Tk by now apply scan_completed.
    apply (f_equal (@length _)) in Hl. rewrite !length_map in Hl. now rewrite Hl.
  - intros Hrun.
    assert (Hl : ScanResult.assets out
                 = List.map asset_record (List.filter asset_passes
                     (handed_out (Account.assets acct (MAX_ROWS_PER_SECTION cfg)))))
      by (now rewrite Hs, scanned_runs_through, pushed_assets).
    split; [assumption|]. rewrite Ts by now apply scan_completed.
    now rewrite Hl, length_map.
Qed.

(** What the [catch] clause of a category logs: nothing when the scan runs
    to its end, one entry with the exception otherwise. *)
Lemma scan_log_shape {A R} (fmt : jsstring) (selector : call (feed A))
    (step : A -> result (option R)) :
  (runs_through selector step /\ scan_log fmt (scan selector step) = [])
  \/ (~ runs_through selector step
      /\ exists e, scan_log fmt (scan selector step) = [Log fmt [LogExn e]]).
Proof.
  rewrite <- scan_completed. unfold scan_log.
  destruct (snd (scan selector step)) as [|e]; [left | right].
  - split; reflexivity.
  - split; [discriminate | eauto].
Qed.

(** X6: getStats returns if and only if the account's name and customer id
    can be read; when it returns, it returns the JSON text of its result,
    and what it logs is exactly this: one 'Ad scan error' entry when the ads
    scan did not run to its end, then one 'Keyword scan error' entry when
    the keywords scan did not run to its end, and nothing else (an aborted
    assets scan is silent); the total of every aborted scan is 0. *)
Theorem getStats_logs_exactly_the_aborted_scans (cfg : Config) (P : Platform)
    (acct : Account.t) :
  ((exists s, getStats cfg P acct = Ok s) <->
   (exists nm cid, Account.getName acct = Gives nm /\ Account.getCustomerId acct = Gives cid))
  /\ forall out logs,
       getStats_out cfg acct = Ok (out, logs) ->
       getStats cfg P acct = Ok (stringify_result P out)
       /\ (exists ad_log kw_log,
             logs = ad_log ++ kw_log
             /\ ((runs_through (Account.ads acct (MAX_ROWS_PER_SECTION cfg)) ad_step
                  /\ ad_log = [])
                 \/ (~ runs_through (Account.ads acct (MAX_ROWS_PER_SECTION cfg)) ad_step
                     /\ exists e, ad_log = [Log (js "Ad scan error: %s") [LogExn e]]))
             /\ ((runs_through (Account.keywords acct (MAX_ROWS_PER_SECTION cfg))
                    keyword_step
                  /\ kw_log = [])
                 \/ (~ runs_through (Account.keywords acct (MAX_ROWS_PER_SECTION cfg))
                         keyword_step
                     /\ exists e,
                          kw_log = [Log (js "Keyword scan error: %s") [LogExn e]])))
       /\ ((exists e, In (Log (js "Ad scan error: %s") [LogExn e]) logs) <->
           ~ runs_through (Account.ads acct (MAX_ROWS_PER_SECTION cfg)) ad_step)
       /\ ((exists e, In (Log (js "Keyword scan error: %s") [LogExn e]) logs) <->
           ~ runs_through (Account.keywords acct (MAX_ROWS_PER_SECTION cfg)) keyword_step)
       /\ (length logs <= 2)%nat
       /\ (~ runs_through (Account.ads acct (MAX_ROWS_PER_SECTION cfg)) ad_step ->
           Totals.ads (ScanResult.totals out) = 0)
       /\ (~ runs_through (Account.keywords acct (MAX_ROWS_PER_SECTION cfg)) keyword_step ->
           Totals.keywords (ScanResult.totals out) = 0)
       /\ (~ runs_through (Account.assets acct (MAX_ROWS_PER_SECTION cfg)) asset_step ->
           Totals.assets (ScanResult.totals out) = 0).
Proof.
  unfold getStats, getStats_out.
  destruct (Account.getName acct) as [| |nm]; simpl;
    try (split; [split; [intros [s [=]] | intros (nm & cid & [=] & _)] | intros out logs [=]]).
  destruct (Account.getCustomerId acct) as [| |cid]; simpl;
    try (split; [split; [intros [s [=]] | intros (nm' & cid & _ & [=])] | intros out logs [=]]).
  split; [split; eauto|].
  intros out logs [= <- <-]. split; [reflexivity|].
  split; [do 2 eexists; split; [reflexivity|]; split; apply scan_log_shape|].
  cbn [ScanResult.totals Totals.ads Totals.keywords Totals.assets].
  rewrite <- !scan_completed. unfold scan_log, total_after.
  destruct (snd (scan (Account.ads acct _) ad_step)) as [|ea];
    destruct (snd (scan (Account.keywords acct _) keyword_step)) as [|ek];
    destruct (snd (scan (Account.assets acct _) asset_step)) as [|es];
    cbn [app In length];
    repeat match goal with
           | |- _ /\ _ => split
           | |- _ <-> _ => split
           | |- (_ <= _)%nat => lia
           | |- ~ _ -> _ => intros Hn; try reflexivity; exfalso; apply Hn; reflexivity
           | |- (exists _, _) -> _ =>
               intros (e & Hin);
               repeat (destruct Hin as [Hin|Hin]; [try discriminate Hin|]);
               try destruct Hin; try (intros Hc; discriminate Hc)
           | |- _ -> exists _, _ =>
               intros Hn; first [ eexists; left; reflexivity
                                | eexists; right; left; reflexivity
                                | exfalso; apply Hn; reflexivity ]
           end.
  all: try (intros Hc; discriminate Hc).
Qed.

Lemma replace_all_quotes_escaped (label : jsstring) : forall b,
  quotes_escaped b (replace_all 39 (js "\'") label) = true.
Proof.
  induction label as [|c label IH]; intros b; [reflexivity|].
  unfold replace_all. cbn [flat_map]. fold (replace_all 39 (js "\'") label).
  destruct (N.eqb_spec c 39) as [->|Hc].
  - change (js "\'" ++ replace_all 39 (js "\'") label)
      with (92%N :: 39%N :: replace_all 39 (js "\'") label).
    cbn [quotes_escaped]. change (N.eqb 92 39) with false. change (N.eqb 92 92) with true.
    change (N.eqb 39 39) with true. change (N.eqb 39 92) with false. cbn. apply IH.
  - cbn [app quotes_escaped]. apply N.eqb_neq in Hc. rewrite Hc. cbn. apply IH.
Qed.

Lemma replace_all_absent_id (c : N) (rep s : jsstring) :
  ~ In c s -> replace_all c rep s = s.
Proof.
  induction s as [|x s IH]; intros H; [reflexivity|].
  unfold replace_all. cbn [flat_map]. fold (replace_all c rep s).
  destruct (N.eqb_spec x c) as [->|Hx]; [exfalso; apply H; now left|].
  cbn [app]. f_equal. apply IH. intros Hin. apply H. now right.
Qed.

Lemma replace_all_app (c : N) (rep s t : jsstring) :
  replace_all c rep (s ++ t) = replace_all c rep s ++ replace_all c rep t.
Proof. apply flat_map_app. Qed.

(** X19: For a group that is not skipped, the one parallel run processGroup
    starts has the condition LabelNames CONTAINS_ANY ['<escaped>'], where in
    <escaped> every apostrophe is preceded by a backslash and which is the
    label itself when the label has no apostrophe; backslashes are not
    escaped, so for a label that ends in a backslash the condition ends in
    backslash, apostrophe, bracket. *)
Theorem processGroup_escapes_quotes_only (cfg : Config) (P : Platform)
    (group : LabelGroup.t) (w : World) :
  group_skipped cfg group = false ->
  exists escaped ctx,
    fanouts (effects (fst (processGroup cfg P group w)))
    = fanouts (effects w) ++ [(js "LabelNames CONTAINS_ANY ['" ++ escaped ++ js "']", ctx)]
    /\ quotes_escaped false escaped = true
    /\ (~ In 39%N (group_label group) -> escaped = group_label group)
    /\ (forall l, group_label group = l ++ [92%N] ->
          exists before,
            js "LabelNames CONTAINS_ANY ['" ++ escaped ++ js "']"
            = before ++ [92%N; 39%N; 93%N]).
Proof.
  intros Hskip.
  exists (replace_all 39 (js "\'") (group_label group)),
         (stringify_context P (group_context cfg group)).
  split; [|split; [apply replace_all_quotes_escaped|split; [apply replace_all_absent_id|]]].
  - rewrite processGroup_run.
    destruct (group_recipient cfg group) as [|c r] eqn:Hr.
    { apply group_recipient_nil in Hr. congruence. }
    match goal with |- context [generateOutput cfg P ?rs ?c ?w'] =>
      destruct (generateOutput_adds cfg P rs c w') as (Hf & _) end.
    rewrite Hf. cbn [after effects]. rewrite !fanouts_app.
    destruct (LOG_SUMMARY cfg); reflexivity.
  - intros l Hl. rewrite Hl, replace_all_app.
    exists (js "LabelNames CONTAINS_ANY ['" ++ replace_all 39 (js "\'") l).
    rewrite <- !app_assoc. reflexivity.
Qed.

(** With a host whose JSON functions take each returned result to its
    payload, the fan-out's outcomes are accepted as those payloads. *)
Lemma accepted_worker_outcomes (cfg : Config) (P : Platform) (accts : list Account.t) :
  (forall out, In out (returned cfg accts) ->
     parse_result P (stringify_result P out) = Ok (Some (payload_of out))) ->
  accepted P (List.map (worker_outcome cfg P) accts)
  = List.map payload_of (returned cfg accts).
Proof.
  induction accts as [|a accts IH]; intros H; [reflexivity|].
  unfold accepted, returned in *. cbn [List.map flat_map] in *.
  rewrite List.map_app, <- IH by (intros out Hin; apply H, in_or_app; now right).
  f_equal. unfold worker_outcome, getStats. cbn [ExecutionResult.getReturnValue].
  destruct (getStats_out cfg a) as [[out logs]|e] eqn:Ho; cbn; [|reflexivity].
  rewrite H by (apply in_or_app; left; now left). reflexivity.
Qed.

(** X15: When the host's JSON functions take every returned worker result
    back to its fields, merging the outcomes of getStats over the selected
    accounts (a worker that threw counts as an outcome with a null return
    value) never throws and gives one row per worker that returned, in
    account order, with that worker's records; the account count is the
    number of those workers and each merged total is the sum of their
    totals. *)
Theorem fanout_merges_what_the_workers_returned (cfg : Config) (P : Platform)
    (accts : list Account.t) (labelName : jsstring) :
  (forall out, In out (returned cfg accts) ->
     parse_result P (stringify_result P out) = Ok (Some (payload_of out))) ->
  exists merged,
    merge_loop P (List.map (worker_outcome cfg P) accts) (merged_init labelName) = Ok merged
    /\ MergedTotals.accounts (Merged.totals merged) = Z.of_nat (length (returned cfg accts))
    /\ MergedTotals.ads (Merged.totals merged)
       = Zsum (List.map (fun out => Totals.ads (ScanResult.totals out)) (returned cfg accts))
    /\ MergedTotals.keywords (Merged.totals merged)
       = Zsum (List.map (fun out => Totals.keywords (ScanResult.totals out))
                 (returned cfg accts))
    /\ MergedTotals.assets (Merged.totals merged)
       = Zsum (List.map (fun out => Totals.assets (ScanResult.totals out))
                 (returned cfg accts))
    /\ Merged.rows merged
       = List.map (fun out =>
           {| Row.account := VStr (ScanResult.account out);
              Row.ads := List.map ad_row_of (ScanResult.ads out);
              Row.keywords := List.map keyword_row_of (ScanResult.keywords out);
              Row.assets := List.map asset_row_of (ScanResult.assets out) |})
           (returned cfg accts).
Proof.
  intros H. destruct (merge_loop_worker_outcomes cfg P accts (merged_init labelName))
    as (merged & Hm).
  exists merged. split; [assumption|].
  apply merge_loop_ok in Hm as (_ & Hr & Hn & Ha & Hk & Hs).
  rewrite accepted_worker_outcomes in * by assumption. cbn [merged_init Merged.rows
    Merged.totals MergedTotals.ads MergedTotals.keywords MergedTotals.assets
    MergedTotals.accounts] in *.
  rewrite Hn, Ha, Hk, Hs, Hr, !List.map_map, length_map, !Z.add_0_l.
  repeat split.
Qed.

(** ** Escaping, and the Sent line *)

Lemma flat_map_flat_map {A B C} (f : A -> list B) (g : B -> list C) (l : list A) :
  flat_map g (flat_map f l) = flat_map (fun x => flat_map g (f x)) l.
Proof.
  induction l as [|x l IH]; [reflexivity|].
  cbn [flat_map]. now rewrite flat_map_app, IH.
Qed.

(** The three replacements amount to one pass over the characters. *)
Lemma escHtml_one_pass (s : jsstring) : escHtml_ (VStr s) = flat_map esc_char s.
Proof.
  unfold escHtml_, replace_all. cbn [js_String]. rewrite !flat_map_flat_map.
  apply flat_map_ext. intros c. unfold esc_char.
  destruct (N.eqb_spec c 38) as [Heq|H38]; [subst c; reflexivity|].
  cbn [flat_map app].
  destruct (N.eqb_spec c 60) as [Heq|H60]; [subst c; reflexivity|].
  cbn [flat_map app].
  destruct (N.eqb_spec c 62) as [Heq|H62]; [subst c; reflexivity|].
  reflexivity.
Qed.

Lemma unescape_esc_char (c : N) (s : jsstring) :
  fold_right unescape_step s (esc_char c) = c :: s.
Proof.
  unfold esc_char.
  destruct (N.eqb_spec c 38) as [Heq|H38]; [subst c; reflexivity|].
  destruct (N.eqb_spec c 60) as [Heq|H60]; [subst c; reflexivity|].
  destruct (N.eqb_spec c 62) as [Heq|H62]; [subst c; reflexivity|].
  cbn [fold_right]. unfold unescape_step.
  destruct (N.eqb_spec c 38); [contradiction|reflexivity].
Qed.

Lemma unescape_flat_map (s : jsstring) : unescape (flat_map esc_char s) = s.
Proof.
  unfold unescape. induction s as [|c s IH]; [reflexivity|].
  cbn [flat_map]. rewrite fold_right_app, IH. apply unescape_esc_char.
Qed.

(** X20: On a string, escHtml_ replaces each '&', '<' and '>' by '&amp;',
    '&lt;' and '&gt;' once and leaves every other character as it is (the
    ampersands of the entities it writes are not escaped again); reading the
    three entities back recovers the string, so different strings are
    escaped to different texts, and the escaped text is never shorter than
    the string. *)
Theorem escHtml_escapes_each_character_once (s : jsstring) :
  escHtml_ (VStr s) = flat_map esc_char s
  /\ unescape (escHtml_ (VStr s)) = s
  /\ (forall t, escHtml_ (VStr s) = escHtml_ (VStr t) -> s = t)
  /\ (length s <= length (escHtml_ (VStr s)))%nat.
Proof.
  split; [apply escHtml_one_pass|].
  split; [rewrite escHtml_one_pass; apply unescape_flat_map|].
  split.
  - intros t H. rewrite <- (unescape_flat_map s), <- (unescape_flat_map t),
      <- !escHtml_one_pass. now rewrite H.
  - rewrite escHtml_one_pass. induction s as [|c s IH]; [reflexivity|].
    cbn [flat_map]. rewrite length_app. cbn [length].
    assert (1 <= length (esc_char c))%nat; [|lia].
    unfold esc_char. repeat (destruct (N.eqb _ _)); cbn; lia.
Qed.

(** A piece pushed onto [html] is part of the joined text. *)
Lemma concat_infix {A} (x : list A) (l : list (list A)) :
  In x l -> exists pre post, concat l = pre ++ x ++ post.
Proof.
  intros H. apply in_split in H as (l1 & l2 & ->).
  exists (concat l1), (concat l2). rewrite concat_app. reflexivity.
Qed.

(** Every row of a category's list is rendered by [tr_] in its table. *)
Lemma section_row {A} (cfg : Config) (title thead : jsstring) (cells : A -> list value)
    (rows : list A) (r : A) :
  In r rows -> In (tr_ (cells r)) (section_ cfg title thead cells rows).
Proof.
  intros H. unfold section_. destruct rows as [|r0 rows]; [destruct H|].
  cbn [length Nat.eqb negb orb]. right. apply in_or_app. right.
  apply in_or_app. left. apply (in_map (fun r => tr_ (cells r))). exact H.
Qed.

(** What is pushed for an account of the report is part of the body. *)
Lemma html_body_piece (cfg : Config) (P : Platform) (merged : Merged.t)
    (labelName stamp : jsstring) (row : Row.t) (piece : jsstring) :
  In row (Merged.rows merged) -> In piece (account_section cfg row) ->
  exists pre post, html_body cfg P merged labelName stamp = pre ++ piece ++ post.
Proof.
  intros Hrow Hpiece. apply concat_infix. apply in_or_app. left.
  unfold html_report. apply in_or_app. right.
  destruct (Merged.rows merged) as [|r0 rows] eqn:Hrows; [destruct Hrow|].
  apply in_flat_map. exists row. split; assumption.
Qed.

(** C9: [escHtml_] returns a string without '<' (code unit 60) and without
    '>' (62), and the empty string for null and undefined; on a string it
    writes [&amp;], [&lt;] and [&gt;] for the three characters and every
    other character as it is.  Every field of every ad, keyword and asset
    row of the merged report is rendered into the HTML body through
    [escHtml_]: the body holds, for each such row, the table row whose cells
    are the escaped fields in the order of the columns, and the body as a
    whole holds exactly the angle brackets of its markup and of the
    timestamp, whatever the fields are.  A table row built by [tr_] is such
    an escaped row, with two angle brackets for the row and two for each
    cell. *)
Theorem escHtml_leaves_no_angle_bracket :
  (forall v, ~ In 60%N (escHtml_ v) /\ ~ In 62%N (escHtml_ v))
  /\ escHtml_ VNull = [] /\ escHtml_ VUndefined = []
  /\ (forall s, escHtml_ (VStr s) = flat_map esc_char s)
  /\ (forall cells,
        tr_ cells
        = tr_open
          ++ concat (List.map (fun v =>
               jsq "<td style=`vertical-align:top;border-top:1px solid #eee;`>"
               ++ escHtml_ v ++ js "</td>") cells)
          ++ js "</tr>")
  /\ (forall (ad : AdRow.t),
        count_occ N.eq_dec (tr_ (ad_cells ad)) 60%N = 14%nat
        /\ count_occ N.eq_dec (tr_ (ad_cells ad)) 62%N = 14%nat)
  /\ (forall (kw : KeywordRow.t),
        count_occ N.eq_dec (tr_ (keyword_cells kw)) 60%N = 16%nat
        /\ count_occ N.eq_dec (tr_ (keyword_cells kw)) 62%N = 16%nat)
  /\ (forall (a : AssetRow.t),
        count_occ N.eq_dec (tr_ (asset_cells a)) 60%N = 12%nat
        /\ count_occ N.eq_dec (tr_ (asset_cells a)) 62%N = 12%nat)
  /\ (forall (cfg : Config) (P : Platform) (merged : Merged.t) (labelName stamp : jsstring),
        let html := html_body cfg P merged labelName stamp in
        (forall row, In row (Merged.rows merged) ->
           (forall ad, In ad (Row.ads row) ->
              exists pre post,
                html = pre
                  ++ escaped_row
                       [ AdRow.type ad; AdRow.campaign ad; AdRow.adGroup ad;
                         AdRow.status ad; joined (js ", ") (AdRow.topics ad);
                         joined (js "; ") (AdRow.reasons ad) ]
                  ++ post)
           /\ (forall kw, In kw (Row.keywords row) ->
              exists pre post,
                html = pre
                  ++ escaped_row
                       [ KeywordRow.text kw; KeywordRow.matchType kw;
                         KeywordRow.campaign kw; KeywordRow.adGroup kw;
                         KeywordRow.status kw; joined (js ", ") (KeywordRow.topics kw);
                         joined (js "; ") (KeywordRow.reasons kw) ]
                  ++ post)
           /\ (forall a, In a (Row.assets row) ->
              exists pre post,
                html = pre
                  ++ escaped_row
                       [ AssetRow.assetType a; AssetRow.name a; AssetRow.status a;
                         joined (js ", ") (AssetRow.topics a);
                         joined (js "; ") (AssetRow.reasons a) ]
                  ++ post))
        /\ count_occ N.eq_dec html 60%N
           = (report_tags (INCLUDE_ZERO_ROW_SECTIONS cfg) (Merged.rows merged) + 3
              + count_occ N.eq_dec stamp 60%N)%nat
        /\ count_occ N.eq_dec html 62%N
           = (report_tags (INCLUDE_ZERO_ROW_SECTIONS cfg) (Merged.rows merged) + 3
              + count_occ N.eq_dec stamp 62%N)%nat).
Proof.
  split; [intros v; split; [apply escHtml_no_lt | apply escHtml_no_gt]|].
  do 2 (split; [reflexivity|]).
  split; [apply escHtml_one_pass|].
  split; [reflexivity|].
  do 3 (split; [intros x; split;
                rewrite count_tr by (first [apply escHtml_no_lt | apply escHtml_no_gt]);
                vm_compute; reflexivity|]).
  intros cfg P merged labelName stamp html. subst html.
  split; [|split; apply count_html_body; auto].
  intros row Hrow. split; [|split].
  - intros ad Had. change (escaped_row _) with (tr_ (ad_cells ad)).
    apply (html_body_piece cfg P merged labelName stamp row _ Hrow).
    right. apply in_or_app. left. now apply section_row.
  - intros kw Hkw. change (escaped_row _) with (tr_ (keyword_cells kw)).
    apply (html_body_piece cfg P merged labelName stamp row _ Hrow).
    right. apply in_or_app. right. apply in_or_app. left. now apply section_row.
  - intros a Ha. change (escaped_row _) with (tr_ (asset_cells a)).
    apply (html_body_piece cfg P merged labelName stamp row _ Hrow).
    right. apply in_or_app. right. apply in_or_app. right. now apply section_row.
Qed.

(** A row with markup in a field and a null field. *)
Example escaped_row_of_markup :
  escaped_row [VStr (js "<b>A&B</b>"); VNull]
  = jsq "<tr style=`border-top:1px solid #eee;`>"
    ++ jsq "<td style=`vertical-align:top;border-top:1px solid #eee;`>"
    ++ js "&lt;b&gt;A&amp;B&lt;/b&gt;</td>"
    ++ jsq "<td style=`vertical-align:top;border-top:1px solid #eee;`></td>"
    ++ js "</tr>".
Proof. vm_compute. reflexivity. Qed.

(** X21: No email that generateOutput sends carries the '(PREVIEW MODE ...)'
    note of the Sent line: a run either sends no email (in preview mode, or
    when it throws), or it is not a preview, returns, and sends one email
    whose HTML body ends with 'Sent ', the locale timestamp of the run's
    clock reading and the closing '</p></div>'. *)
Theorem generateOutput_sends_no_preview_note (cfg : Config) (P : Platform)
    (results : list ExecutionResult.t) (contextStr : jsstring) (w : World) :
  html_bodies (effects (fst (generateOutput cfg P results contextStr w)))
    = html_bodies (effects w)
  \/ (PREVIEW P = false
      /\ snd (generateOutput cfg P results contextStr w) = Ok tt
      /\ exists before,
           html_bodies (effects (fst (generateOutput cfg P results contextStr w)))
           = html_bodies (effects w)
             ++ [before ++ js "Sent " ++ toLocaleString P (clock_reads w)
                 ++ js "</p></div>"]).
Proof.
  rewrite generateOutput_run.
  destruct (trimmed_or _ _) as [|c r]; [now left|].
  destruct (merge_loop P results _) as [merged|e]; [|now left].
  cbv zeta. destruct (PREVIEW P) eqn:Hp.
  - left. cbv beta iota delta [fst after effects].
    rewrite html_bodies_app, html_bodies_logged. cbn. apply app_nil_r.
  - destruct (sendEmail P _ _ _ _ _) as [[]|e].
    + right. split; [reflexivity|]. split; [reflexivity|].
      exists (concat (html_report cfg merged (report_label P contextStr))
              ++ jsq "<p style=`margin-top:18px;color:#666;font-size:12px;`>").
      cbv beta iota delta [fst after effects].
      rewrite html_bodies_app, html_bodies_logged.
      cbn [html_bodies flat_map MailOptions.htmlBody app]. do 2 f_equal.
      rewrite html_body_split, Hp. rewrite <- !app_assoc. reflexivity.
    + left. cbv beta iota delta [fst effects]. apply html_bodies_logged.
Qed.

(** ** Witnesses *)

(** Witness of X4: the theorem at [account_mixed]. *)
Lemma getStats_never_lists_approved_witness :
  getStats_out CONFIG account_mixed = Ok (out_mixed, [])
  /\ (forall r, In r (ScanResult.ads out_mixed) ->
        js_String (AdRecord.status r) <> js "APPROVED"
        /\ List.NoDup (AdRecord.topics r) /\ List.NoDup (AdRecord.reasons r)
        /\ ~ In [] (AdRecord.topics r) /\ ~ In [] (AdRecord.reasons r)).
Proof.
  split; [reflexivity|].
  exact (proj1 (getStats_never_lists_approved CONFIG account_mixed out_mixed [] eq_refl)).
Defined.

(** Witness of X5: the three scans of [account_mixed] run through. *)
Lemma getStats_counts_passing_entities_of_complete_scans_witness :
  getStats_out CONFIG account_mixed = Ok (out_mixed, [])
  /\ Totals.ads (ScanResult.totals out_mixed)
     = Z.of_nat (length (List.filter ad_passes
                  (handed_out (Account.ads account_mixed (MAX_ROWS_PER_SECTION CONFIG)))))
  /\ Totals.keywords (ScanResult.totals out_mixed)
     = Z.of_nat (length (List.filter keyword_passes
                  (handed_out (Account.keywords account_mixed (MAX_ROWS_PER_SECTION CONFIG)))))
  /\ Totals.assets (ScanResult.totals out_mixed)
     = Z.of_nat (length (List.filter asset_passes
                  (handed_out (Account.assets account_mixed (MAX_ROWS_PER_SECTION CONFIG))))).
Proof.
  destruct (getStats_counts_passing_entities_of_complete_scans CONFIG account_mixed
              out_mixed [] eq_refl) as (Ha & Hk & Hs).
  split; [reflexivity|]. split; [|split].
  - apply Ha. eexists. split; [reflexivity|]. split; [reflexivity|].
    intros a [<-|[<-|[]]]; eexists; reflexivity.
  - apply Hk. eexists. split; [reflexivity|]. split; [reflexivity|].
    intros a [<-|[]]; eexists; reflexivity.
  - apply Hs. eexists. split; [reflexivity|]. split; [reflexivity|].
    intros a [<-|[<-|[]]]; eexists; reflexivity.
Defined.

(** Witness of X8: the one group of the shipped configuration. *)
Lemma processGroup_delivers_to_trimmed_recipient_witness :
  context_round_trip host_example (group_context CONFIG group_sam)
  /\ exists merged,
       merge_loop host_example
         (List.map (worker_outcome CONFIG host_example)
            (accounts host_example (group_condition group_sam)))
         (merged_init (group_label group_sam)) = Ok merged
       /\ snd (processGroup CONFIG host_example group_sam fresh) = Ok tt
       /\ deliveries (effects (fst (processGroup CONFIG host_example group_sam fresh)))
          = [(js "sam@example.com", None)]
       /\ subjects (effects (fst (processGroup CONFIG host_example group_sam fresh)))
          = [spec_subject (subject_prefix CONFIG) (js "Managed by Sam")
               (MergedTotals.ads (Merged.totals merged))
               (MergedTotals.keywords (Merged.totals merged))
               (MergedTotals.assets (Merged.totals merged))].
Proof.
  assert (H : context_round_trip host_example (group_context CONFIG group_sam))
    by (split; [discriminate | vm_compute; reflexivity]).
  split; [exact H|].
  destruct (processGroup_delivers_to_trimmed_recipient CONFIG host_example group_sam fresh
              H eq_refl) as (merged & Hm & Hrun).
  exists merged. split; [exact Hm|]. cbv zeta in Hrun.
  destruct (processGroup CONFIG host_example group_sam fresh) as [w' [[]|e]] eqn:E.
  - destruct Hrun as (_ & Hd & Hs). split; [reflexivity|]. split; [exact Hd | exact Hs].
  - vm_compute in E. discriminate E.
Defined.

(** Witness of X9: the shipped configuration on a host in preview mode. *)
Lemma main_sends_nothing_in_preview_witness :
  deliveries (effects (fst (main_loop CONFIG host_preview (LABEL_RECIPIENTS CONFIG) fresh)))
    = deliveries (effects fresh)
  /\ deliveries (effects (fst (main CONFIG host_preview fresh))) = deliveries (effects fresh).
Proof.
  apply (main_sends_nothing_in_preview CONFIG host_preview (LABEL_RECIPIENTS CONFIG) fresh).
  reflexivity.
Defined.

(** Witness of X10: a default recipient of two spaces; the first group has
    no [to], so its fan-out runs and the aggregator throws, and the second
    group is never started. *)
Lemma main_stops_at_first_failure_witness :
  main config_blank_default host_blank fresh
    = (fst (processGroup config_blank_default host_blank group_unrouted fresh),
       Thrown (Error (js "Failed to send email: no recipient")))
  /\ fanouts (effects (fst (processGroup config_blank_default host_blank group_unrouted fresh)))
     = fanouts (effects fresh)
       ++ [(group_condition group_unrouted,
            stringify_context host_blank (group_context config_blank_default group_unrouted))].
Proof.
  apply (main_stops_at_first_failure config_blank_default host_blank [] [group_sam]
           group_unrouted fresh fresh).
  - reflexivity.
  - reflexivity.
  - vm_compute. reflexivity.
Defined.

(** Witness of X12: the outcomes of [results_example] against its first
    outcome alone. *)
Lemma generateOutput_ignores_outcomes_without_payload_witness :
  generateOutput CONFIG host_example results_example context_text_example fresh
  = generateOutput CONFIG host_example
      [ {| ExecutionResult.getReturnValue := Gives (Some text_example) |} ]
      context_text_example fresh.
Proof.
  apply generateOutput_ignores_outcomes_without_payload.
  - vm_compute. reflexivity.
  - intros res [<-|[<-|[<-|[]]]]; discriminate.
  - intros res [<-|[]]; discriminate.
Defined.

(** Witness of X13: two outcomes, one of a failed worker and one without
    the accessor. *)
Lemma generateOutput_reports_no_accounts_witness :
  snd (generateOutput CONFIG host_example
         [ {| ExecutionResult.getReturnValue := Gives None |};
           {| ExecutionResult.getReturnValue := Missing |} ]
         context_text_example fresh) = Ok tt
  /\ subjects (effects (fst (generateOutput CONFIG host_example
         [ {| ExecutionResult.getReturnValue := Gives None |};
           {| ExecutionResult.getReturnValue := Missing |} ]
         context_text_example fresh)))
     = subjects (effects fresh)
       ++ [subject_prefix CONFIG ++ js " " ++ em_dash ++ js " "
           ++ report_label host_example context_text_example ++ js " " ++ em_dash
           ++ js " NONE (Ads:0, KW:0, Assets:0)"].
Proof.
  assert (Hr : forall res,
            In res [ {| ExecutionResult.getReturnValue := Gives None |};
                     {| ExecutionResult.getReturnValue := Missing |} ] ->
            ExecutionResult.getReturnValue res <> Raises)
    by (intros res [<-|[<-|[]]]; discriminate).
  assert (Hc : trimmed_or (Context.to (read_context host_example context_text_example))
                 (DEFAULT_TO CONFIG) <> [])
    by (vm_compute; discriminate).
  pose proof (generateOutput_reports_no_accounts CONFIG host_example
         [ {| ExecutionResult.getReturnValue := Gives None |};
           {| ExecutionResult.getReturnValue := Missing |} ]
         context_text_example fresh eq_refl Hr Hc eq_refl) as H.
  cbv zeta in H.
  destruct (generateOutput CONFIG host_example _ context_text_example fresh)
    as [w' [[]|e]] eqn:E.
  - destruct H as (Hs & _). split; [reflexivity | exact Hs].
  - vm_compute in E. discriminate E.
Defined.

(** Witness of X14: the payload of [results_example]. *)
Lemma merged_totals_match_rows_for_consistent_payloads_witness :
  merge_loop host_example results_example (merged_init (js "Managed by Sam"))
    = Ok merged_example
  /\ MergedTotals.ads (Merged.totals merged_example)
     = Zsum (List.map (fun row => Z.of_nat (length (Row.ads row)))
               (Merged.rows merged_example)).
Proof.
  split; [vm_compute; reflexivity|].
  refine (proj1 (merged_totals_match_rows_for_consistent_payloads host_example
                   results_example (js "Managed by Sam") merged_example _ _)).
  - vm_compute. reflexivity.
  - intros payload Hin. vm_compute in Hin. destruct Hin as [<-|[]].
    repeat split.
Defined.

(** Witness of X15: the one account of the end-to-end example. *)
Lemma fanout_merges_what_the_workers_returned_witness :
  returned CONFIG [account_example] = [out_example]
  /\ parse_result host_example (stringify_result host_example out_example)
     = Ok (Some (payload_of out_example))
  /\ exists merged,
       merge_loop host_example (List.map (worker_outcome CONFIG host_example) [account_example])
         (merged_init (js "Managed by Sam")) = Ok merged
       /\ MergedTotals.accounts (Merged.totals merged) = 1
       /\ MergedTotals.ads (Merged.totals merged) = 2
       /\ MergedTotals.keywords (Merged.totals merged) = 1
       /\ MergedTotals.assets (Merged.totals merged) = 0.
Proof.
  split; [reflexivity|]. split; [vm_compute; reflexivity|].
  destruct (fanout_merges_what_the_workers_returned CONFIG host_example [account_example]
              (js "Managed by Sam")) as (merged & Hm & Hn & Ha & Hk & Hs & _).
  - intros out [<-|[]]. vm_compute. reflexivity.
  - exists merged. repeat split; assumption.
Defined.

(** Witness of X19: a label with an apostrophe. *)
Lemma processGroup_escapes_quotes_only_witness :
  group_skipped CONFIG group_quoted = false
  /\ fanouts (effects (fst (processGroup CONFIG host_example group_quoted fresh)))
     = [(js "LabelNames CONTAINS_ANY ['Sam\'s accounts']",
         stringify_context host_example (group_context CONFIG group_quoted))]
  /\ exists escaped ctx,
       fanouts (effects (fst (processGroup CONFIG host_example group_quoted fresh)))
       = fanouts (effects fresh)
         ++ [(js "LabelNames CONTAINS_ANY ['" ++ escaped ++ js "']", ctx)]
       /\ quotes_escaped false escaped = true.
Proof.
  split; [reflexivity|]. split; [vm_compute; reflexivity|].
  destruct (processGroup_escapes_quotes_only CONFIG host_example group_quoted fresh eq_refl)
    as (escaped & ctx & Hf & Hq & _).
  exists escaped, ctx. split; assumption.
Defined.
